(** * SketchScript 2.0: tokenizer, parser, evaluator and statement interpreter

    A shallow embedding of [src/main.py]: the language core ([tokenize],
    [parse_expression], [parse_term], [parse_factor],
    [parse_full_expression], [parse_expression_until], [parse_condition],
    [eval_expr], [eval_condition], [find_block_end], [move_cursor],
    [draw_shape] and [interpret]) and the handling of events in the main
    loop, together with the properties of the specification that are
    checked against it and further properties of the code.  The rendering
    of the editor and of the help text, which depends on the fonts of
    pygame, is left out.

    Modelling conventions.
    - A Python [str] is a [string]; a character is a code point below 256
      (the Latin-1 range), with Python's own classification of those code
      points for [str.split], [str.isdigit] and [str.isalpha].
    - A Python [float] is a binary64 primitive float; a Python [int] is a
      [Z].  Mixed arithmetic converts the integer as CPython does.
    - An exception is a value of [exn]; every [raise Exception(msg)] of the
      source is [Exception msg], the exceptions of the runtime
      ([IndexError], [TypeError], ...) are separate constructors.
    - A loop of the source is a recursive function on a fuel counter that
      keeps the source's index; running out of fuel is the result
      [OutOfFuel], never a value.  CPython's bound on the recursion depth
      is not modelled.
    - The three globals [symbols], [call_stack] and [cursor] are the fields
      of [state], threaded through [interpret]; an exception leaves the
      state as it was when it was raised.  The pygame surface is the list
      of drawing primitives sent to it.
    - The C library's cosine and sine and the generator behind
      [random.choice] are parameters of the interpreter. *)

From Stdlib Require Import ZArith List String Ascii Bool Lia.
From Stdlib Require Import PrimFloat SpecFloat FloatOps DecimalString.
From stdpp Require Import base option list gmap strings.

Local Open Scope string_scope.
Local Open Scope list_scope.
Local Open Scope nat_scope.

(** ** Exceptions and results *)

Inductive exn : Type :=
  | Exception (msg : string)
  | IndexError
  | TypeError
  | ValueError
  | OverflowError
  | ZeroDivisionError.

Inductive result (A : Type) : Type :=
  | Ok (a : A)
  | Raise (e : exn)
  | OutOfFuel.

Arguments Ok {A} a.
Arguments Raise {A} e.
Arguments OutOfFuel {A}.

Definition rbind {A B : Type} (m : result A) (k : A -> result B) : result B :=
  match m with
  | Ok a => k a
  | Raise e => Raise e
  | OutOfFuel => OutOfFuel
  end.

Notation "'let*' x ':=' m 'in' k" := (rbind m (fun x => k))
  (at level 10, x pattern, m at level 200, k at level 200).

(** ** Strings *)

Module Str.

Definition ord (c : ascii) : N := N_of_ascii c.

(** [str.isspace] on the code points below 256. *)
Definition isspace (c : ascii) : bool :=
  let n := ord c in
  (((9 <=? n) && (n <=? 13)) || ((28 <=? n) && (n <=? 32))
   || (n =? 133) || (n =? 160))%N.

(** [str.isdigit] on one character: the decimal digits and the
    superscripts two, three and one. *)
Definition isdigit_char (c : ascii) : bool :=
  let n := ord c in
  (((48 <=? n) && (n <=? 57)) || (n =? 178) || (n =? 179) || (n =? 185))%N.

Definition isalpha_char (c : ascii) : bool :=
  let n := ord c in
  (((65 <=? n) && (n <=? 90)) || ((97 <=? n) && (n <=? 122))
   || (n =? 170) || (n =? 181) || (n =? 186)
   || ((192 <=? n) && (n <=? 214)) || ((216 <=? n) && (n <=? 246))
   || ((248 <=? n) && (n <=? 255)))%N.

Fixpoint forallb (p : ascii -> bool) (s : string) : bool :=
  match s with
  | EmptyString => true
  | String c s' => p c && forallb p s'
  end.

Definition is_empty (s : string) : bool :=
  match s with EmptyString => true | String _ _ => false end.

(** [s.isdigit()], [s.isalpha()]: false on the empty string. *)
Definition isdigit (s : string) : bool := negb (is_empty s) && forallb isdigit_char s.
Definition isalpha (s : string) : bool := negb (is_empty s) && forallb isalpha_char s.

(** [s.replace(old, new)] for a one-character [old]. *)
Fixpoint replace (s : string) (old : ascii) (new : string) : string :=
  match s with
  | EmptyString => EmptyString
  | String c s' =>
      if Ascii.eqb c old then String.append new (replace s' old new)
      else String c (replace s' old new)
  end.

(** [s.replace(old, "", 1)] for a one-character [old]. *)
Fixpoint remove_first (s : string) (old : ascii) : string :=
  match s with
  | EmptyString => EmptyString
  | String c s' => if Ascii.eqb c old then s' else String c (remove_first s' old)
  end.

(** [s.split()]: the maximal runs of characters that are not white space.
    [word] is the run being read. *)
Fixpoint split_from (s : string) (word : string) : list string :=
  match s with
  | EmptyString => if is_empty word then [] else [word]
  | String c s' =>
      if isspace c then
        if is_empty word then split_from s' EmptyString
        else word :: split_from s' EmptyString
      else split_from s' (String.append word (String c EmptyString))
  end.

Definition split (s : string) : list string := split_from s EmptyString.

(** [sep.join(l)] *)
Fixpoint join (sep : string) (l : list string) : string :=
  match l with
  | [] => EmptyString
  | [x] => x
  | x :: l' => String.append x (String.append sep (join sep l'))
  end.

(** [str(n)] for a natural number. *)
Definition of_nat (n : nat) : string := NilZero.string_of_uint (Nat.to_uint n).

End Str.

(** ** Lists of tokens *)

(** A token is a string. *)
Abbreviation token := string (only parsing).

(** [tokens[i]] *)
Definition getitem (tokens : list token) (i : nat) : result token :=
  match tokens !! i with
  | Some t => Ok t
  | None => Raise IndexError
  end.

(** [tokens[i] == s], where the source has checked [i < len(tokens)]. *)
Definition tok_is (tokens : list token) (i : nat) (s : string) : bool :=
  match tokens !! i with
  | Some t => String.eqb t s
  | None => false
  end.

(** [tokens[a:b]] for indices that are not negative. *)
Definition slice (tokens : list token) (a b : nat) : list token :=
  take (b - a) (drop a tokens).

(** [t in s] for a set or tuple [s] of strings. *)
Definition mem (t : string) (s : list string) : bool := existsb (String.eqb t) s.

(** ** Tokenizer *)

Definition pad (ch : ascii) : string := String " " (String ch " ").

Definition block_symbols : list ascii := ["{"; "}"; "("; ")"; ","]%char.
Definition operators : list ascii := ["+"; "-"; "*"; "/"; "="; ">"; "<"; "!"]%char.

(** The loop of [tokenize] that joins "!" and "=". *)
Fixpoint combine_loop (fuel : nat) (tokens : list token) (i : nat)
    (combined : list token) : result (list token) :=
  if i <? length tokens then
    match fuel with
    | O => OutOfFuel
    | S fuel' =>
        let* t := getitem tokens i in
        if String.eqb t "!" && (i + 1 <? length tokens) && tok_is tokens (i + 1) "=" then
          combine_loop fuel' tokens (i + 2) (combined ++ ["!="])
        else
          combine_loop fuel' tokens (i + 1) (combined ++ [t])
    end
  else Ok combined.

Definition tokenize (code : string) : result (list token) :=
  let code := fold_left (fun code ch => Str.replace code ch (pad ch)) block_symbols code in
  let code := fold_left (fun code op => Str.replace code op (pad op)) operators code in
  let tokens := List.filter (fun tok => negb (Str.is_empty tok)) (Str.split code) in
  combine_loop (length tokens) tokens 0 [].

(** ** Numbers

    The arithmetic of Python's [int] and [float], restricted to what the
    evaluator uses. *)

Inductive number : Type :=
  | PyInt (z : Z)
  | PyFloat (f : float).

Module Num.

Definition is_inf (f : float) : bool :=
  match Prim2SF f with S754_infinity _ => true | _ => false end.

Definition sf_of_Z (z : Z) : spec_float :=
  match z with
  | Z0 => S754_zero false
  | Zpos p => S754_finite false p 0
  | Zneg p => S754_finite true p 0
  end.

(** The float nearest to [z], ties to even. *)
Definition float_of_Z (z : Z) : float :=
  SF2Prim (binary_normalize prec emax z 0 false).

(** [float(z)]: [OverflowError] when the nearest float is out of range. *)
Definition float_of_int (z : Z) : result float :=
  let f := float_of_Z z in
  if is_inf f then Raise OverflowError else Ok f.

Definition to_float (n : number) : result float :=
  match n with
  | PyFloat f => Ok f
  | PyInt z => float_of_int z
  end.

Definition arith (opz : Z -> Z -> Z) (opf : float -> float -> float)
    (a b : number) : result number :=
  match a, b with
  | PyInt x, PyInt y => Ok (PyInt (opz x y))
  | _, _ =>
      let* x := to_float a in
      let* y := to_float b in
      Ok (PyFloat (opf x y))
  end.

Definition add : number -> number -> result number := arith Z.add PrimFloat.add.
Definition sub : number -> number -> result number := arith Z.sub PrimFloat.sub.
Definition mul : number -> number -> result number := arith Z.mul PrimFloat.mul.

(** [n == 0] *)
Definition is_zero (n : number) : bool :=
  match n with
  | PyInt z => Z.eqb z 0
  | PyFloat f => PrimFloat.eqb f zero
  end.

(** [a / b]: true division.  Of two integers it is the quotient rounded
    once to the nearest float. *)
Definition div (a b : number) : result number :=
  if is_zero b then Raise ZeroDivisionError else
  match a, b with
  | PyInt x, PyInt y =>
      let q := SF2Prim (SFdiv prec emax (sf_of_Z x) (sf_of_Z y)) in
      if is_inf q then Raise OverflowError else Ok (PyFloat q)
  | _, _ =>
      let* x := to_float a in
      let* y := to_float b in
      Ok (PyFloat (PrimFloat.div x y))
  end.

(** The value of a float as an integer times a power of two. *)
Definition compare_int_float (z : Z) (f : float) : option comparison :=
  match Prim2SF f with
  | S754_nan => None
  | S754_infinity s => Some (if s then Gt else Lt)
  | S754_zero _ => Some (Z.compare z 0)
  | S754_finite s m e =>
      let v := if s then Zneg m else Zpos m in
      if (0 <=? e)%Z then Some (Z.compare z (v * 2 ^ e))
      else Some (Z.compare (z * 2 ^ (- e)) v)
  end.

(** Comparison is exact, also between an integer and a float; [None] is
    "unordered" (a NaN is involved). *)
Definition compare (a b : number) : option comparison :=
  match a, b with
  | PyInt x, PyInt y => Some (Z.compare x y)
  | PyInt x, PyFloat g => compare_int_float x g
  | PyFloat f, PyInt y => option_map CompOpp (compare_int_float y f)
  | PyFloat f, PyFloat g =>
      match PrimFloat.compare f g with
      | FEq => Some Eq
      | FLt => Some Lt
      | FGt => Some Gt
      | FNotComparable => None
      end
  end.

Definition gt (a b : number) : bool :=
  match compare a b with Some Gt => true | _ => false end.
Definition lt (a b : number) : bool :=
  match compare a b with Some Lt => true | _ => false end.
Definition eq (a b : number) : bool :=
  match compare a b with Some Eq => true | _ => false end.

(** [int(n)]: truncation towards zero. *)
Definition to_int (n : number) : result Z :=
  match n with
  | PyInt z => Ok z
  | PyFloat f =>
      match Prim2SF f with
      | S754_nan => Raise ValueError
      | S754_infinity _ => Raise OverflowError
      | S754_zero _ => Ok 0%Z
      | S754_finite s m e =>
          let a := if (0 <=? e)%Z then (Zpos m * 2 ^ e)%Z else (Zpos m / 2 ^ (- e))%Z in
          Ok (if s then (- a)%Z else a)
      end
  end.

Definition is_ascii_digit (c : ascii) : bool :=
  ((48 <=? Str.ord c) && (Str.ord c <=? 57))%N.

Definition digit_value (c : ascii) : Z := Z.of_N (Str.ord c) - 48.

(** The digits of a literal: the integer they spell once the point is
    dropped, the number of digits after the point, and whether a point
    was seen; [None] on any other character or a second point. *)
Fixpoint read_digits (s : string) (m : Z) (k : nat) (point : bool)
    : option (Z * nat) :=
  match s with
  | EmptyString => Some (m, k)
  | String c s' =>
      if Ascii.eqb c "."%char then
        if point then None else read_digits s' m k true
      else if is_ascii_digit c then
        read_digits s' (10 * m + digit_value c)%Z (if point then S k else k) point
      else None
  end.

(** [float(token)] on the tokens that reach it in [parse_factor]: digits
    (as [str.isdigit] sees them) with at most one point.  The decimal
    number read is rounded once to the nearest float; a digit that is not
    one of 0 to 9 is a [ValueError]. *)
Definition float_of_literal (tok : string) : result float :=
  match read_digits tok 0 0 false with
  | Some (m, k) =>
      Ok (SF2Prim (SFdiv prec emax (sf_of_Z m) (sf_of_Z (10 ^ Z.of_nat k))))
  | None => Raise ValueError
  end.

End Num.

(** ** Expressions, conditions and values *)

Inductive binop : Type := Add | Sub | Mul | Div.
Inductive relop : Type := Gt_ | Lt_ | Eq_ | Ne_.

(** The nodes [parse_factor] and the loops of [parse_term] and
    [parse_expression] build: a float, a name, or the dictionary
    [{"op": op, "left": l, "right": r}]. *)
Inductive expr : Type :=
  | Lit (f : float)
  | Name (x : string)
  | BinOp (op : binop) (left right : expr).

Record condition : Type := Cond { c_left : expr; c_op : relop; c_right : expr }.

(** What [symbols] holds: a number, or the dictionary
    [{"params": params, "body": body}] of a DEFINE. *)
Inductive value : Type :=
  | VNum (n : number)
  | VFunc (params : list token) (body : list token).

Definition relop_of_token (t : token) : option relop :=
  if String.eqb t ">" then Some Gt_
  else if String.eqb t "<" then Some Lt_
  else if String.eqb t "=" then Some Eq_
  else if String.eqb t "!=" then Some Ne_
  else None.

Definition COMMAND_KEYWORDS : list string :=
  ["SET"; "DEFINE"; "CALL"; "IF"; "WHILE"; "MOVE"; "TURN"; "DRAW"; "COLOR"; "}"; "{"].

(** ** Expression parser *)

Definition parsed : Type := result (expr * nat).

(** [parse_factor]; [parse_expression] is the recursive call. *)
Definition parse_factor
    (parse_expression : list token -> nat -> list string -> parsed)
    (tokens : list token) (i : nat) (stop_tokens : list string) : parsed :=
  if length tokens <=? i then Raise (Exception "Unexpected end of tokens in expression")
  else
    let* token := getitem tokens i in
    if mem token stop_tokens then
      Raise (Exception (String.append "Unexpected token '"
                          (String.append token "' in expression")))
    else if String.eqb token "(" then
      let* (node, i) := parse_expression tokens (i + 1) (")" :: stop_tokens) in
      if (length tokens <=? i) || negb (tok_is tokens i ")") then
        Raise (Exception "Expected )")
      else Ok (node, i + 1)
    else if Str.isdigit (Str.remove_first token ".") then
      let* f := Num.float_of_literal token in
      Ok (Lit f, i + 1)
    else if Str.isalpha token || mem token COMMAND_KEYWORDS then
      Ok (Name token, i + 1)
    else Raise (Exception (String.append "Unexpected token in expression: " token)).

(** The [while] loop shared by [parse_term] (operators "*" and "/", operand
    [parse_factor]) and [parse_expression] (operators "+" and "-", operand
    [parse_term]).  [ops] is the tuple the source tests [tokens[i]] against,
    each operator with the node tag it becomes. *)
Definition operator_at (ops : list (string * binop)) (tokens : list token)
    (stop_tokens : list string) (i : nat) : option binop :=
  if i <? length tokens then
    match tokens !! i with
    | Some t =>
        match List.find (fun o => String.eqb t (fst o)) ops with
        | Some o => if negb (mem t stop_tokens) then Some (snd o) else None
        | None => None
        end
    | None => None
    end
  else None.

Fixpoint operator_loop (operand : nat -> parsed) (ops : list (string * binop))
    (fuel : nat) (tokens : list token) (stop_tokens : list string)
    (node : expr) (i : nat) : parsed :=
  match operator_at ops tokens stop_tokens i with
  | Some op =>
      match fuel with
      | O => OutOfFuel
      | S fuel' =>
          let i := i + 1 in
          let* (rhs, i) := operand i in
          operator_loop operand ops fuel' tokens stop_tokens (BinOp op node rhs) i
      end
  | None => Ok (node, i)
  end.

Definition term_ops : list (string * binop) := [("*", Mul); ("/", Div)].
Definition expression_ops : list (string * binop) := [("+", Add); ("-", Sub)].

Definition parse_term
    (parse_expression : list token -> nat -> list string -> parsed)
    (fuel : nat) (tokens : list token) (i : nat) (stop_tokens : list string) : parsed :=
  let factor := fun i => parse_factor parse_expression tokens i stop_tokens in
  let* (node, i) := factor i in
  operator_loop factor term_ops fuel tokens stop_tokens node i.

Fixpoint parse_expression_fuel (fuel : nat) (tokens : list token) (i : nat)
    (stop_tokens : list string) {struct fuel} : parsed :=
  match fuel with
  | O => OutOfFuel
  | S fuel' =>
      let term := fun i =>
        parse_term (parse_expression_fuel fuel') fuel' tokens i stop_tokens in
      let* (node, i) := term i in
      operator_loop term expression_ops fuel' tokens stop_tokens node i
  end.

(** Every call consumes a token before it recurses and every iteration of
    a loop consumes one, so this fuel is never used up
    ([parse_expression_total]). *)
Definition parse_fuel (tokens : list token) : nat := S (S (length tokens)).

Definition parse_expression (tokens : list token) (i : nat) (stop_tokens : list string)
    : parsed :=
  parse_expression_fuel (parse_fuel tokens) tokens i stop_tokens.

Definition parse_full_expression (token_list : list token) : result expr :=
  let* (expr, i) := parse_expression token_list 0 [] in
  if negb (i =? length token_list) then
    Raise (Exception (String.append "Extra tokens in expression: "
                        (Str.join " " (drop i token_list))))
  else Ok expr.

(** ** Condition parser *)

Definition parse_condition (tokens : list token) (i : nat) : result (condition * nat) :=
  let* (lhs, i) := parse_expression tokens i [">"; "<"; "="; "!="] in
  if length tokens <=? i then Raise (Exception "Expected operator in condition")
  else
    let* op := getitem tokens i in
    match relop_of_token op with
    | None => Raise (Exception (String.append "Expected comparison operator, got " op))
    | Some rop =>
        let i := i + 1 in
        let* (rhs, i) := parse_expression tokens i ["{"] in
        Ok (Cond lhs rop rhs, i)
    end.

(** ** Block end finder *)

Fixpoint find_block_end_loop (fuel : nat) (tokens : list token) (depth : Z) (i : nat)
    : result nat :=
  if (i <? length tokens) && (0 <? depth)%Z then
    match fuel with
    | O => OutOfFuel
    | S fuel' =>
        let* t := getitem tokens i in
        let depth :=
          if String.eqb t "{" then (depth + 1)%Z
          else if String.eqb t "}" then (depth - 1)%Z
          else depth in
        find_block_end_loop fuel' tokens depth (i + 1)
    end
  else Ok i.

(** The loop advances [i] by one up to [len(tokens)], so the tokens that
    are left bound its iterations ([find_block_end_total]). *)
Definition find_block_end (tokens : list token) (start : nat) : result nat :=
  find_block_end_loop (length tokens - start) tokens 1 start.

(** ** Evaluator *)

Definition symtab : Type := gmap string value.

Definition value_arith (f : number -> number -> result number) (a b : value)
    : result value :=
  match a, b with
  | VNum x, VNum y => let* n := f x y in Ok (VNum n)
  | _, _ => Raise TypeError
  end.

(** [v != 0]: a dictionary is never equal to a number. *)
Definition value_ne_zero (v : value) : bool :=
  match v with
  | VNum n => negb (Num.is_zero n)
  | VFunc _ _ => true
  end.

Definition token_list_eqb (a b : list token) : bool :=
  bool_decide (a = b).

(** [a == b] *)
Definition value_eq (a b : value) : bool :=
  match a, b with
  | VNum x, VNum y => Num.eq x y
  | VFunc p1 b1, VFunc p2 b2 => token_list_eqb p1 p2 && token_list_eqb b1 b2
  | _, _ => false
  end.

(** [a > b] and [a < b]: only numbers are ordered. *)
Definition value_order (f : number -> number -> bool) (a b : value) : result bool :=
  match a, b with
  | VNum x, VNum y => Ok (f x y)
  | _, _ => Raise TypeError
  end.

Fixpoint eval_expr (symbols : symtab) (e : expr) : result value :=
  match e with
  | BinOp op l r =>
      let* lhs := eval_expr symbols l in
      let* rhs := eval_expr symbols r in
      match op with
      | Add => value_arith Num.add lhs rhs
      | Sub => value_arith Num.sub lhs rhs
      | Mul => value_arith Num.mul lhs rhs
      | Div =>
          if value_ne_zero rhs then value_arith Num.div lhs rhs
          else Ok (VNum (PyInt 0))
      end
  | Lit f => Ok (VNum (PyFloat f))
  | Name x =>
      match symbols !! x with
      | Some v => Ok v
      | None => Ok (VNum (PyInt 0))
      end
  end.

Definition eval_condition (symbols : symtab) (cond : condition) : result bool :=
  let* lhs := eval_expr symbols (c_left cond) in
  let* rhs := eval_expr symbols (c_right cond) in
  match c_op cond with
  | Gt_ => value_order Num.gt lhs rhs
  | Lt_ => value_order Num.lt lhs rhs
  | Eq_ => Ok (value_eq lhs rhs)
  | Ne_ => Ok (negb (value_eq lhs rhs))
  end.

(** ** Interpreter state *)

Definition rgb : Type := Z * Z * Z.

Record cursor_t : Type := Cursor {
  cur_x : number;
  cur_y : number;
  cur_angle : number;
  cur_color : rgb
}.

(** The calls made on the pygame surface ([width] is always 2). *)
Inductive primitive : Type :=
  | Line (color : rgb) (start_pos end_pos : number * number) (width : Z)
  | Circle (color : rgb) (center : Z * Z) (radius : Z) (width : Z)
  | Rect (color : rgb) (rect : Z * Z * Z * Z) (width : Z)
  | Polygon (color : rgb) (points : list (number * number)) (width : Z).

(** [call_stack] has its top at the head; [drawn] lists the primitives in
    the order they were sent; [choices] counts the calls of
    [random.choice]. *)
Record state : Type := State {
  symbols : symtab;
  call_stack : list symtab;
  cursor : cursor_t;
  drawn : list primitive;
  choices : nat
}.

Definition WIDTH : Z := 800.
Definition HEIGHT : Z := 600.
Definition white : rgb := (255, 255, 255)%Z.

Definition initial_state : state :=
  {| symbols := ∅;
     call_stack := [];
     cursor := {| cur_x := PyInt (WIDTH / 2); cur_y := PyInt (HEIGHT / 2);
                  cur_angle := PyInt 0; cur_color := white |};
     drawn := [];
     choices := 0 |}.

(** [COLORS], in the order of its definition. *)
Definition COLORS : list (string * rgb) :=
  [("Red", (255, 0, 0)); ("Blue", (0, 0, 255)); ("Green", (0, 255, 0)); ("Black", (0, 0, 0))]%Z.

Definition COLORS_get (name : string) (default : rgb) : rgb :=
  match List.find (fun kv => String.eqb name (fst kv)) COLORS with
  | Some kv => snd kv
  | None => default
  end.

(** ** The monad of [interpret]: a result and the state it leaves *)

Definition M (A : Type) : Type := state -> result A * state.

Definition ret {A : Type} (a : A) : M A := fun st => (Ok a, st).

Definition bind {A B : Type} (m : M A) (k : A -> M B) : M B :=
  fun st =>
    match m st with
    | (Ok a, st') => k a st'
    | (Raise e, st') => (Raise e, st')
    | (OutOfFuel, st') => (OutOfFuel, st')
    end.

Notation "'let!' x ':=' m 'in' k" := (bind m (fun x => k))
  (at level 10, x pattern, m at level 200, k at level 200).

Definition lift {A : Type} (r : result A) : M A := fun st => (r, st).
Definition raise {A : Type} (e : exn) : M A := lift (Raise e).
Definition get_symbols : M symtab := fun st => (Ok (symbols st), st).
Definition get_cursor : M cursor_t := fun st => (Ok (cursor st), st).

Definition set_symbols (m : symtab) : M unit := fun st =>
  (Ok tt, {| symbols := m; call_stack := call_stack st; cursor := cursor st;
             drawn := drawn st; choices := choices st |}).

Definition set_cursor (c : cursor_t) : M unit := fun st =>
  (Ok tt, {| symbols := symbols st; call_stack := call_stack st; cursor := c;
             drawn := drawn st; choices := choices st |}).

(** A call of [pygame.draw]. *)
Definition draw (p : primitive) : M unit := fun st =>
  (Ok tt, {| symbols := symbols st; call_stack := call_stack st; cursor := cursor st;
             drawn := drawn st ++ [p]; choices := choices st |}).

(** [call_stack.append(m)] *)
Definition push_stack (m : symtab) : M unit := fun st =>
  (Ok tt, {| symbols := symbols st; call_stack := m :: call_stack st; cursor := cursor st;
             drawn := drawn st; choices := choices st |}).

(** [call_stack.pop()] *)
Definition pop_stack : M symtab := fun st =>
  match call_stack st with
  | [] => (Raise IndexError, st)
  | m :: rest =>
      (Ok m, {| symbols := symbols st; call_stack := rest; cursor := cursor st;
                drawn := drawn st; choices := choices st |})
  end.

(** [symbols.update(m)] and [symbols.clear()] *)
Definition update_symbols (m : symtab) : M unit :=
  let! syms := get_symbols in set_symbols (m ∪ syms).

Definition clear_symbols : M unit := set_symbols ∅.

Definition eval (e : expr) : M value :=
  let! syms := get_symbols in lift (eval_expr syms e).

Section Interpreter.

(** The C library's cosine and sine on finite arguments, and the
    generator behind [random.choice]: [randbelow k n] is the index drawn
    by the [k]-th call, among [n]. *)
Variable libm_cos : float -> float.
Variable libm_sin : float -> float.
Variable randbelow : nat -> nat -> nat.

Definition math_pi : float := 0x1.921fb54442d18p+1%float.

(** [math.cos(x)] and [math.sin(x)]: a domain error at an infinity. *)
Definition math_cos (x : float) : result float :=
  if Num.is_inf x then Raise ValueError else Ok (libm_cos x).
Definition math_sin (x : float) : result float :=
  if Num.is_inf x then Raise ValueError else Ok (libm_sin x).

(** [math.radians(x)] *)
Definition math_radians (x : number) : result float :=
  let* x := Num.to_float x in
  Ok (PrimFloat.mul x (PrimFloat.div math_pi 180)).

(** [int(v)] *)
Definition value_to_int (v : value) : result Z :=
  match v with
  | VNum n => Num.to_int n
  | VFunc _ _ => Raise TypeError
  end.

(** *** Drawing functions *)

(** A value used as an operand of float arithmetic: a dictionary is a
    [TypeError]. *)
Definition as_number (v : value) : result number :=
  match v with
  | VNum n => Ok n
  | VFunc _ _ => Raise TypeError
  end.

Definition set_cursor_x (x : number) : M unit :=
  let! c := get_cursor in
  set_cursor {| cur_x := x; cur_y := cur_y c; cur_angle := cur_angle c;
                cur_color := cur_color c |}.

Definition set_cursor_y (y : number) : M unit :=
  let! c := get_cursor in
  set_cursor {| cur_x := cur_x c; cur_y := y; cur_angle := cur_angle c;
                cur_color := cur_color c |}.

Definition set_cursor_angle (a : number) : M unit :=
  let! c := get_cursor in
  set_cursor {| cur_x := cur_x c; cur_y := cur_y c; cur_angle := a;
                cur_color := cur_color c |}.

Definition set_cursor_color (col : rgb) : M unit :=
  let! c := get_cursor in
  set_cursor {| cur_x := cur_x c; cur_y := cur_y c; cur_angle := cur_angle c;
                cur_color := col |}.

(** The two assignments of a branch of [move_cursor]: [op] is [+=] for
    "Forward" and [-=] for "Backward". *)
Definition advance (op : number -> number -> result number) (distance : value)
    (angle_rad : float) : M unit :=
  let! c := get_cursor in
  let! x := lift (let* cs := math_cos angle_rad in
                  let* d := as_number distance in
                  let* step := Num.mul d (PyFloat cs) in
                  op (cur_x c) step) in
  let! _ := set_cursor_x x in
  let! y := lift (let* sn := math_sin angle_rad in
                  let* d := as_number distance in
                  let* step := Num.mul d (PyFloat sn) in
                  op (cur_y c) step) in
  set_cursor_y y.

Definition move_cursor (distance : value) (direction : token) : M unit :=
  let! c := get_cursor in
  let old_x := cur_x c in
  let old_y := cur_y c in
  let! angle_rad := lift (math_radians (cur_angle c)) in
  let! _ :=
    if String.eqb direction "Forward" then advance Num.add distance angle_rad
    else if String.eqb direction "Backward" then advance Num.sub distance angle_rad
    else ret tt in
  let! c := get_cursor in
  draw (Line (cur_color c) (old_x, old_y) (cur_x c, cur_y c) 2).

(** The ten points of the star, two for each [i] of [range(5)]. *)
Definition star_angle (i : Z) : float :=
  PrimFloat.div (PrimFloat.mul (Num.float_of_Z (i * 4)) math_pi) 5.

Definition star_inner_angle (i : Z) : float :=
  PrimFloat.add (star_angle i) (PrimFloat.div (PrimFloat.mul 2 math_pi) 5).

(** [(pos[0] + size * math.cos(angle), pos[1] + size * math.sin(angle))] *)
Definition star_outer (pos : Z * Z) (size : value) (angle : float)
    : result (number * number) :=
  let* x := (let* cs := math_cos angle in
             let* s := as_number size in
             let* dx := Num.mul s (PyFloat cs) in
             Num.add (PyInt (fst pos)) dx) in
  let* y := (let* sn := math_sin angle in
             let* s := as_number size in
             let* dy := Num.mul s (PyFloat sn) in
             Num.add (PyInt (snd pos)) dy) in
  Ok (x, y).

(** [(pos[0] + size * 0.5 * math.cos(angle), pos[1] + size * 0.5 * math.sin(angle))] *)
Definition star_inner (pos : Z * Z) (size : value) (angle : float)
    : result (number * number) :=
  let* x := (let* s := as_number size in
             let* half := Num.mul s (PyFloat 0.5) in
             let* cs := math_cos angle in
             let* dx := Num.mul half (PyFloat cs) in
             Num.add (PyInt (fst pos)) dx) in
  let* y := (let* s := as_number size in
             let* half := Num.mul s (PyFloat 0.5) in
             let* sn := math_sin angle in
             let* dy := Num.mul half (PyFloat sn) in
             Num.add (PyInt (snd pos)) dy) in
  Ok (x, y).

(** The [for i in range(5)] loop. *)
Fixpoint star_points (pos : Z * Z) (size : value) (range : list Z)
    (points : list (number * number)) : result (list (number * number)) :=
  match range with
  | [] => Ok points
  | i :: range' =>
      let angle := star_angle i in
      let* outer := star_outer pos size angle in
      let points := points ++ [outer] in
      let angle := PrimFloat.add angle (PrimFloat.div (PrimFloat.mul 2 math_pi) 5) in
      let* inner := star_inner pos size angle in
      let points := points ++ [inner] in
      star_points pos size range' points
  end.

(** What the specification says of the points: the outer and the inner
    vertex of index [k], in polar form around [(px, py)]. *)
Definition outer_vertex (px py s : float) (k : Z) : number * number :=
  (PyFloat (PrimFloat.add px (PrimFloat.mul s (libm_cos (star_angle k)))),
   PyFloat (PrimFloat.add py (PrimFloat.mul s (libm_sin (star_angle k))))).

Definition inner_vertex (px py s : float) (k : Z) : number * number :=
  (PyFloat (PrimFloat.add px
              (PrimFloat.mul (PrimFloat.mul s 0.5) (libm_cos (star_inner_angle k)))),
   PyFloat (PrimFloat.add py
              (PrimFloat.mul (PrimFloat.mul s 0.5) (libm_sin (star_inner_angle k))))).

Definition draw_shape (shape : token) (size : value) (x y : option value) : M unit :=
  let! c := get_cursor in
  let! px := lift (match x with
                   | Some x => value_to_int x
                   | None => Num.to_int (cur_x c)
                   end) in
  let! py := lift (match y with
                   | Some y => value_to_int y
                   | None => Num.to_int (cur_y c)
                   end) in
  let pos := (px, py) in
  if String.eqb shape "Circle" then
    let! r := lift (value_to_int size) in
    draw (Circle (cur_color c) pos r 2)
  else if String.eqb shape "Square" then
    let! s := lift (value_to_int size) in
    draw (Rect (cur_color c) (px - s / 2, py - s / 2, s, s)%Z 2)
  else if String.eqb shape "Star" then
    let! points := lift (star_points pos size [0; 1; 2; 3; 4]%Z []) in
    draw (Polygon (cur_color c) points 2)
  else ret tt.

(** *** Statements

    Each branch of the [while] loop of [interpret] is a function of the
    index [i] of its keyword that returns the index of the next
    statement.  [interpret_body] is the recursive call [interpret(...)]
    and [fuel] bounds the iterations of a WHILE. *)

(** SET var = <expression> *)
Definition exec_set (tokens : list token) (i : nat) : M nat :=
  let! var := lift (getitem tokens (i + 1)) in
  let! eq := lift (getitem tokens (i + 2)) in
  if negb (String.eqb eq "=") then raise (Exception "Expected '=' in SET statement")
  else
    let! (expr, new_i) := lift (parse_expression tokens (i + 3) COMMAND_KEYWORDS) in
    let! v := eval expr in
    let! syms := get_symbols in
    let! _ := set_symbols (<[var := v]> syms) in
    ret new_i.

(** The loop of DEFINE that collects the parameter names. *)
Fixpoint define_params (fuel : nat) (tokens : list token) (j : nat)
    (params : list token) : result (list token * nat) :=
  match fuel with
  | O => OutOfFuel
  | S fuel' =>
      let* t := getitem tokens j in
      if negb (String.eqb t ")") then
        let params := if negb (String.eqb t ",") then params ++ [t] else params in
        define_params fuel' tokens (j + 1) params
      else Ok (params, j)
  end.

(** Fuel for a scan that moves [j] by one and stops at the latest with an
    [IndexError] at [len(tokens)]. *)
Definition scan_fuel (tokens : list token) (j : nat) : nat := S (length tokens - j).

(** DEFINE func ( param1 , param2 ) { ... } *)
Definition exec_define (tokens : list token) (i : nat) : M nat :=
  let! func_name := lift (getitem tokens (i + 1)) in
  let! open := lift (getitem tokens (i + 2)) in
  if negb (String.eqb open "(") then
    raise (Exception "Expected ( after function name in DEFINE")
  else
    let j := i + 3 in
    let! (params, j) := lift (define_params (scan_fuel tokens j) tokens j []) in
    let! brace := lift (getitem tokens (j + 1)) in
    if negb (String.eqb brace "{") then raise (Exception "Expected { to start function body")
    else
      let body_start := j + 2 in
      let! body_end := lift (find_block_end tokens body_start) in
      let func_body := slice tokens body_start (body_end - 1) in
      let! syms := get_symbols in
      let! _ := set_symbols (<[func_name := VFunc params func_body]> syms) in
      ret body_end.

(** The loop of CALL that splits the arguments at the commas and parses
    each one. *)
Fixpoint call_args (fuel : nat) (tokens : list token) (j : nat)
    (args : list expr) (arg_tokens : list token)
    : result (list expr * list token * nat) :=
  match fuel with
  | O => OutOfFuel
  | S fuel' =>
      let* t := getitem tokens j in
      if negb (String.eqb t ")") then
        if String.eqb t "," then
          match arg_tokens with
          | [] => call_args fuel' tokens (j + 1) args arg_tokens
          | _ :: _ =>
              let* e := parse_full_expression arg_tokens in
              call_args fuel' tokens (j + 1) (args ++ [e]) []
          end
        else call_args fuel' tokens (j + 1) args (arg_tokens ++ [t])
      else Ok (args, arg_tokens, j)
  end.

(** The argument expressions of the call whose "(" is at [j - 1]: the
    loop, then the last argument, and the index of the ")". *)
Definition parse_call_arguments (tokens : list token) (j : nat)
    : result (list expr * nat) :=
  let* (args, arg_tokens, j) := call_args (scan_fuel tokens j) tokens j [] [] in
  match arg_tokens with
  | [] => Ok (args, j)
  | _ :: _ =>
      let* e := parse_full_expression arg_tokens in
      Ok (args ++ [e], j)
  end.

(** [for param, arg_expr in zip(...): local_scope[param] = eval_expr(arg_expr)] *)
Fixpoint bind_arguments (syms : symtab) (pairs : list (token * expr))
    (local_scope : symtab) : result symtab :=
  match pairs with
  | [] => Ok local_scope
  | (param, arg_expr) :: pairs' =>
      let* v := eval_expr syms arg_expr in
      bind_arguments syms pairs' (<[param := v]> local_scope)
  end.

(** CALL func ( arg1 , arg2 ) *)
Definition exec_call (interpret_body : list token -> M unit)
    (tokens : list token) (i : nat) : M nat :=
  let! func_name := lift (getitem tokens (i + 1)) in
  let! open := lift (getitem tokens (i + 2)) in
  if negb (String.eqb open "(") then raise (Exception "Expected ( in function call")
  else
    let j := i + 3 in
    let! (args, j) := lift (parse_call_arguments tokens j) in
    let! syms := get_symbols in
    match syms !! func_name with
    | None => raise (Exception (String.append "Undefined function: " func_name))
    | Some (VNum _) => raise TypeError
    | Some (VFunc params body) =>
        if negb (length args =? length params) then
          raise (Exception
                   (String.append "Function "
                      (String.append func_name
                         (String.append " expects "
                            (String.append (Str.of_nat (length params))
                               (String.append " arguments, got "
                                  (Str.of_nat (length args)))))))) 
        else
          let! local_scope := lift (bind_arguments syms (zip params args) ∅) in
          let! _ := push_stack syms in
          let! _ := update_symbols local_scope in
          let! _ := interpret_body body in
          let! _ := clear_symbols in
          let! saved := pop_stack in
          let! _ := update_symbols saved in
          ret (j + 1)
    end.

(** IF <condition> { ... } *)
Definition exec_if (interpret_body : list token -> M unit)
    (tokens : list token) (i : nat) : M nat :=
  let! (cond, new_i) := lift (parse_condition tokens (i + 1)) in
  let! brace := lift (getitem tokens new_i) in
  if negb (String.eqb brace "{") then raise (Exception "Expected { after IF condition")
  else
    let block_start := new_i + 1 in
    let! block_end := lift (find_block_end tokens block_start) in
    let! syms := get_symbols in
    let! b := lift (eval_condition syms cond) in
    let! _ := if b : bool then interpret_body (slice tokens block_start (block_end - 1))
              else ret tt in
    ret block_end.

(** [while eval_condition(cond): interpret(body)] *)
Fixpoint while_loop (run_body : M unit) (fuel : nat) (cond : condition) : M unit :=
  match fuel with
  | O => lift OutOfFuel
  | S fuel' =>
      let! syms := get_symbols in
      let! b := lift (eval_condition syms cond) in
      if b : bool then
        let! _ := run_body in
        while_loop run_body fuel' cond
      else ret tt
  end.

(** WHILE <condition> { ... } *)
Definition exec_while (interpret_body : list token -> M unit) (fuel : nat)
    (tokens : list token) (i : nat) : M nat :=
  let! (cond, new_i) := lift (parse_condition tokens (i + 1)) in
  let! brace := lift (getitem tokens new_i) in
  if negb (String.eqb brace "{") then raise (Exception "Expected { after WHILE condition")
  else
    let block_start := new_i + 1 in
    let! block_end := lift (find_block_end tokens block_start) in
    let! _ := while_loop (interpret_body (slice tokens block_start (block_end - 1)))
                fuel cond in
    ret block_end.

(** MOVE <expression> Forward|Backward *)
Definition exec_move (tokens : list token) (i : nat) : M nat :=
  let! (expr, new_i) := lift (parse_expression tokens (i + 1) ["Forward"; "Backward"]) in
  let! distance := eval expr in
  let! direction := lift (getitem tokens new_i) in
  let! _ := move_cursor distance direction in
  ret (new_i + 1).

(** TURN <expression> Right|Left *)
Definition exec_turn (tokens : list token) (i : nat) : M nat :=
  let! (expr, new_i) := lift (parse_expression tokens (i + 1) ["Right"; "Left"]) in
  let! angle_val := eval expr in
  let! direction := lift (getitem tokens new_i) in
  let! c := get_cursor in
  let! _ :=
    if String.eqb direction "Right" then
      let! a := lift (let* d := as_number angle_val in Num.add (cur_angle c) d) in
      set_cursor_angle a
    else if String.eqb direction "Left" then
      let! a := lift (let* d := as_number angle_val in Num.sub (cur_angle c) d) in
      set_cursor_angle a
    else ret tt in
  ret (new_i + 1).

Definition DRAW_STOP_TOKENS : list string :=
  ["AT"; "SET"; "DEFINE"; "CALL"; "IF"; "WHILE"; "MOVE"; "TURN"; "DRAW"; "COLOR"; "}"].

(** DRAW <shape> <expression> [AT <x> , <y>] *)
Definition exec_draw (tokens : list token) (i : nat) : M nat :=
  let! shape := lift (getitem tokens (i + 1)) in
  let! (expr, new_i) := lift (parse_expression tokens (i + 2) DRAW_STOP_TOKENS) in
  let! size := eval expr in
  let i := new_i in
  if (i <? length tokens) && tok_is tokens i "AT" then
    let i := i + 1 in
    let! (x_expr, i) := lift (parse_expression tokens i [","]) in
    let! x_val := eval x_expr in
    let! comma := lift (getitem tokens i) in
    let i := if String.eqb comma "," then i + 1 else i in
    let! (y_expr, i) := lift (parse_expression tokens i COMMAND_KEYWORDS) in
    let! y_val := eval y_expr in
    let! _ := draw_shape shape size (Some x_val) (Some y_val) in
    ret i
  else
    let! _ := draw_shape shape size None None in
    ret i.

(** [random.choice(list(COLORS.values()))] *)
Definition random_choice : M rgb := fun st =>
  let values := map snd COLORS in
  let k := randbelow (choices st) (length values) mod length values in
  (Ok (nth k values white),
   {| symbols := symbols st; call_stack := call_stack st; cursor := cursor st;
      drawn := drawn st; choices := S (choices st) |}).

(** COLOR <color> *)
Definition exec_color (tokens : list token) (i : nat) : M nat :=
  let! color := lift (getitem tokens (i + 1)) in
  let! _ :=
    if String.eqb color "Random" then
      let! col := random_choice in set_cursor_color col
    else set_cursor_color (COLORS_get color white) in
  ret (i + 2).

(** The dispatch on [tokens[i]]. *)
Definition exec_statement (interpret_body : list token -> M unit) (fuel : nat)
    (tokens : list token) (i : nat) : M nat :=
  let! token := lift (getitem tokens i) in
  if String.eqb token "SET" then exec_set tokens i
  else if String.eqb token "DEFINE" then exec_define tokens i
  else if String.eqb token "CALL" then exec_call interpret_body tokens i
  else if String.eqb token "IF" then exec_if interpret_body tokens i
  else if String.eqb token "WHILE" then exec_while interpret_body fuel tokens i
  else if String.eqb token "MOVE" then exec_move tokens i
  else if String.eqb token "TURN" then exec_turn tokens i
  else if String.eqb token "DRAW" then exec_draw tokens i
  else if String.eqb token "COLOR" then exec_color tokens i
  else ret (i + 1).

(** [while i < len(tokens)] of [interpret]. *)
Fixpoint statement_loop (step : nat -> M nat) (fuel : nat) (len : nat) (i : nat)
    : M unit :=
  if i <? len then
    match fuel with
    | O => lift OutOfFuel
    | S fuel' =>
        let! i := step i in
        statement_loop step fuel' len i
    end
  else ret tt.

Fixpoint interpret (fuel : nat) (tokens : list token) {struct fuel} : M unit :=
  match fuel with
  | O => lift OutOfFuel
  | S fuel' =>
      statement_loop (exec_statement (interpret fuel') fuel' tokens) fuel'
        (length tokens) 0
  end.

(** The main loop's [interpret(tokenize(code))] on a fresh state. *)
Definition run (fuel : nat) (code : string) : result unit * state :=
  match tokenize code with
  | Ok tokens => interpret fuel tokens initial_state
  | Raise e => (Raise e, initial_state)
  | OutOfFuel => (OutOfFuel, initial_state)
  end.

End Interpreter.

(** ** Definitions used to state the properties *)

(** Tokenize, parse and evaluate a whole expression in the empty
    environment. *)
Definition eval_source (code : string) : result value :=
  let* tokens := tokenize code in
  let* e := parse_full_expression tokens in
  eval_expr ∅ e.

Definition token_of_binop (op : binop) : token :=
  match op with Add => "+" | Sub => "-" | Mul => "*" | Div => "/" end.

(** The two precedence levels of the grammar. *)
Definition precedence (op : binop) : nat :=
  match op with Add | Sub => 1 | Mul | Div => 2 end.

(** *** Block matching *)

(** The change of the nesting depth at a token. *)
Definition brace_delta (t : token) : Z :=
  if String.eqb t "{" then 1%Z else if String.eqb t "}" then (-1)%Z else 0%Z.

(** Opening minus closing braces among [l]. *)
Fixpoint balance (l : list token) : Z :=
  match l with
  | [] => 0%Z
  | t :: l' => (brace_delta t + balance l')%Z
  end.

(** The nesting depth after the tokens [start], ..., [j - 1], the brace
    before [start] being open. *)
Definition depth_at (tokens : list token) (start j : nat) : Z :=
  (1 + balance (slice tokens start j))%Z.

(** [tokens[k]] is the "}" that matches the brace open at [start]: the depth
    is positive up to [k] and zero after it. *)
Definition closes_at (tokens : list token) (start k : nat) : Prop :=
  start <= k
  /\ tokens !! k = Some "}"
  /\ (forall j, start <= j <= k -> (0 < depth_at tokens start j)%Z)
  /\ depth_at tokens start (k + 1) = 0%Z.

(** The scan of [find_block_end] on the tokens that are left. *)
Fixpoint scan_block (rest : list token) (depth : Z) (i : nat) : nat :=
  match rest with
  | [] => i
  | t :: rest' =>
      if (0 <? depth)%Z then scan_block rest' (depth + brace_delta t)%Z (i + 1)
      else i
  end.

(** *** Tokens *)

(** The thirteen characters [tokenize] sets apart. *)
Definition is_special (c : ascii) : bool :=
  existsb (Ascii.eqb c) (block_symbols ++ operators).

(** One pass that puts a space on each side of every special character. *)
Fixpoint surround (s : string) : string :=
  match s with
  | EmptyString => EmptyString
  | String c s' =>
      if is_special c then String " " (String c (String " " (surround s')))
      else String c (surround s')
  end.

(** Join each "!" that is directly followed by "=", from left to right. *)
Fixpoint merge_not_equal (l : list token) : list token :=
  match l with
  | [] => []
  | t :: l' =>
      match l' with
      | u :: l'' =>
          if String.eqb t "!" && String.eqb u "=" then "!=" :: merge_not_equal l''
          else t :: merge_not_equal l'
      | [] => [t]
      end
  end.

(** The tokenizer as the specification words it. *)
Definition tokenize_spec (code : string) : list token :=
  merge_not_equal (Str.split (surround code)).

(** A token of the output: not empty, free of white space, and either
    "!=", a special character on its own, or free of special characters. *)
Definition token_shape (t : token) : Prop :=
  t <> EmptyString
  /\ Str.forallb (fun c => negb (Str.isspace c)) t = true
  /\ (t = "!="
      \/ (exists c, is_special c = true /\ t = String c EmptyString)
      \/ Str.forallb (fun c => negb (is_special c)) t = true).

(** The words [Str.split] cuts from a string in which every special
    character stands between spaces. *)
Definition word_shape (t : token) : Prop :=
  Str.is_empty t = false
  /\ Str.forallb (fun c => negb (Str.isspace c)) t = true
  /\ ((exists c, is_special c = true /\ t = String c EmptyString)
      \/ Str.forallb (fun c => negb (is_special c)) t = true).

(** The thirteen replacements of [tokenize], in its order. *)
Definition separate (code : string) : string :=
  let code := fold_left (fun code ch => Str.replace code ch (pad ch)) block_symbols code in
  fold_left (fun code op => Str.replace code op (pad op)) operators code.

(** *** Parsing without running out of fuel *)

(** A parsing function returns from the index [j] and, when it succeeds,
    has moved past it. *)
Definition advances (p : nat -> parsed) (j : nat) : Prop :=
  p j <> OutOfFuel /\ (forall e j', p j = Ok (e, j') -> j < j').

(** *** Statements *)

(** A computation that, when it returns, leaves the call stack as it found
    it. *)
Definition keeps_stack {A : Type} (m : M A) : Prop :=
  forall st a st', m st = (Ok a, st') -> call_stack st' = call_stack st.

(** [m'] does whatever [m] does when [m] has fuel enough to finish. *)
Definition extends {A : Type} (m m' : M A) : Prop :=
  forall st r st', m st = (r, st') -> r <> OutOfFuel -> m' st = (r, st').

(** [iterates run_body cond n st st']: from [st] the condition holds [n]
    times in a row, the body returning each time, and fails in [st'],
    which the [n]-th run of the body has left. *)
Inductive iterates (run_body : M unit) (cond : condition) : nat -> state -> state -> Prop :=
  | iterates_exit (st : state) :
      eval_condition (symbols st) cond = Ok false ->
      iterates run_body cond 0 st st
  | iterates_again (n : nat) (st st1 st' : state) :
      eval_condition (symbols st) cond = Ok true ->
      run_body st = (Ok tt, st1) ->
      iterates run_body cond n st1 st' ->
      iterates run_body cond (S n) st st'.

(** The counting program of the specification's test, and the state in
    which its variable [i] holds [v] and nothing else has changed. *)
Definition counting_loop : string := "SET i = 0 WHILE i < 5 { SET i = i + 1 }".

Definition counting_state (v : float) : state :=
  {| symbols := {[ "i" := VNum (PyFloat v) ]};
     call_stack := [];
     cursor := cursor initial_state;
     drawn := [];
     choices := 0 |}.

(** The state [st] with its environment replaced. *)
Definition with_symbols (st : state) (m : symtab) : state :=
  {| symbols := m; call_stack := call_stack st; cursor := cursor st;
     drawn := drawn st; choices := choices st |}.

(** The specification's test of a call, the state it ends in, and a call
    whose body sets its own parameter. *)
Definition shadowing_call : string :=
  "SET x = 1 DEFINE f ( x ) { SET x = 99 } CALL f ( 5 )".

Definition shadowing_call_tokens : list token :=
  ["SET"; "x"; "="; "1"; "DEFINE"; "f"; "("; "x"; ")"; "{";
   "SET"; "x"; "="; "99"; "}"; "CALL"; "f"; "("; "5"; ")"].

Definition after_shadowing_call : state :=
  with_symbols initial_state
    (<["x" := VNum (PyFloat 1)]>
       (<["f" := VFunc ["x"] ["SET"; "x"; "="; "99"]]> ∅)).

Definition parameter_call : string := "DEFINE g ( p ) { SET p = 7 } CALL g ( 5 )".

Definition after_parameter_call : state :=
  with_symbols initial_state (<["g" := VFunc ["p"] ["SET"; "p"; "="; "7"]]> ∅).

(** A call with one argument of a function of two parameters, and the
    state at the call. *)
Definition short_call : list token :=
  ["DEFINE"; "g"; "("; "a"; ","; "b"; ")"; "{"; "MOVE"; "10"; "Forward"; "}";
   "CALL"; "g"; "("; "1"; ")"].

Definition before_short_call : state :=
  with_symbols initial_state (<["g" := VFunc ["a"; "b"] ["MOVE"; "10"; "Forward"]]> ∅).

(** An IF whose block is not closed. *)
Definition unterminated_if : list token :=
  ["IF"; "1"; ">"; "0"; "{"; "SET"; "x"; "="; "7"; "MOVE"].

(** ** Definitions used to state further properties *)

(** What a parsing function may do from a token list: return an index
    between [lo] and the length of the list, or raise the exception of a
    syntax error or the [ValueError] of [float]; nothing else. *)
Definition parse_outcome {A : Type} (tokens : list token) (lo : nat)
    (r : result (A * nat)) : Prop :=
  match r with
  | Ok (_, i') => lo <= i' <= length tokens
  | Raise (Exception _) => True
  | Raise ValueError => True
  | _ => False
  end.

(** The nine keywords [interpret] dispatches on. *)
Definition STATEMENT_KEYWORDS : list string :=
  ["SET"; "DEFINE"; "CALL"; "IF"; "WHILE"; "MOVE"; "TURN"; "DRAW"; "COLOR"].

(** A token list whose braces are matched among themselves. *)
Definition well_nested (body : list token) : Prop :=
  (forall j, (0 <= balance (take j body))%Z) /\ balance body = 0%Z.

(** A value arithmetic is always defined on: a float, or the integer 0
    that an unbound name and a division by zero give. *)
Definition plain (v : value) : Prop :=
  match v with
  | VNum (PyFloat _) => True
  | VNum (PyInt z) => z = 0%Z
  | VFunc _ _ => False
  end.

(** All characters below 128. *)
Definition is_ascii (s : string) : bool :=
  Str.forallb (fun c => (Str.ord c <? 128)%N) s.

(** The result is the exception of a division by zero. *)
Definition is_zero_division {A : Type} (r : result A) : bool :=
  match r with
  | Raise ZeroDivisionError => true
  | _ => false
  end.

(** A computation that in no state ends on a division by zero. *)
Definition never_zero_division {A : Type} (m : M A) : Prop :=
  forall st, is_zero_division (fst (m st)) = false.

(** ** The main loop: the handling of events *)

(** [str.isprintable] on the code points below 256: all but the control
    characters, the no-break space and the soft hyphen. *)
Definition isprintable_char (c : ascii) : bool :=
  let n := Str.ord c in
  negb ((n <=? 31) || ((127 <=? n) && (n <=? 160)) || (n =? 173))%N.

Definition isprintable (s : string) : bool := Str.forallb isprintable_char s.

(** [s[:-1]] *)
Fixpoint drop_last (s : string) : string :=
  match s with
  | EmptyString => EmptyString
  | String c EmptyString => EmptyString
  | String c s' => String c (drop_last s')
  end.

Definition SAMPLE_CODE : string := "
SET speed = 30
DEFINE spiral ( n ) {
  IF n > 0 {
    MOVE speed * n Forward
    TURN 60 Right
    CALL spiral ( n - 1 )
  }
}
COLOR Random
SET layers = 3
WHILE layers > 0 {
  CALL spiral ( 5 )
  MOVE 20 Backward
  SET layers = layers - 1
}
DRAW Star 15 AT 400 , 300
".

Inductive ui_state : Type := STATE_SYNTAX | STATE_INPUT | STATE_RUNNING.

(** The key constants of pygame the loop compares [event.key] with. *)
Definition K_BACKSPACE : Z := 8.
Definition K_TAB : Z := 9.
Definition K_RETURN : Z := 13.
Definition K_SPACE : Z := 32.
Definition K_r : Z := 114.

(** What [pygame.event.get()] yields, as far as the loop looks at it. *)
Inductive event : Type :=
  | QUIT
  | KEYDOWN (key : Z) (unicode : string)
  | OtherEvent.

(** The variables of the main loop; [interp] holds the interpreter's
    [symbols], [call_stack] and [cursor], and the primitives drawn since the
    last [screen.fill] of the event handling. *)
Record ui : Type := UI {
  running_main : bool;
  current_state : ui_state;
  user_input : string;
  use_sample : bool;
  interp : state
}.

Definition initial_ui : ui :=
  {| running_main := true; current_state := STATE_SYNTAX; user_input := EmptyString;
     use_sample := false; interp := initial_state |}.

(** [screen.fill((20, 20, 20))] *)
Definition screen_fill (st : state) : state :=
  {| symbols := symbols st; call_stack := call_stack st; cursor := cursor st;
     drawn := []; choices := choices st |}.

(** [SAMPLE_CODE if use_sample else user_input] *)
Definition code_to_run (u : ui) : string :=
  if use_sample u then SAMPLE_CODE else user_input u.

(** The restart on R: [cursor = {...}], [symbols.clear()],
    [call_stack.clear()]. *)
Definition restart (st : state) : state :=
  {| symbols := ∅; call_stack := []; cursor := cursor initial_state;
     drawn := drawn st; choices := choices st |}.

Section MainLoop.

Variable libm_cos : float -> float.
Variable libm_sin : float -> float.
Variable randbelow : nat -> nat -> nat.

(** Enter in the editor.  An exception of [tokenize] or [interpret] is not
    caught: it ends the program. *)
Definition key_return (fuel : nat) (u : ui) : result ui :=
  let code := code_to_run u in
  let st := screen_fill (interp u) in
  let* tokens := tokenize code in
  match interpret libm_cos libm_sin randbelow fuel tokens st with
  | (Ok _, st') =>
      Ok {| running_main := running_main u; current_state := STATE_RUNNING;
            user_input := user_input u; use_sample := use_sample u; interp := st' |}
  | (Raise e, _) => Raise e
  | (OutOfFuel, _) => OutOfFuel
  end.

(** The body of [for event in pygame.event.get()]. *)
Definition handle_event (fuel : nat) (u : ui) (e : event) : result ui :=
  match e with
  | QUIT =>
      Ok {| running_main := false; current_state := current_state u;
            user_input := user_input u; use_sample := use_sample u; interp := interp u |}
  | KEYDOWN key unicode =>
      match current_state u with
      | STATE_INPUT =>
          if (key =? K_RETURN)%Z then key_return fuel u
          else if (key =? K_BACKSPACE)%Z then
            Ok {| running_main := running_main u; current_state := current_state u;
                  user_input := drop_last (user_input u); use_sample := use_sample u;
                  interp := interp u |}
          else if (key =? K_TAB)%Z then
            Ok {| running_main := running_main u; current_state := current_state u;
                  user_input := SAMPLE_CODE; use_sample := true; interp := interp u |}
          else if isprintable unicode then
            Ok {| running_main := running_main u; current_state := current_state u;
                  user_input := String.append (user_input u) unicode;
                  use_sample := use_sample u; interp := interp u |}
          else Ok u
      | STATE_SYNTAX =>
          if (key =? K_SPACE)%Z then
            Ok {| running_main := running_main u; current_state := STATE_INPUT;
                  user_input := user_input u; use_sample := use_sample u;
                  interp := interp u |}
          else Ok u
      | STATE_RUNNING =>
          if (key =? K_r)%Z then
            Ok {| running_main := running_main u; current_state := STATE_SYNTAX;
                  user_input := EmptyString; use_sample := false;
                  interp := restart (interp u) |}
          else Ok u
      end
  | OtherEvent => Ok u
  end.

(** The events of one frame, in order; a QUIT among them does not stop the
    handling of those after it. *)
Fixpoint handle_events (fuel : nat) (events : list event) (u : ui) : result ui :=
  match events with
  | [] => Ok u
  | e :: events' =>
      let* u' := handle_event fuel u e in
      handle_events fuel events' u'
  end.

(** [while running_main] over the frames given, each with the events it
    finds.  The rendering that ends a frame writes the screen and
    [cursor_blink] only and is left out. *)
Fixpoint main_loop (fuel : nat) (frames : list (list event)) (u : ui) : result ui :=
  if running_main u then
    match frames with
    | [] => Ok u
    | events :: frames' =>
        let* u' := handle_events fuel events u in
        main_loop fuel frames' u'
    end
  else Ok u.

End MainLoop.

(** The interpreter's variables are as at the start of the program. *)
Definition fresh (st : state) : Prop :=
  symbols st = ∅ /\ call_stack st = [] /\ cursor st = cursor initial_state.

(** Outside the running mode the interpreter's variables are fresh. *)
Definition ready (u : ui) : Prop :=
  current_state u = STATE_RUNNING \/ fresh (interp u).

(** The event is Enter pressed. *)
Definition is_return (e : event) : bool :=
  match e with
  | KEYDOWN key _ => (key =? K_RETURN)%Z
  | _ => false
  end.

(** The key events that type [s]: each character with its key, which for
    a capital letter is that of the small one. *)
Fixpoint typing (s : string) : list event :=
  match s with
  | EmptyString => []
  | String c s' =>
      let n := Z.of_N (Str.ord c) in
      KEYDOWN (if ((65 <=? n) && (n <=? 90))%Z then (n + 32)%Z else n)
        (String c EmptyString)
      :: typing s'
  end.

(** *** The grammar of expressions *)

Inductive level : Type := Expression | Term | Factor.

(** [renders lvl e toks]: the tokens [toks] write the tree [e] at the level
    [lvl] of the grammar

      expression ::= term | expression ("+" | "-") term
      term       ::= factor | term ("*" | "/") factor
      factor     ::= number | name | "(" expression ")"

    where a number is a token that passes the test of [parse_factor] and
    that [float] converts, and a name is a token of letters. *)
Inductive renders : level -> expr -> list token -> Prop :=
  | renders_number (t : token) (f : float) :
      Str.isdigit (Str.remove_first t ".") = true ->
      Num.float_of_literal t = Ok f ->
      renders Factor (Lit f) [t]
  | renders_name (x : token) :
      Str.isalpha x = true ->
      renders Factor (Name x) [x]
  | renders_paren (e : expr) (toks : list token) :
      renders Expression e toks ->
      renders Factor e ("(" :: toks ++ [")"])
  | renders_factor (e : expr) (toks : list token) :
      renders Factor e toks ->
      renders Term e toks
  | renders_product (op : binop) (l r : expr) (tl tr : list token) :
      precedence op = 2 ->
      renders Term l tl ->
      renders Factor r tr ->
      renders Term (BinOp op l r) (tl ++ token_of_binop op :: tr)
  | renders_term (e : expr) (toks : list token) :
      renders Term e toks ->
      renders Expression e toks
  | renders_sum (op : binop) (l r : expr) (tl tr : list token) :
      precedence op = 1 ->
      renders Expression l tl ->
      renders Term r tr ->
      renders Expression (BinOp op l r) (tl ++ token_of_binop op :: tr).

Definition is_operator (t : token) : bool := mem t ["+"; "-"; "*"; "/"].

(** What may follow an expression: nothing, or a token that is not an
    operator. *)
Definition ends_expression (rest : list token) : bool :=
  match rest with
  | [] => true
  | t :: _ => negb (is_operator t)
  end.

(** No token of [toks] but ")" is a stop token. *)
Definition clear_of (stop : list string) (toks : list token) : Prop :=
  Forall (fun t => t <> ")" -> mem t stop = false) toks.

(** What [renders lvl e toks] means for the parsing function of the level,
    at an index [i] of [tokens] where [toks] starts: [parse_factor] returns
    [e] and the index after [toks]; [parse_term] and [parse_expression]
    enter their loop there with [e]. *)
Definition parses (lvl : level) (e : expr) (toks : list token) : Prop :=
  forall (tokens : list token) (i : nat) (rest : list token) (stop : list string)
         (fuel : nat),
    drop i tokens = toks ++ rest -> clear_of stop toks -> length tokens - i <= fuel ->
    let factor := fun k => parse_factor (parse_expression_fuel fuel) tokens k stop in
    let term := fun k => parse_term (parse_expression_fuel fuel) fuel tokens k stop in
    match lvl with
    | Factor => factor i = Ok (e, i + length toks)
    | Term =>
        forall K,
          (forall f, length tokens - (i + length toks) <= f ->
                     operator_loop factor term_ops f tokens stop e (i + length toks) = K) ->
          term i = K
    | Expression =>
        forall K,
          operator_at term_ops tokens stop (i + length toks) = None ->
          (forall f, length tokens - (i + length toks) <= f ->
                     operator_loop term expression_ops f tokens stop e (i + length toks)
                     = K) ->
          parse_expression_fuel (S fuel) tokens i stop = K
    end.

(** *** Tokens written out again *)

(** The tokens with each "!=" cut into "!" and "=". *)
Definition split_not_equal (l : list token) : list token :=
  flat_map (fun t => if String.eqb t "!=" then ["!"; "="] else [t]) l.

(** The list has no "!" directly before an "=". *)
Definition joined (l : list token) : Prop :=
  forall i, l !! i = Some "!" -> l !! (i + 1) <> Some "=".

(** The end of a text or a space. *)
Definition at_word_end (s : string) : Prop :=
  s = EmptyString \/ exists s', s = String " " s'.

(** *** Programs that do not draw *)

(** The two keywords whose statements call [pygame.draw]. *)
Definition draws (t : token) : bool := String.eqb t "MOVE" || String.eqb t "DRAW".

Definition no_drawing (tokens : list token) : Prop :=
  Forall (fun t => draws t = false) tokens.

(** A value, a symbol table and a state whose function bodies hold neither
    keyword. *)
Definition quiet_value (v : value) : Prop :=
  match v with
  | VNum _ => True
  | VFunc _ body => no_drawing body
  end.

Definition quiet_symbols (m : symtab) : Prop := map_Forall (fun _ v => quiet_value v) m.

Definition quiet_state (st : state) : Prop :=
  quiet_symbols (symbols st) /\ Forall quiet_symbols (call_stack st).

(** From a quiet state the computation ends, however it ends, in a quiet
    state with the drawing as it was; what it returns satisfies [V]. *)
Definition draws_nothing {A : Type} (V : A -> Prop) (m : M A) : Prop :=
  forall st r st',
    quiet_state st -> m st = (r, st') ->
    quiet_state st' /\ drawn st' = drawn st /\ (forall a, r = Ok a -> V a).

(** *** Programs without loops *)

(** The result is the model's running beyond its fuel. *)
Definition is_out_of_fuel {A : Type} (r : result A) : bool :=
  match r with
  | OutOfFuel => true
  | _ => false
  end.

(** A computation that returns or raises from every state. *)
Definition halts {A : Type} (m : M A) : Prop :=
  forall st, is_out_of_fuel (fst (m st)) = false.

(** The two keywords that run tokens again. *)
Definition repeats (t : token) : bool := String.eqb t "WHILE" || String.eqb t "CALL".

Definition loop_free (tokens : list token) : Prop :=
  Forall (fun t => repeats t = false) tokens.

(** *** The helper [parse_expression_until]

    The source defines it and does not call it. *)

(** [while end < len(tokens) and tokens[end] not in stop_tokens: end += 1] *)
Fixpoint parse_expression_until_loop (fuel : nat) (tokens : list token)
    (stop_tokens : list string) (end_ : nat) : result nat :=
  if end_ <? length tokens then
    let* t := getitem tokens end_ in
    if negb (mem t stop_tokens) then
      match fuel with
      | O => OutOfFuel
      | S fuel' => parse_expression_until_loop fuel' tokens stop_tokens (end_ + 1)
      end
    else Ok end_
  else Ok end_.

Definition parse_expression_until (tokens : list token) (start : nat)
    (stop_tokens : list string) : parsed :=
  let* end_ :=
    parse_expression_until_loop (length tokens - start) tokens stop_tokens start in
  let* expr := parse_full_expression (slice tokens start end_) in
  Ok (expr, end_).

(** What ends the scan: the end of the tokens or a stop token. *)
Definition stops_at (stop : list string) (rest : list token) : bool :=
  match rest with
  | [] => true
  | t :: _ => mem t stop
  end.

(** *** Division and chains of operators *)

(** The value is the dictionary of a function, not a number. *)
Definition is_function (v : value) : bool :=
  match v with
  | VFunc _ _ => true
  | VNum _ => false
  end.

(** An operand of a chain with the operator written before it: the
    operator, the tree of the operand and the tokens that write it. *)
Definition link : Type := binop * expr * list token.

Definition link_tokens (x : link) : list token :=
  token_of_binop (fst (fst x)) :: snd x.

(** The first operand followed by the links. *)
Definition chain_tokens (first : list token) (rest : list link) : list token :=
  first ++ flat_map link_tokens rest.

(** The sum read so far, with the operator that follows it, closed by the
    term being read. *)
Definition close_sum (sum : option (expr * binop)) (term : expr) : expr :=
  match sum with
  | None => term
  | Some (s, op) => BinOp op s term
  end.

(** The tree of a chain read from the left: "*" and "/" take the term
    being read as their left operand, "+" and "-" close it into the sum
    and start a new term. *)
Fixpoint chain_tree (sum : option (expr * binop)) (term : expr) (rest : list link)
    : expr :=
  match rest with
  | [] => close_sum sum term
  | x :: rest' =>
      let op := fst (fst x) in
      let e := snd (fst x) in
      if precedence op =? 2 then chain_tree sum (BinOp op term e) rest'
      else chain_tree (Some (close_sum sum term, op)) e rest'
  end.

(** The tokens that write the sum read so far and its operator. *)
Definition sum_written (sum : option (expr * binop)) (ts : list token) : Prop :=
  match sum with
  | None => ts = []
  | Some (s, op) =>
      precedence op = 1
      /\ exists ts', renders Expression s ts' /\ ts = ts' ++ [token_of_binop op]
  end.

(** * Properties *)

(** ** Evaluator *)

(** C2, as amended: a name in expression position evaluates to whatever the
    environment binds it to, a number or a function definition alike, and
    to the integer 0 only when the environment does not bind it; the
    lookup itself never raises. *)
Theorem eval_expr_name_lookup (syms : symtab) (x : string) :
  eval_expr syms (Name x) = Ok (default (VNum (PyInt 0)) (syms !! x)).
Proof. simpl. destruct (syms !! x); reflexivity. Qed.

(** C2 as stated fails: a name bound to a function definition evaluates to
    that definition, not to 0, and arithmetic on it is a [TypeError]. *)
Lemma eval_expr_function_name_not_zero :
  let syms : symtab := {[ "f" := VFunc ["n"] ["TURN"; "n"; "Right"] ]} in
  eval_expr syms (Name "f") = Ok (VFunc ["n"] ["TURN"; "n"; "Right"])
  /\ eval_expr syms (Name "f") <> Ok (VNum (PyInt 0))
  /\ eval_expr syms (BinOp Add (Name "f") (Lit 1)) = Raise TypeError.
Proof. repeat split; try reflexivity. vm_compute. discriminate. Qed.

(** ** Block matcher *)

Lemma lookup_drop_cons {A : Type} (l : list A) (i : nat) (x : A) :
  l !! i = Some x -> drop i l = x :: drop (S i) l.
Proof.
  revert i. induction l as [|y l IH]; intros [|i] H; simpl in *; try discriminate.
  - injection H as ->. rewrite drop_0. reflexivity.
  - apply IH. exact H.
Qed.

Lemma find_block_end_loop_scan (fuel : nat) (tokens : list token) (depth : Z) (i : nat) :
  length tokens - i <= fuel ->
  find_block_end_loop fuel tokens depth i = Ok (scan_block (drop i tokens) depth i).
Proof.
  revert depth i. induction fuel as [|fuel IH]; intros depth i Hfuel.
  - assert (Hlen : length tokens <= i) by lia.
    simpl. replace (i <? length tokens) with false
      by (symmetry; apply Nat.ltb_ge; exact Hlen).
    rewrite drop_ge by exact Hlen. reflexivity.
  - simpl. destruct (i <? length tokens) eqn:Hi.
    + apply Nat.ltb_lt in Hi.
      destruct (lookup_lt_is_Some_2 tokens i Hi) as [t Ht].
      rewrite (lookup_drop_cons _ _ _ Ht). simpl.
      destruct (0 <? depth)%Z eqn:Hd; simpl; [|reflexivity].
      unfold getitem. rewrite Ht. simpl.
      rewrite IH by lia. replace (S i) with (i + 1) by lia.
      unfold brace_delta.
      destruct (String.eqb t "{"); [reflexivity|].
      destruct (String.eqb t "}"); [reflexivity|].
      rewrite Z.add_0_r. reflexivity.
    + apply Nat.ltb_ge in Hi. simpl. rewrite drop_ge by exact Hi. reflexivity.
Qed.

Lemma find_block_end_scan (tokens : list token) (start : nat) :
  find_block_end tokens start = Ok (scan_block (drop start tokens) 1 start).
Proof. apply find_block_end_loop_scan. lia. Qed.

Lemma brace_delta_cases (t : token) :
  (t = "{" /\ brace_delta t = 1%Z) \/ (t = "}" /\ brace_delta t = (-1)%Z)
  \/ brace_delta t = 0%Z.
Proof.
  unfold brace_delta.
  destruct (String.eqb_spec t "{") as [->|_]; [left; split; reflexivity|].
  destruct (String.eqb_spec t "}") as [->|_]; [right; left; split; reflexivity|].
  right; right; reflexivity.
Qed.

(** The scan stops just after the first token at which the depth reaches
    zero, or at the end when the depth stays positive. *)
Lemma scan_block_cases (rest : list token) (depth : Z) (i : nat) :
  (0 < depth)%Z ->
  (exists k,
      rest !! k = Some "}"
      /\ (forall j, j <= k -> (0 < depth + balance (take j rest))%Z)
      /\ (depth + balance (take (S k) rest) = 0)%Z
      /\ scan_block rest depth i = i + k + 1)
  \/ ((forall j, (0 < depth + balance (take j rest))%Z)
      /\ scan_block rest depth i = i + length rest).
Proof.
  revert depth i. induction rest as [|t rest IH]; intros depth i Hd.
  - right. split; [|simpl; lia]. intros j. rewrite take_nil. simpl. lia.
  - simpl. replace (0 <? depth)%Z with true by (symmetry; apply Z.ltb_lt; exact Hd).
    destruct (Z.eq_dec (depth + brace_delta t)%Z 0%Z) as [Hz|Hnz].
    + left. exists 0.
      assert (Ht : t = "}").
      { destruct (brace_delta_cases t) as [[_ H]|[[H _]|H]]; [lia|exact H|lia]. }
      split; [simpl; rewrite Ht; reflexivity|].
      split; [intros j Hj; replace j with 0 by lia; simpl; lia|].
      split; [simpl; rewrite ?take_0; simpl; lia|].
      rewrite Hz. destruct rest; simpl; lia.
    + assert (Hd' : (0 < depth + brace_delta t)%Z).
      { destruct (brace_delta_cases t) as [[_ H]|[[_ H]|H]]; lia. }
      destruct (IH (depth + brace_delta t)%Z (i + 1) Hd')
        as [(k & Hk & Hpos & Hzero & Hscan)|[Hpos Hscan]].
      * left. exists (S k).
        split; [exact Hk|].
        split.
        { intros [|j] Hj; simpl; [lia|]. specialize (Hpos j). lia. }
        split; [simpl in *; lia|lia].
      * right. split; [|simpl; lia].
        intros [|j]; simpl; [lia|]. specialize (Hpos j). lia.
Qed.

Lemma slice_from_drop (tokens : list token) (start j : nat) :
  slice tokens start j = take (j - start) (drop start tokens).
Proof. reflexivity. Qed.

Lemma find_block_end_total (tokens : list token) (start : nat) :
  exists e, find_block_end tokens start = Ok e.
Proof. eexists. apply find_block_end_scan. Qed.

Lemma find_block_end_matched (tokens : list token) (start k : nat) :
  closes_at tokens start k -> find_block_end tokens start = Ok (k + 1).
Proof.
  intros (Hle & Hk & Hpos & Hzero).
  rewrite find_block_end_scan. f_equal.
  unfold depth_at in *. setoid_rewrite slice_from_drop in Hpos.
  rewrite slice_from_drop in Hzero.
  destruct (scan_block_cases (drop start tokens) 1 start ltac:(lia))
    as [(k' & Hk' & Hpos' & Hzero' & ->)|[Hpos' _]].
  - destruct (Nat.lt_trichotomy (start + k') k) as [Hlt|[Heq|Hgt]]; [|lia|].
    + specialize (Hpos (start + k' + 1) ltac:(lia)).
      replace (start + k' + 1 - start) with (S k') in Hpos by lia. lia.
    + specialize (Hpos' (k + 1 - start) ltac:(lia)). lia.
  - specialize (Hpos' (k + 1 - start)). lia.
Qed.

Lemma find_block_end_unmatched (tokens : list token) (start : nat) :
  (forall k, ~ closes_at tokens start k) ->
  find_block_end tokens start = Ok (Nat.max start (length tokens)).
Proof.
  intros Hno. rewrite find_block_end_scan. f_equal.
  destruct (scan_block_cases (drop start tokens) 1 start ltac:(lia))
    as [(k & Hk & Hpos & Hzero & _)|[_ ->]].
  - exfalso. apply (Hno (start + k)). unfold closes_at, depth_at.
    rewrite lookup_drop in Hk.
    split; [lia|]. split; [exact Hk|]. split.
    + intros j Hj. rewrite slice_from_drop. apply Hpos. lia.
    + rewrite slice_from_drop. replace (start + k + 1 - start) with (S k) by lia.
      exact Hzero.
  - rewrite length_drop. lia.
Qed.

(** The body the callers take when no brace matches: everything after
    [start] but the last token. *)
Lemma slice_unmatched_body (tokens : list token) (start : nat) :
  slice tokens start (Nat.max start (length tokens) - 1)
  = removelast (drop start tokens).
Proof.
  unfold slice.
  assert (H : forall l : list token, take (length l - 1) l = removelast l).
  { induction l as [|x [|y l] IH]; simpl in *; try reflexivity.
    f_equal. rewrite <- IH. rewrite Nat.sub_0_r. reflexivity. }
  rewrite <- H. rewrite length_drop.
  destruct (Nat.le_gt_cases (length tokens) start) as [Hge|Hlt].
  - rewrite drop_ge by exact Hge. rewrite !take_nil. reflexivity.
  - f_equal. lia.
Qed.

(** ** Tokenizer *)

Lemma append_cons (c : ascii) (a b : string) :
  String.append (String c a) b = String c (String.append a b).
Proof. reflexivity. Qed.

Lemma append_assoc (a b c : string) :
  String.append (String.append a b) c = String.append a (String.append b c).
Proof.
  induction a as [|x a IH]; [reflexivity|]. rewrite !append_cons, IH. reflexivity.
Qed.

Lemma replace_append (s1 s2 : string) (old : ascii) (new : string) :
  Str.replace (String.append s1 s2) old new
  = String.append (Str.replace s1 old new) (Str.replace s2 old new).
Proof.
  induction s1 as [|c s1 IH]; [reflexivity|].
  rewrite append_cons. simpl.
  destruct (Ascii.eqb c old); rewrite IH; [|reflexivity].
  rewrite append_assoc. reflexivity.
Qed.

Lemma separate_append (s1 s2 : string) :
  separate (String.append s1 s2) = String.append (separate s1) (separate s2).
Proof. unfold separate. simpl. rewrite !replace_append. reflexivity. Qed.

Lemma separate_char (c : ascii) :
  separate (String c EmptyString) = surround (String c EmptyString).
Proof. destruct c as [[] [] [] [] [] [] [] []]; reflexivity. Qed.

Lemma separate_surround (code : string) : separate code = surround code.
Proof.
  induction code as [|c code IH]; [reflexivity|].
  change (String c code) with (String.append (String c EmptyString) code).
  rewrite separate_append, separate_char, IH. simpl.
  destruct (is_special c); reflexivity.
Qed.

Lemma special_not_space (c : ascii) : is_special c = true -> Str.isspace c = false.
Proof. destruct c as [[] [] [] [] [] [] [] []]; simpl; intros H; try discriminate; reflexivity. Qed.

Lemma forallb_append (p : ascii -> bool) (a b : string) :
  Str.forallb p (String.append a b) = Str.forallb p a && Str.forallb p b.
Proof.
  induction a as [|x a IH]; [reflexivity|].
  rewrite append_cons. simpl. rewrite IH, andb_assoc. reflexivity.
Qed.

Lemma split_from_surround (s word : string) :
  Str.forallb (fun c => negb (Str.isspace c)) word = true ->
  Str.forallb (fun c => negb (is_special c)) word = true ->
  Forall word_shape (Str.split_from (surround s) word).
Proof.
  revert word. induction s as [|c s IH]; intros word Hsp Hspec; simpl.
  - destruct (Str.is_empty word) eqn:He; constructor; [|constructor].
    split; [exact He|]. split; [exact Hsp|]. right. exact Hspec.
  - assert (Hword : Str.is_empty word = false -> word_shape word).
    { intros He. split; [exact He|]. split; [exact Hsp|]. right. exact Hspec. }
    destruct (is_special c) eqn:Hc.
    + pose proof (special_not_space c Hc) as Hns.
      assert (Hone : word_shape (String c EmptyString)).
      { split; [reflexivity|]. split; [simpl; rewrite Hns; reflexivity|].
        left. exists c. split; [exact Hc|reflexivity]. }
      simpl. rewrite Hns.
      destruct (Str.is_empty word) eqn:He; simpl.
      * constructor; [exact Hone|]. apply IH; reflexivity.
      * constructor; [apply Hword; reflexivity|].
        constructor; [exact Hone|]. apply IH; reflexivity.
    + simpl. destruct (Str.isspace c) eqn:Hs.
      * destruct (Str.is_empty word) eqn:He.
        -- apply IH; reflexivity.
        -- constructor; [apply Hword; reflexivity|]. apply IH; reflexivity.
      * apply IH; rewrite forallb_append; simpl.
        -- rewrite Hsp, Hs. reflexivity.
        -- rewrite Hspec, Hc. reflexivity.
Qed.

Lemma split_surround_shape (code : string) :
  Forall word_shape (Str.split (surround code)).
Proof. apply split_from_surround; reflexivity. Qed.

Lemma filter_all {A : Type} (p : A -> bool) (l : list A) :
  Forall (fun x => p x = true) l -> List.filter p l = l.
Proof.
  induction 1 as [|x l Hx _ IH]; simpl; [reflexivity|]. rewrite Hx, IH. reflexivity.
Qed.

Lemma combine_loop_merge (fuel : nat) (tokens : list token) (i : nat)
    (combined : list token) :
  length tokens - i <= fuel ->
  combine_loop fuel tokens i combined
  = Ok (combined ++ merge_not_equal (drop i tokens)).
Proof.
  revert i combined. induction fuel as [|fuel IH]; intros i combined Hfuel.
  - assert (Hlen : length tokens <= i) by lia.
    simpl. replace (i <? length tokens) with false
      by (symmetry; apply Nat.ltb_ge; exact Hlen).
    rewrite drop_ge by exact Hlen. simpl. rewrite app_nil_r. reflexivity.
  - simpl. destruct (i <? length tokens) eqn:Hi.
    + apply Nat.ltb_lt in Hi.
      destruct (lookup_lt_is_Some_2 tokens i Hi) as [t Ht].
      unfold getitem. rewrite Ht. simpl.
      rewrite (lookup_drop_cons _ _ _ Ht).
      destruct (i + 1 <? length tokens) eqn:Hi1.
      * apply Nat.ltb_lt in Hi1.
        destruct (lookup_lt_is_Some_2 tokens (i + 1) Hi1) as [u Hu].
        replace (S i) with (i + 1) by lia.
        rewrite (lookup_drop_cons _ _ _ Hu). simpl.
        unfold tok_is. rewrite Hu. rewrite andb_true_r.
        destruct (String.eqb t "!" && String.eqb u "=").
        -- rewrite IH by lia. rewrite <- app_assoc. simpl.
           replace (i + 2) with (S (i + 1)) by lia. reflexivity.
        -- rewrite IH by lia. rewrite <- app_assoc. simpl.
           rewrite (lookup_drop_cons _ _ _ Hu). reflexivity.
      * apply Nat.ltb_ge in Hi1. rewrite andb_false_r. simpl.
        rewrite IH by lia. rewrite <- app_assoc. simpl.
        replace (i + 1) with (S i) by lia.
        rewrite drop_ge by lia. reflexivity.
    + apply Nat.ltb_ge in Hi. rewrite drop_ge by exact Hi.
      simpl. rewrite app_nil_r. reflexivity.
Qed.

Lemma tokenize_refines_spec (code : string) : tokenize code = Ok (tokenize_spec code).
Proof.
  unfold tokenize, tokenize_spec. fold (separate code). rewrite separate_surround.
  rewrite filter_all.
  - rewrite combine_loop_merge by lia. rewrite drop_0. reflexivity.
  - eapply Forall_impl; [apply split_surround_shape|].
    intros t (He & _). simpl in *. rewrite He. reflexivity.
Qed.

Lemma merge_not_equal_shape (l : list token) :
  Forall word_shape l -> Forall token_shape (merge_not_equal l).
Proof.
  assert (Hw : forall t, word_shape t -> token_shape t).
  { intros t (He & Hsp & Hk). split; [intros ->; discriminate|].
    split; [exact Hsp|]. right. exact Hk. }
  assert (Hne : token_shape "!=").
  { split; [discriminate|]. split; [reflexivity|]. left. reflexivity. }
  induction l as [l IH] using (induction_ltof1 _ (@length token)).
  unfold ltof in IH. intros Hl.
  destruct l as [|t [|u l]]; simpl.
  - constructor.
  - constructor; [|constructor]. apply Hw. inversion Hl; assumption.
  - inversion Hl as [|? ? Ht Hl']; subst. inversion Hl' as [|? ? Hu Hl'']; subst.
    destruct (String.eqb t "!" && String.eqb u "=").
    + constructor; [exact Hne|]. apply IH; [simpl; lia|exact Hl''].
    + constructor; [apply Hw; exact Ht|].
      apply (IH (u :: l)); [simpl; lia|exact Hl'].
Qed.

(** In the output no "!" is directly followed by "=". *)
Lemma merge_not_equal_joined (l : list token) (i : nat) :
  merge_not_equal l !! i = Some "!" -> merge_not_equal l !! (i + 1) <> Some "=".
Proof.
  revert i. induction l as [l IH] using (induction_ltof1 _ (@length token)).
  unfold ltof in IH. intros i.
  destruct l as [|t [|u l]]; simpl.
  - discriminate.
  - destruct i; simpl; discriminate.
  - destruct (String.eqb t "!" && String.eqb u "=") eqn:Hb.
    + destruct i as [|i]; simpl; [discriminate|].
      apply (IH l). simpl; lia.
    + destruct i as [|i]; simpl.
      * intros Ht. injection Ht as ->. simpl in Hb.
        destruct l as [|v l]; simpl.
        -- intros Hu. injection Hu as ->. discriminate.
        -- destruct (String.eqb u "!" && String.eqb v "=") eqn:Hb2; simpl.
           ++ discriminate.
           ++ intros Hu. injection Hu as ->. discriminate.
      * apply (IH (u :: l)). simpl; lia.
Qed.

(** C8: [tokenize] returns on every input and its result is the one the
    specification describes: a space is put on each side of every
    character among "{ } ( ) , + - * / = > < !", the text is cut into its
    maximal runs free of white space, and each "!" directly followed by "="
    is joined with it from left to right.  Hence every token is not empty,
    holds no white space, and is "!=", one special character, or free of
    special characters; and no "!" is left directly before an "=". *)
Theorem tokenize_total (code : string) :
  tokenize code = Ok (tokenize_spec code)
  /\ Forall token_shape (tokenize_spec code)
  /\ (forall i, tokenize_spec code !! i = Some "!" ->
                tokenize_spec code !! (i + 1) <> Some "=").
Proof.
  split; [apply tokenize_refines_spec|]. split.
  - apply merge_not_equal_shape, split_surround_shape.
  - intros i. apply merge_not_equal_joined.
Qed.

(** ** The parser never runs out of fuel *)

Lemma operator_at_lt (ops : list (string * binop)) (tokens : list token)
    (stop : list string) (i : nat) (op : binop) :
  operator_at ops tokens stop i = Some op -> i < length tokens.
Proof.
  unfold operator_at. destruct (i <? length tokens) eqn:Hi; [|discriminate].
  intros _. apply Nat.ltb_lt. exact Hi.
Qed.

Lemma operator_loop_returns (operand : nat -> parsed) (ops : list (string * binop))
    (tokens : list token) (stop : list string) (i0 : nat) :
  (forall j, i0 <= j -> advances operand j) ->
  forall (fuel : nat) (node : expr) (i : nat),
    i0 <= i + 1 -> length tokens - i <= fuel ->
    operator_loop operand ops fuel tokens stop node i <> OutOfFuel
    /\ (forall e i', operator_loop operand ops fuel tokens stop node i = Ok (e, i') ->
                     i <= i').
Proof.
  intros Hop. induction fuel as [|fuel IH]; intros node i Hi0 Hfuel.
  - simpl. destruct (operator_at ops tokens stop i) eqn:Hat.
    + apply operator_at_lt in Hat. lia.
    + split; [discriminate|]. intros ? ? H; injection H as _ <-; lia.
  - simpl. destruct (operator_at ops tokens stop i) eqn:Hat.
    + apply operator_at_lt in Hat.
      destruct (Hop (i + 1) Hi0) as [Hne Hadv].
      destruct (operand (i + 1)) as [[rhs i2]| |] eqn:Hrhs; simpl.
      * specialize (Hadv rhs i2 eq_refl).
        destruct (IH (BinOp b node rhs) i2 ltac:(lia) ltac:(lia)) as [Hne' Hle].
        split; [exact Hne'|]. intros x y H; specialize (Hle x y H); lia.
      * split; [discriminate|]. intros ? ? H; discriminate.
      * contradiction.
    + split; [discriminate|]. intros ? ? H; injection H as _ <-; lia.
Qed.

Lemma parse_factor_advances
    (pe : list token -> nat -> list string -> parsed)
    (tokens : list token) (stop : list string) (j : nat) :
  (j < length tokens -> forall stop', advances (fun k => pe tokens k stop') (j + 1)) ->
  advances (fun k => parse_factor pe tokens k stop) j.
Proof.
  intros Hpe. unfold advances, parse_factor.
  destruct (length tokens <=? j) eqn:Hj.
  { split; [discriminate|]. intros ? ? H; discriminate. }
  apply Nat.leb_gt in Hj.
  destruct (lookup_lt_is_Some_2 tokens j Hj) as [t Ht].
  unfold getitem. rewrite Ht. simpl.
  destruct (mem t stop).
  { split; [discriminate|]. intros ? ? H; discriminate. }
  destruct (String.eqb t "(").
  - destruct (Hpe Hj (")" :: stop)) as [Hne Hadv].
    destruct (pe tokens (j + 1) (")" :: stop)) as [[node i2]| |] eqn:Hsub; simpl.
    + specialize (Hadv node i2 eq_refl).
      destruct ((length tokens <=? i2) || negb (tok_is tokens i2 ")")).
      * split; [discriminate|]. intros ? ? H; discriminate.
      * split; [discriminate|]. intros ? ? H; injection H as _ <-; lia.
    + split; [discriminate|]. intros ? ? H; discriminate.
    + contradiction.
  - destruct (Str.isdigit (Str.remove_first t ".")).
    + unfold Num.float_of_literal.
      destruct (Num.read_digits t 0 0 false) as [[m k]|]; simpl.
      * split; [discriminate|]. intros ? ? H; injection H as _ <-; lia.
      * split; [discriminate|]. intros ? ? H; discriminate.
    + match goal with |- context [if ?b then _ else _] => destruct b end.
      * split; [discriminate|]. intros ? ? H; injection H as _ <-; lia.
      * split; [discriminate|]. intros ? ? H; discriminate.
Qed.

Lemma parse_term_advances
    (pe : list token -> nat -> list string -> parsed)
    (fuel : nat) (tokens : list token) (stop : list string) (i : nat) :
  (forall j stop', i < j <= length tokens -> advances (fun k => pe tokens k stop') j) ->
  length tokens - i <= fuel ->
  forall j, i <= j -> advances (fun k => parse_term pe fuel tokens k stop) j.
Proof.
  intros Hpe Hfuel j Hj.
  assert (Hfactor : forall k, i <= k ->
            advances (fun k => parse_factor pe tokens k stop) k).
  { intros k Hk. apply parse_factor_advances. intros Hlt stop'. apply Hpe. lia. }
  unfold advances, parse_term.
  destruct (Hfactor j Hj) as [Hne Hadv].
  destruct (parse_factor pe tokens j stop) as [[node i1]| |] eqn:Hf; simpl.
  - specialize (Hadv node i1 eq_refl).
    destruct (operator_loop_returns (fun k => parse_factor pe tokens k stop)
                term_ops tokens stop i Hfactor fuel node i1 ltac:(lia) ltac:(lia))
      as [Hne' Hle].
    split; [exact Hne'|]. intros x y H; specialize (Hle x y H); lia.
  - split; [discriminate|]. intros ? ? H; discriminate.
  - contradiction.
Qed.

Lemma parse_expression_fuel_advances (fuel : nat) (tokens : list token) (i : nat)
    (stop : list string) :
  length tokens - i < fuel ->
  advances (fun k => parse_expression_fuel fuel tokens k stop) i.
Proof.
  revert i stop. induction fuel as [|fuel IH]; intros i stop Hfuel; [lia|].
  assert (Hterm : forall j, i <= j ->
            advances (fun k => parse_term (parse_expression_fuel fuel) fuel tokens k stop) j).
  { apply parse_term_advances; [|lia].
    intros j stop' Hj. apply IH. lia. }
  unfold advances. simpl.
  destruct (Hterm i ltac:(lia)) as [Hne Hadv].
  destruct (parse_term (parse_expression_fuel fuel) fuel tokens i stop)
    as [[node i1]| |] eqn:Ht; simpl.
  - specialize (Hadv node i1 eq_refl).
    destruct (operator_loop_returns
                (fun k => parse_term (parse_expression_fuel fuel) fuel tokens k stop)
                expression_ops tokens stop i Hterm fuel node i1 ltac:(lia) ltac:(lia))
      as [Hne' Hle].
    split; [exact Hne'|]. intros x y H; specialize (Hle x y H); lia.
  - split; [discriminate|]. intros ? ? H; discriminate.
  - contradiction.
Qed.

Lemma parse_expression_total (tokens : list token) (i : nat) (stop : list string) :
  parse_expression tokens i stop <> OutOfFuel.
Proof.
  apply (parse_expression_fuel_advances (parse_fuel tokens) tokens i stop).
  unfold parse_fuel. lia.
Qed.

Lemma parse_full_expression_total (token_list : list token) :
  parse_full_expression token_list <> OutOfFuel.
Proof.
  unfold parse_full_expression.
  pose proof (parse_expression_total token_list 0 []) as H.
  destruct (parse_expression token_list 0 []) as [[e i]| |]; simpl;
    [|discriminate|contradiction].
  destruct (negb (i =? length token_list)); discriminate.
Qed.

Lemma parse_condition_total (tokens : list token) (i : nat) :
  parse_condition tokens i <> OutOfFuel.
Proof.
  unfold parse_condition.
  pose proof (parse_expression_total tokens i [">"; "<"; "="; "!="]) as H.
  destruct (parse_expression tokens i [">"; "<"; "="; "!="]) as [[lhs i1]| |]; simpl;
    [|discriminate|contradiction].
  destruct (length tokens <=? i1); [discriminate|].
  unfold getitem. destruct (tokens !! i1) as [op|]; simpl; [|discriminate].
  destruct (relop_of_token op); [|discriminate].
  pose proof (parse_expression_total tokens (i1 + 1) ["{"]) as H'.
  destruct (parse_expression tokens (i1 + 1) ["{"]) as [[rhs i2]| |]; simpl;
    [discriminate|discriminate|contradiction].
Qed.

Lemma define_params_total (fuel : nat) (tokens : list token) (j : nat)
    (params : list token) :
  length tokens - j < fuel -> define_params fuel tokens j params <> OutOfFuel.
Proof.
  revert j params. induction fuel as [|fuel IH]; intros j params Hfuel; [lia|].
  simpl. unfold getitem. destruct (tokens !! j) as [t|] eqn:Ht; simpl; [|discriminate].
  apply lookup_lt_Some in Ht.
  destruct (negb (String.eqb t ")")); [|discriminate].
  apply IH. lia.
Qed.

Lemma call_args_total (fuel : nat) (tokens : list token) (j : nat)
    (args : list expr) (arg_tokens : list token) :
  length tokens - j < fuel -> call_args fuel tokens j args arg_tokens <> OutOfFuel.
Proof.
  revert j args arg_tokens.
  induction fuel as [|fuel IH]; intros j args arg_tokens Hfuel; [lia|].
  simpl. unfold getitem. destruct (tokens !! j) as [t|] eqn:Ht; simpl; [|discriminate].
  apply lookup_lt_Some in Ht.
  destruct (negb (String.eqb t ")")); [|discriminate].
  destruct (String.eqb t ","); [|apply IH; lia].
  destruct arg_tokens as [|a arg_tokens]; [apply IH; lia|].
  pose proof (parse_full_expression_total (a :: arg_tokens)) as H.
  destruct (parse_full_expression (a :: arg_tokens)); simpl;
    [apply IH; lia|discriminate|contradiction].
Qed.

Lemma parse_call_arguments_total (tokens : list token) (j : nat) :
  parse_call_arguments tokens j <> OutOfFuel.
Proof.
  unfold parse_call_arguments.
  pose proof (call_args_total (scan_fuel tokens j) tokens j [] []) as H.
  destruct (call_args (scan_fuel tokens j) tokens j [] []) as [[[args arg_tokens] j']| |];
    simpl; [|discriminate|exfalso; apply H; [unfold scan_fuel; lia|reflexivity]].
  destruct arg_tokens as [|a arg_tokens]; [discriminate|].
  pose proof (parse_full_expression_total (a :: arg_tokens)) as H'.
  destruct (parse_full_expression (a :: arg_tokens)); simpl;
    [discriminate|discriminate|contradiction].
Qed.

(** ** The monad of the interpreter *)

Lemma bind_ok_inv {A B : Type} (m : M A) (k : A -> M B) (st st' : state) (b : B) :
  bind m k st = (Ok b, st') ->
  exists a st1, m st = (Ok a, st1) /\ k a st1 = (Ok b, st').
Proof.
  unfold bind. destruct (m st) as [[a| |] st1]; intros H; try discriminate. eauto.
Qed.

Lemma lift_ok_inv {A : Type} (r : result A) (st st' : state) (a : A) :
  lift r st = (Ok a, st') -> r = Ok a /\ st' = st.
Proof. unfold lift. intros H. injection H as -> ->. split; reflexivity. Qed.

Lemma keeps_stack_ret {A : Type} (a : A) : keeps_stack (ret a).
Proof. intros st a' st' H. injection H as _ <-. reflexivity. Qed.

Lemma keeps_stack_lift {A : Type} (r : result A) : keeps_stack (lift r).
Proof. intros st a st' H. injection H as _ <-. reflexivity. Qed.

Lemma keeps_stack_bind {A B : Type} (m : M A) (k : A -> M B) :
  keeps_stack m -> (forall a, keeps_stack (k a)) -> keeps_stack (bind m k).
Proof.
  intros Hm Hk st b st' H.
  destruct (bind_ok_inv _ _ _ _ _ H) as (a & st1 & H1 & H2).
  rewrite (Hk _ _ _ _ H2). exact (Hm _ _ _ H1).
Qed.

Lemma keeps_stack_get_symbols : keeps_stack get_symbols.
Proof. intros st a st' H. injection H as _ <-. reflexivity. Qed.

Lemma keeps_stack_get_cursor : keeps_stack get_cursor.
Proof. intros st a st' H. injection H as _ <-. reflexivity. Qed.

Lemma keeps_stack_set_symbols (m : symtab) : keeps_stack (set_symbols m).
Proof. intros st a st' H. injection H as _ <-. reflexivity. Qed.

Lemma keeps_stack_set_cursor (c : cursor_t) : keeps_stack (set_cursor c).
Proof. intros st a st' H. injection H as _ <-. reflexivity. Qed.

Lemma keeps_stack_draw (p : primitive) : keeps_stack (draw p).
Proof. intros st a st' H. injection H as _ <-. reflexivity. Qed.

Lemma keeps_stack_random_choice (randbelow : nat -> nat -> nat) :
  keeps_stack (random_choice randbelow).
Proof. intros st a st' H. injection H as _ <-. reflexivity. Qed.

Ltac keeps_stack_step :=
  first
    [ assumption
    | apply keeps_stack_ret
    | apply keeps_stack_lift
    | apply keeps_stack_get_symbols
    | apply keeps_stack_get_cursor
    | apply keeps_stack_set_symbols
    | apply keeps_stack_set_cursor
    | apply keeps_stack_draw
    | apply keeps_stack_random_choice
    | match goal with H : forall _, _ |- _ => apply H end
    | apply keeps_stack_bind; [|intros ?]
    | progress cbv zeta
    | match goal with
      | |- keeps_stack (if ?b then _ else _) => destruct b
      | |- keeps_stack (let (_, _) := ?p in _) => destruct p
      | |- keeps_stack (match ?x with _ => _ end) => destruct x
      end ].

Ltac keeps_stack_auto := repeat keeps_stack_step.

Lemma extends_refl {A : Type} (m : M A) : extends m m.
Proof. intros st r st' H _. exact H. Qed.

Lemma extends_bind {A B : Type} (m m' : M A) (k k' : A -> M B) :
  extends m m' -> (forall a, extends (k a) (k' a)) -> extends (bind m k) (bind m' k').
Proof.
  intros Hm Hk st r st' H Hr. unfold bind in *.
  destruct (m st) as [[a| |] st1] eqn:E.
  - rewrite (Hm _ _ _ E) by discriminate. apply Hk; assumption.
  - rewrite (Hm _ _ _ E) by discriminate. exact H.
  - injection H as <- _. contradiction.
Qed.

Ltac extends_step :=
  first
    [ assumption
    | apply extends_refl
    | match goal with H : forall _, _ |- _ => apply H end
    | apply extends_bind; [|intros ?]
    | progress cbv zeta
    | match goal with
      | |- extends (if ?b then _ else _) (if ?b then _ else _) => destruct b
      | |- extends (let (_, _) := ?p in _) (let (_, _) := ?p in _) => destruct p
      | |- extends (match ?x with _ => _ end) (match ?x with _ => _ end) => destruct x
      end ].

Ltac extends_auto := repeat extends_step.
(** ** The call stack is balanced *)

Section InterpreterProperties.

Variable libm_cos : float -> float.
Variable libm_sin : float -> float.
Variable randbelow : nat -> nat -> nat.

Lemma keeps_stack_eval (e : expr) : keeps_stack (eval e).
Proof. unfold eval. keeps_stack_auto. Qed.

Lemma keeps_stack_move_cursor (distance : value) (direction : token) :
  keeps_stack (move_cursor libm_cos libm_sin distance direction).
Proof.
  unfold move_cursor, advance, set_cursor_x, set_cursor_y. keeps_stack_auto.
Qed.

Lemma keeps_stack_draw_shape (shape : token) (size : value) (x y : option value) :
  keeps_stack (draw_shape libm_cos libm_sin shape size x y).
Proof. unfold draw_shape. keeps_stack_auto. Qed.

Lemma keeps_stack_exec_set (tokens : list token) (i : nat) :
  keeps_stack (exec_set tokens i).
Proof.
  unfold exec_set, raise. pose proof keeps_stack_eval. keeps_stack_auto.
Qed.

Lemma keeps_stack_exec_define (tokens : list token) (i : nat) :
  keeps_stack (exec_define tokens i).
Proof. unfold exec_define, raise. keeps_stack_auto. Qed.

Lemma keeps_stack_exec_move (tokens : list token) (i : nat) :
  keeps_stack (exec_move libm_cos libm_sin tokens i).
Proof.
  unfold exec_move. pose proof keeps_stack_eval. pose proof keeps_stack_move_cursor.
  keeps_stack_auto.
Qed.

Lemma keeps_stack_exec_turn (tokens : list token) (i : nat) :
  keeps_stack (exec_turn tokens i).
Proof.
  unfold exec_turn, set_cursor_angle. pose proof keeps_stack_eval. keeps_stack_auto.
Qed.

Lemma keeps_stack_exec_draw (tokens : list token) (i : nat) :
  keeps_stack (exec_draw libm_cos libm_sin tokens i).
Proof.
  unfold exec_draw. pose proof keeps_stack_eval. pose proof keeps_stack_draw_shape.
  keeps_stack_auto.
Qed.

Lemma keeps_stack_exec_color (tokens : list token) (i : nat) :
  keeps_stack (exec_color randbelow tokens i).
Proof. unfold exec_color, set_cursor_color. keeps_stack_auto. Qed.

(** A call that returns has restored the environment and the call stack
    of its caller. *)
Lemma exec_call_restores (interpret_body : list token -> M unit)
    (tokens : list token) (i : nat) :
  (forall body, keeps_stack (interpret_body body)) ->
  forall st i' st',
    exec_call interpret_body tokens i st = (Ok i', st') ->
    symbols st' = symbols st /\ call_stack st' = call_stack st.
Proof.
  intros Hbody st i' st' H. unfold exec_call in H.
  apply bind_ok_inv in H as (func_name & st1 & H1 & H).
  apply lift_ok_inv in H1 as [_ ->].
  apply bind_ok_inv in H as (open & st1 & H1 & H).
  apply lift_ok_inv in H1 as [_ ->].
  destruct (negb (String.eqb open "(")); [discriminate|].
  apply bind_ok_inv in H as ([args j] & st1 & H1 & H).
  apply lift_ok_inv in H1 as [_ ->].
  apply bind_ok_inv in H as (syms & st1 & H1 & H).
  injection H1 as <- <-.
  destruct (symbols st !! func_name) as [[n|params body]|]; try discriminate.
  destruct (negb (length args =? length params)); [discriminate|].
  apply bind_ok_inv in H as (local_scope & st1 & H1 & H).
  apply lift_ok_inv in H1 as [_ ->].
  apply bind_ok_inv in H as ([] & st1 & H1 & H). injection H1 as <-.
  apply bind_ok_inv in H as ([] & st2 & H2 & H). injection H2 as <-.
  apply bind_ok_inv in H as ([] & st3 & H3 & H).
  apply Hbody in H3. simpl in H3.
  apply bind_ok_inv in H as ([] & st4 & H4 & H). injection H4 as <-.
  apply bind_ok_inv in H as (saved & st5 & H5 & H).
  unfold pop_stack in H5. simpl in H5. rewrite H3 in H5. injection H5 as <- <-.
  apply bind_ok_inv in H as ([] & st6 & H6 & H). injection H6 as <-.
  injection H as _ <-. simpl. split; [apply map_union_empty|reflexivity].
Qed.

Lemma keeps_stack_exec_call (interpret_body : list token -> M unit)
    (tokens : list token) (i : nat) :
  (forall body, keeps_stack (interpret_body body)) ->
  keeps_stack (exec_call interpret_body tokens i).
Proof. intros Hbody st i' st' H. eapply exec_call_restores; eassumption. Qed.

Lemma keeps_stack_exec_if (interpret_body : list token -> M unit)
    (tokens : list token) (i : nat) :
  (forall body, keeps_stack (interpret_body body)) ->
  keeps_stack (exec_if interpret_body tokens i).
Proof. intros Hbody. unfold exec_if, raise. keeps_stack_auto. Qed.

Lemma keeps_stack_while_loop (run_body : M unit) (fuel : nat) (cond : condition) :
  keeps_stack run_body -> keeps_stack (while_loop run_body fuel cond).
Proof.
  intros Hbody. induction fuel as [|fuel IH]; simpl; keeps_stack_auto.
Qed.

Lemma keeps_stack_exec_while (interpret_body : list token -> M unit) (fuel : nat)
    (tokens : list token) (i : nat) :
  (forall body, keeps_stack (interpret_body body)) ->
  keeps_stack (exec_while interpret_body fuel tokens i).
Proof.
  intros Hbody. unfold exec_while, raise.
  pose proof (fun body => keeps_stack_while_loop (interpret_body body) fuel) as Hloop.
  keeps_stack_auto.
Qed.

Lemma keeps_stack_exec_statement (interpret_body : list token -> M unit) (fuel : nat)
    (tokens : list token) (i : nat) :
  (forall body, keeps_stack (interpret_body body)) ->
  keeps_stack (exec_statement libm_cos libm_sin randbelow interpret_body fuel tokens i).
Proof.
  intros Hbody. unfold exec_statement.
  apply keeps_stack_bind; [apply keeps_stack_lift|intros token].
  repeat match goal with |- keeps_stack (if ?b then _ else _) => destruct b end.
  - apply keeps_stack_exec_set.
  - apply keeps_stack_exec_define.
  - apply keeps_stack_exec_call, Hbody.
  - apply keeps_stack_exec_if, Hbody.
  - apply keeps_stack_exec_while, Hbody.
  - apply keeps_stack_exec_move.
  - apply keeps_stack_exec_turn.
  - apply keeps_stack_exec_draw.
  - apply keeps_stack_exec_color.
  - apply keeps_stack_ret.
Qed.

Lemma keeps_stack_statement_loop (step : nat -> M nat) (fuel len i : nat) :
  (forall j, keeps_stack (step j)) -> keeps_stack (statement_loop step fuel len i).
Proof.
  intros Hstep. revert i. induction fuel as [|fuel IH]; intros i; simpl;
    destruct (i <? len); keeps_stack_auto.
Qed.

Lemma keeps_stack_interpret (fuel : nat) (tokens : list token) :
  keeps_stack (interpret libm_cos libm_sin randbelow fuel tokens).
Proof.
  revert tokens. induction fuel as [|fuel IH]; intros tokens; simpl.
  - apply keeps_stack_lift.
  - apply keeps_stack_statement_loop. intros j.
    apply keeps_stack_exec_statement. exact IH.
Qed.

(** ** More fuel changes nothing *)

Lemma extends_while_loop (run_body run_body' : M unit) (cond : condition)
    (fuel fuel' : nat) :
  extends run_body run_body' -> fuel <= fuel' ->
  extends (while_loop run_body fuel cond) (while_loop run_body' fuel' cond).
Proof.
  intros Hbody. revert fuel'. induction fuel as [|fuel IH]; intros fuel' Hle.
  - intros st r st' H Hr. injection H as <- _. contradiction.
  - destruct fuel' as [|fuel']; [lia|]. simpl.
    specialize (IH fuel' ltac:(lia)). extends_auto.
Qed.

Lemma extends_statement_loop (step step' : nat -> M nat) (len : nat)
    (fuel fuel' : nat) :
  (forall j, extends (step j) (step' j)) -> fuel <= fuel' ->
  forall i, extends (statement_loop step fuel len i) (statement_loop step' fuel' len i).
Proof.
  intros Hstep. revert fuel'. induction fuel as [|fuel IH]; intros fuel' Hle i.
  - simpl. destruct (i <? len) eqn:Hi.
    + intros st r st' H Hr. injection H as <- _. contradiction.
    + destruct fuel'; simpl; rewrite Hi; apply extends_refl.
  - destruct fuel' as [|fuel']; [lia|]. simpl.
    pose proof (IH fuel' ltac:(lia)) as IH'. extends_auto.
Qed.

Lemma extends_exec_statement (interpret_body interpret_body' : list token -> M unit)
    (fuel fuel' : nat) (tokens : list token) (i : nat) :
  (forall body, extends (interpret_body body) (interpret_body' body)) ->
  fuel <= fuel' ->
  extends (exec_statement libm_cos libm_sin randbelow interpret_body fuel tokens i)
          (exec_statement libm_cos libm_sin randbelow interpret_body' fuel' tokens i).
Proof.
  intros Hbody Hle.
  pose proof (fun body cond =>
                extends_while_loop (interpret_body body) (interpret_body' body) cond
                  fuel fuel' (Hbody body) Hle) as Hloop.
  unfold exec_statement, exec_call, exec_if, exec_while. extends_auto.
Qed.

Lemma extends_interpret (fuel fuel' : nat) (tokens : list token) :
  fuel <= fuel' ->
  extends (interpret libm_cos libm_sin randbelow fuel tokens)
          (interpret libm_cos libm_sin randbelow fuel' tokens).
Proof.
  revert fuel' tokens. induction fuel as [|fuel IH]; intros fuel' tokens Hle.
  - intros st r st' H Hr. injection H as <- _. contradiction.
  - destruct fuel' as [|fuel']; [lia|]. simpl.
    apply extends_statement_loop; [|lia].
    intros j. apply extends_exec_statement; [|lia].
    intros body. apply IH. lia.
Qed.

(** A run that finishes, or stops on an exception, does the same with any
    larger fuel. *)
Lemma run_more_fuel (fuel fuel' : nat) (code : string) (r : result unit) (st : state) :
  run libm_cos libm_sin randbelow fuel code = (r, st) ->
  r <> OutOfFuel -> fuel <= fuel' ->
  run libm_cos libm_sin randbelow fuel' code = (r, st).
Proof.
  unfold run. intros H Hr Hle.
  destruct (tokenize code) as [tokens| |]; [|exact H|exact H].
  exact (extends_interpret fuel fuel' tokens Hle _ _ _ H Hr).
Qed.

(** ** Function calls *)

Lemma exec_statement_call (interpret_body : list token -> M unit) (fuel : nat)
    (tokens : list token) (i : nat) (st : state) :
  tokens !! i = Some "CALL" ->
  exec_statement libm_cos libm_sin randbelow interpret_body fuel tokens i st
  = exec_call interpret_body tokens i st.
Proof.
  intros Ht. unfold exec_statement, bind, lift, getitem. rewrite Ht. reflexivity.
Qed.

(** C1, as amended: when a CALL statement returns, the environment and the
    call stack are exactly those of the caller just before the call; nothing
    the body has set survives, a SET against the name of a parameter
    included. *)
Theorem call_restores_caller_environment (fuel : nat) (tokens : list token)
    (i i' : nat) (st st' : state) :
  tokens !! i = Some "CALL" ->
  exec_statement libm_cos libm_sin randbelow
    (interpret libm_cos libm_sin randbelow fuel) fuel tokens i st = (Ok i', st') ->
  symbols st' = symbols st /\ call_stack st' = call_stack st.
Proof.
  intros Ht H. rewrite exec_statement_call in H by exact Ht.
  eapply exec_call_restores; [|exact H].
  intros body. apply keeps_stack_interpret.
Qed.

Lemma statement_loop_raises (step : nat -> M nat) (n len i : nat) (st st' : state)
    (e : exn) :
  i < len -> step i st = (Raise e, st') ->
  statement_loop step (S n) len i st = (Raise e, st').
Proof.
  intros Hi H. simpl.
  replace (i <? len) with true by (symmetry; apply Nat.ltb_lt; exact Hi).
  unfold bind. rewrite H. reflexivity.
Qed.

(** C5: at a CALL whose arguments parse, the loop of [interpret] stops with
    an exception and leaves the whole state (environment, call stack,
    cursor, primitives drawn) as it was, both when the name is not bound
    and when it is bound to a function whose number of parameters differs
    from the number of arguments. *)
Theorem call_errors_before_any_effect (interpret_body : list token -> M unit)
    (fuel n : nat) (tokens : list token) (i j : nat) (st : state)
    (func_name : token) (args : list expr) :
  tokens !! i = Some "CALL" ->
  tokens !! (i + 1) = Some func_name ->
  tokens !! (i + 2) = Some "(" ->
  parse_call_arguments tokens (i + 3) = Ok (args, j) ->
  (symbols st !! func_name = None ->
   statement_loop
     (exec_statement libm_cos libm_sin randbelow interpret_body fuel tokens)
     (S n) (length tokens) i st
   = (Raise (Exception (String.append "Undefined function: " func_name)), st))
  /\ (forall params body,
        symbols st !! func_name = Some (VFunc params body) ->
        length args <> length params ->
        statement_loop
          (exec_statement libm_cos libm_sin randbelow interpret_body fuel tokens)
          (S n) (length tokens) i st
        = (Raise (Exception
                    (String.append "Function "
                       (String.append func_name
                          (String.append " expects "
                             (String.append (Str.of_nat (length params))
                                (String.append " arguments, got "
                                   (Str.of_nat (length args)))))))), st)).
Proof.
  intros Ht Hname Hopen Hargs.
  assert (Hi : i < length tokens) by (eapply lookup_lt_Some; exact Ht).
  split.
  - intros Hnone. apply statement_loop_raises; [exact Hi|].
    rewrite exec_statement_call by exact Ht.
    unfold exec_call, bind, lift, getitem, get_symbols, raise.
    rewrite Hname, Hopen. simpl. rewrite Hargs, Hnone. reflexivity.
  - intros params body Hfun Hlen. apply statement_loop_raises; [exact Hi|].
    rewrite exec_statement_call by exact Ht.
    unfold exec_call, bind, lift, getitem, get_symbols, raise.
    rewrite Hname, Hopen. simpl. rewrite Hargs, Hfun.
    replace (length args =? length params) with false
      by (symmetry; apply Nat.eqb_neq; exact Hlen).
    reflexivity.
Qed.

(** ** Statement headers *)

(** A header whose expected token is there but is another one is refused
    with the exception the source raises for it. *)
Lemma exec_set_missing_equals (tokens : list token) (i : nat) (st : state)
    (var t : token) :
  tokens !! (i + 1) = Some var -> tokens !! (i + 2) = Some t -> t <> "=" ->
  exec_set tokens i st = (Raise (Exception "Expected '=' in SET statement"), st).
Proof.
  intros Hv Ht Hne. unfold exec_set, bind, lift, getitem, raise. rewrite Hv, Ht.
  apply String.eqb_neq in Hne. rewrite Hne. reflexivity.
Qed.

Lemma exec_define_missing_paren (tokens : list token) (i : nat) (st : state)
    (name t : token) :
  tokens !! (i + 1) = Some name -> tokens !! (i + 2) = Some t -> t <> "(" ->
  exec_define tokens i st
  = (Raise (Exception "Expected ( after function name in DEFINE"), st).
Proof.
  intros Hv Ht Hne. unfold exec_define, bind, lift, getitem, raise. rewrite Hv, Ht.
  apply String.eqb_neq in Hne. rewrite Hne. reflexivity.
Qed.

Lemma exec_define_missing_brace (tokens : list token) (i j : nat) (st : state)
    (name t : token) (params : list token) :
  tokens !! (i + 1) = Some name -> tokens !! (i + 2) = Some "(" ->
  define_params (scan_fuel tokens (i + 3)) tokens (i + 3) [] = Ok (params, j) ->
  tokens !! (j + 1) = Some t -> t <> "{" ->
  exec_define tokens i st = (Raise (Exception "Expected { to start function body"), st).
Proof.
  intros Hv Ho Hp Ht Hne. unfold exec_define, bind, lift, getitem, raise.
  rewrite Hv, Ho, String.eqb_refl. cbn [negb]. rewrite Hp, Ht.
  apply String.eqb_neq in Hne. rewrite Hne. reflexivity.
Qed.

Lemma exec_call_missing_paren (interpret_body : list token -> M unit)
    (tokens : list token) (i : nat) (st : state) (name t : token) :
  tokens !! (i + 1) = Some name -> tokens !! (i + 2) = Some t -> t <> "(" ->
  exec_call interpret_body tokens i st
  = (Raise (Exception "Expected ( in function call"), st).
Proof.
  intros Hv Ht Hne. unfold exec_call, bind, lift, getitem, raise. rewrite Hv, Ht.
  apply String.eqb_neq in Hne. rewrite Hne. reflexivity.
Qed.

Lemma exec_if_missing_brace (interpret_body : list token -> M unit)
    (tokens : list token) (i new_i : nat) (st : state) (cond : condition) (t : token) :
  parse_condition tokens (i + 1) = Ok (cond, new_i) ->
  tokens !! new_i = Some t -> t <> "{" ->
  exec_if interpret_body tokens i st
  = (Raise (Exception "Expected { after IF condition"), st).
Proof.
  intros Hc Ht Hne. unfold exec_if, bind, lift, getitem, raise. rewrite Hc, Ht.
  apply String.eqb_neq in Hne. rewrite Hne. reflexivity.
Qed.

Lemma exec_while_missing_brace (interpret_body : list token -> M unit) (fuel : nat)
    (tokens : list token) (i new_i : nat) (st : state) (cond : condition) (t : token) :
  parse_condition tokens (i + 1) = Ok (cond, new_i) ->
  tokens !! new_i = Some t -> t <> "{" ->
  exec_while interpret_body fuel tokens i st
  = (Raise (Exception "Expected { after WHILE condition"), st).
Proof.
  intros Hc Ht Hne. unfold exec_while, bind, lift, getitem, raise. rewrite Hc, Ht.
  apply String.eqb_neq in Hne. rewrite Hne. reflexivity.
Qed.

(** C7 fails on the code when the expected token is missing because the
    program ends: the header is then read past the end of the token list,
    which is an [IndexError] and not the exception of a syntax error. *)
Theorem truncated_header_is_index_error (fuel : nat) :
  let go := run libm_cos libm_sin randbelow (S (S fuel)) in
  go "SET x" = (Raise IndexError, initial_state)
  /\ go "DEFINE f" = (Raise IndexError, initial_state)
  /\ go "DEFINE f ( a , b" = (Raise IndexError, initial_state)
  /\ go "DEFINE f ( a , b )" = (Raise IndexError, initial_state)
  /\ go "CALL f" = (Raise IndexError, initial_state)
  /\ go "IF x > 1" = (Raise IndexError, initial_state)
  /\ go "WHILE x > 1" = (Raise IndexError, initial_state).
Proof.
  assert (H : forall code,
             run libm_cos libm_sin randbelow 2 code = (Raise IndexError, initial_state) ->
             run libm_cos libm_sin randbelow (S (S fuel)) code
             = (Raise IndexError, initial_state)).
  { intros code H. eapply run_more_fuel; [exact H|discriminate|lia]. }
  cbv zeta. repeat split; apply H; vm_compute; reflexivity.
Qed.

(** ** WHILE *)

Lemma iterates_while_loop (run_body : M unit) (cond : condition) (n : nat)
    (st st' : state) :
  iterates run_body cond n st st' ->
  forall fuel, n < fuel -> while_loop run_body fuel cond st = (Ok tt, st').
Proof.
  induction 1 as [st Hc|n st st1 st' Hc Hrun _ IH]; intros fuel Hfuel;
    (destruct fuel as [|fuel]; [lia|]); simpl;
    unfold bind, get_symbols, lift; rewrite Hc.
  - reflexivity.
  - rewrite Hrun. apply IH. lia.
Qed.

Lemma while_loop_iterates (run_body : M unit) (cond : condition) (fuel : nat)
    (st st' : state) :
  while_loop run_body fuel cond st = (Ok tt, st') ->
  exists n, n < fuel /\ iterates run_body cond n st st'.
Proof.
  revert st. induction fuel as [|fuel IH]; intros st H; [discriminate|].
  simpl in H. unfold bind, get_symbols, lift in H.
  destruct (eval_condition (symbols st) cond) as [[|]| |] eqn:Hc; try discriminate.
  - destruct (run_body st) as [[[]| |] st1] eqn:Hrun; try discriminate.
    destruct (IH st1 H) as (n & Hn & Hit).
    exists (S n). split; [lia|]. econstructor; eassumption.
  - injection H as <-. exists 0. split; [lia|]. constructor. exact Hc.
Qed.

Lemma iterates_ends_false (run_body : M unit) (cond : condition) (n : nat)
    (st st' : state) :
  iterates run_body cond n st st' -> eval_condition (symbols st') cond = Ok false.
Proof. induction 1; assumption. Qed.

Lemma iterates_functional (run_body : M unit) (cond : condition) (n n' : nat)
    (st st1 st2 : state) :
  iterates run_body cond n st st1 -> iterates run_body cond n' st st2 ->
  n = n' /\ st1 = st2.
Proof.
  intros H. revert n' st2.
  induction H as [st Hc|n st sta st1 Hc Hrun _ IH]; intros n' st2 H';
    inversion H' as [? Hc'|? ? stb ? Hc' Hrun' Hit']; subst; try congruence.
  - split; reflexivity.
  - rewrite Hrun in Hrun'. injection Hrun' as <-.
    destruct (IH _ _ Hit') as [-> ->]. split; reflexivity.
Qed.

Lemma counting_body_step (fuel : nat) (v w : float) :
  interpret libm_cos libm_sin randbelow 2 ["SET"; "i"; "="; "i"; "+"; "1"]
    (counting_state v) = (Ok tt, counting_state w) ->
  interpret libm_cos libm_sin randbelow (S (S fuel)) ["SET"; "i"; "="; "i"; "+"; "1"]
    (counting_state v) = (Ok tt, counting_state w).
Proof.
  intros H. eapply (extends_interpret 2 (S (S fuel))); [lia|exact H|discriminate].
Qed.

(** C6: a WHILE statement that returns has run its body some number [n] of
    times, the condition being evaluated before each run and found true,
    and leaves a state in which the condition is false.  The counting
    program returns with any fuel from 8 on, its body runs 5 times, no
    other number of runs is possible, and [i] ends at 5. *)
Theorem while_runs_until_condition_false :
  (forall (interpret_body : list token -> M unit) (fuel : nat) (tokens : list token)
          (i i' : nat) (st st' : state),
      exec_while interpret_body fuel tokens i st = (Ok i', st') ->
      exists cond new_i n,
        parse_condition tokens (i + 1) = Ok (cond, new_i)
        /\ find_block_end tokens (new_i + 1) = Ok i'
        /\ iterates (interpret_body (slice tokens (new_i + 1) (i' - 1))) cond n st st'
        /\ eval_condition (symbols st') cond = Ok false)
  /\ (forall fuel,
        let body := ["SET"; "i"; "="; "i"; "+"; "1"] in
        let cond := Cond (Name "i") Lt_ (Lit 5) in
        let run_body := interpret libm_cos libm_sin randbelow (S (S fuel)) body in
        run libm_cos libm_sin randbelow (8 + fuel) counting_loop
        = (Ok tt, counting_state 5)
        /\ iterates run_body cond 5 (counting_state 0) (counting_state 5)
        /\ (forall n st', iterates run_body cond n (counting_state 0) st' -> n = 5)
        /\ symbols (counting_state 5) !! "i" = Some (VNum (PyFloat 5))).
Proof.
  split.
  - intros interpret_body fuel tokens i i' st st' H. unfold exec_while in H.
    apply bind_ok_inv in H as ([cond new_i] & st1 & H1 & H).
    apply lift_ok_inv in H1 as [Hc ->].
    apply bind_ok_inv in H as (brace & st1 & H1 & H).
    apply lift_ok_inv in H1 as [_ ->].
    destruct (negb (String.eqb brace "{")); [discriminate|].
    apply bind_ok_inv in H as (block_end & st1 & H1 & H).
    apply lift_ok_inv in H1 as [Hb ->].
    apply bind_ok_inv in H as ([] & st1 & H1 & H).
    injection H as <- <-.
    apply while_loop_iterates in H1 as (n & _ & Hit).
    exists cond, new_i, n. repeat split; try assumption.
    eapply iterates_ends_false. exact Hit.
  - intros fuel body cond run_body.
    assert (Hit : iterates run_body cond 5 (counting_state 0) (counting_state 5)).
    { subst run_body body cond.
      apply (iterates_again _ _ _ _ (counting_state 1)); [reflexivity| |].
      { apply counting_body_step. vm_compute. reflexivity. }
      apply (iterates_again _ _ _ _ (counting_state 2)); [reflexivity| |].
      { apply counting_body_step. vm_compute. reflexivity. }
      apply (iterates_again _ _ _ _ (counting_state 3)); [reflexivity| |].
      { apply counting_body_step. vm_compute. reflexivity. }
      apply (iterates_again _ _ _ _ (counting_state 4)); [reflexivity| |].
      { apply counting_body_step. vm_compute. reflexivity. }
      apply (iterates_again _ _ _ _ (counting_state 5)); [reflexivity| |].
      { apply counting_body_step. vm_compute. reflexivity. }
      apply iterates_exit. reflexivity. }
    split; [|split; [exact Hit|split; [|reflexivity]]].
    + apply (run_more_fuel 8 (8 + fuel)); [vm_compute; reflexivity|discriminate|lia].
    + intros n st' H. destruct (iterates_functional _ _ _ _ _ _ _ H Hit) as [-> _].
      reflexivity.
Qed.

(** ** The star *)

Lemma mul_by_float (n : number) (s c : float) :
  Num.to_float n = Ok s -> Num.mul n (PyFloat c) = Ok (PyFloat (PrimFloat.mul s c)).
Proof.
  intros H. unfold Num.mul, Num.arith. destruct n; rewrite H; reflexivity.
Qed.

Lemma math_cos_finite (x : float) :
  Num.is_inf x = false -> math_cos libm_cos x = Ok (libm_cos x).
Proof. intros H. unfold math_cos. rewrite H. reflexivity. Qed.

Lemma math_sin_finite (x : float) :
  Num.is_inf x = false -> math_sin libm_sin x = Ok (libm_sin x).
Proof. intros H. unfold math_sin. rewrite H. reflexivity. Qed.

Lemma star_outer_polar (pos : Z * Z) (n : number) (px py s a : float) :
  Num.float_of_int (fst pos) = Ok px -> Num.float_of_int (snd pos) = Ok py ->
  Num.to_float n = Ok s ->
  Num.is_inf a = false ->
  star_outer libm_cos libm_sin pos (VNum n) a
  = Ok (PyFloat (PrimFloat.add px (PrimFloat.mul s (libm_cos a))),
        PyFloat (PrimFloat.add py (PrimFloat.mul s (libm_sin a)))).
Proof.
  intros Hx Hy Hs Hk. unfold star_outer.
  rewrite (math_cos_finite _ Hk), (math_sin_finite _ Hk). simpl.
  rewrite !(mul_by_float _ _ _ Hs). simpl.
  rewrite Hx, Hy. reflexivity.
Qed.

Lemma star_inner_polar (pos : Z * Z) (n : number) (px py s a : float) :
  Num.float_of_int (fst pos) = Ok px -> Num.float_of_int (snd pos) = Ok py ->
  Num.to_float n = Ok s ->
  Num.is_inf a = false ->
  star_inner libm_cos libm_sin pos (VNum n) a
  = Ok (PyFloat (PrimFloat.add px (PrimFloat.mul (PrimFloat.mul s 0.5) (libm_cos a))),
        PyFloat (PrimFloat.add py (PrimFloat.mul (PrimFloat.mul s 0.5) (libm_sin a)))).
Proof.
  intros Hx Hy Hs Hk. unfold star_inner. simpl.
  rewrite !(mul_by_float _ _ _ Hs). simpl.
  rewrite (math_cos_finite _ Hk), (math_sin_finite _ Hk). simpl.
  rewrite Hx, Hy. reflexivity.
Qed.

Lemma star_points_polar (pos : Z * Z) (n : number) (px py s : float) :
  Num.float_of_int (fst pos) = Ok px -> Num.float_of_int (snd pos) = Ok py ->
  Num.to_float n = Ok s ->
  star_points libm_cos libm_sin pos (VNum n) [0; 1; 2; 3; 4]%Z []
  = Ok (flat_map (fun k => [outer_vertex libm_cos libm_sin px py s k;
                          inner_vertex libm_cos libm_sin px py s k])
          [0; 1; 2; 3; 4]%Z).
Proof.
  intros Hx Hy Hs. cbn [star_points].
  repeat (erewrite (star_outer_polar pos n px py s);
            [|eassumption|eassumption|eassumption|vm_compute; reflexivity];
          cbn [rbind];
          erewrite (star_inner_polar pos n px py s);
            [|eassumption|eassumption|eassumption|vm_compute; reflexivity];
          cbn [rbind]).
  reflexivity.
Qed.

(** C9: DRAW Star sends one polygon of ten points, an outer and an inner
    vertex in turn for k = 0, ..., 4.  Around the position [(ix, iy)] the
    shape is drawn at (the integer parts of the coordinates given, or of
    the cursor's), the outer vertex of index k is at the angle (4 k pi) / 5
    and the radius [size], its inner vertex at that angle plus (2 pi) / 5
    and the radius [size * 0.5]; the first angle is 0.  Sums, products and
    quotients are those of floats, in the order of the source. *)
Theorem draw_star_polygon (size : number) (x y : option value) (st : state)
    (ix iy : Z) (px py s : float) :
  match x with Some v => value_to_int v | None => Num.to_int (cur_x (cursor st)) end
  = Ok ix ->
  match y with Some v => value_to_int v | None => Num.to_int (cur_y (cursor st)) end
  = Ok iy ->
  Num.float_of_int ix = Ok px ->
  Num.float_of_int iy = Ok py ->
  Num.to_float size = Ok s ->
  let points :=
    flat_map (fun k => [outer_vertex libm_cos libm_sin px py s k;
                          inner_vertex libm_cos libm_sin px py s k])
      [0; 1; 2; 3; 4]%Z in
  draw_shape libm_cos libm_sin "Star" (VNum size) x y st
  = (Ok tt,
     {| symbols := symbols st; call_stack := call_stack st; cursor := cursor st;
        drawn := drawn st ++ [Polygon (cur_color (cursor st)) points 2];
        choices := choices st |})
  /\ length points = 10
  /\ star_angle 0 = 0%float
  /\ star_angle 1 = PrimFloat.div (PrimFloat.mul 4 math_pi) 5
  /\ star_angle 2 = PrimFloat.div (PrimFloat.mul 8 math_pi) 5
  /\ star_angle 3 = PrimFloat.div (PrimFloat.mul 12 math_pi) 5
  /\ star_angle 4 = PrimFloat.div (PrimFloat.mul 16 math_pi) 5
  /\ (forall k, star_inner_angle k
                = PrimFloat.add (star_angle k) (PrimFloat.div (PrimFloat.mul 2 math_pi) 5)).
Proof.
  intros Hpx Hpy Hx Hy Hs points.
  split; [|repeat split; vm_compute; reflexivity].
  unfold draw_shape, bind, lift, get_cursor. rewrite Hpx, Hpy.
  change (String.eqb "Star" "Circle") with false.
  change (String.eqb "Star" "Square") with false.
  change (String.eqb "Star" "Star") with true. cbv iota.
  rewrite (star_points_polar (ix, iy) size px py s Hx Hy Hs). reflexivity.
Qed.

End InterpreterProperties.

(** ** Blocks that are not closed *)

Lemma exec_define_unterminated (tokens : list token) (i j : nat) (st : state)
    (name : token) (params : list token) :
  tokens !! (i + 1) = Some name -> tokens !! (i + 2) = Some "(" ->
  define_params (scan_fuel tokens (i + 3)) tokens (i + 3) [] = Ok (params, j) ->
  tokens !! (j + 1) = Some "{" ->
  (forall k, ~ closes_at tokens (j + 2) k) ->
  exec_define tokens i st
  = (Ok (length tokens),
     with_symbols st
       (<[name := VFunc params (removelast (drop (j + 2) tokens))]> (symbols st))).
Proof.
  intros Hn Ho Hp Hb Hno.
  assert (Hmax : Nat.max (j + 2) (length tokens) = length tokens).
  { apply lookup_lt_Some in Hb. lia. }
  unfold exec_define, bind, lift, getitem, raise.
  rewrite Hn, Ho, String.eqb_refl. cbn [negb]. rewrite Hp, Hb, String.eqb_refl.
  cbn [negb]. rewrite (find_block_end_unmatched _ _ Hno), slice_unmatched_body, Hmax.
  reflexivity.
Qed.

Lemma exec_if_unterminated (interpret_body : list token -> M unit)
    (tokens : list token) (i new_i : nat) (st : state) (cond : condition) :
  parse_condition tokens (i + 1) = Ok (cond, new_i) ->
  tokens !! new_i = Some "{" ->
  (forall k, ~ closes_at tokens (new_i + 1) k) ->
  exec_if interpret_body tokens i st
  = (let! b := lift (eval_condition (symbols st) cond) in
     let! _ := if b : bool then interpret_body (removelast (drop (new_i + 1) tokens))
               else ret tt in
     ret (length tokens)) st.
Proof.
  intros Hc Hb Hno.
  assert (Hmax : Nat.max (new_i + 1) (length tokens) = length tokens).
  { apply lookup_lt_Some in Hb. lia. }
  unfold exec_if, bind, lift, getitem, raise, get_symbols.
  rewrite Hc, Hb, String.eqb_refl. cbn [negb].
  rewrite (find_block_end_unmatched _ _ Hno), slice_unmatched_body, Hmax.
  reflexivity.
Qed.

Lemma exec_while_unterminated (interpret_body : list token -> M unit) (fuel : nat)
    (tokens : list token) (i new_i : nat) (st : state) (cond : condition) :
  parse_condition tokens (i + 1) = Ok (cond, new_i) ->
  tokens !! new_i = Some "{" ->
  (forall k, ~ closes_at tokens (new_i + 1) k) ->
  exec_while interpret_body fuel tokens i st
  = (let! _ := while_loop (interpret_body (removelast (drop (new_i + 1) tokens)))
                 fuel cond in
     ret (length tokens)) st.
Proof.
  intros Hc Hb Hno.
  assert (Hmax : Nat.max (new_i + 1) (length tokens) = length tokens).
  { apply lookup_lt_Some in Hb. lia. }
  unfold exec_while, bind, lift, getitem, raise.
  rewrite Hc, Hb, String.eqb_refl. cbn [negb].
  rewrite (find_block_end_unmatched _ _ Hno), slice_unmatched_body, Hmax.
  reflexivity.
Qed.

(** C10: [find_block_end] returns on every token list and, as at each of
    its calls, every start index up to the length of the list (the caller
    has read the "{" before it): the index just after the matching "}" when
    there is one, and the length of the list when there is none.  A DEFINE,
    IF or WHILE whose block is not closed then raises nothing for it: its
    body is everything after the "{" but the last token, stored by DEFINE
    and interpreted by IF and WHILE, and the statement ends at the end of
    the list. *)
Theorem find_block_end_spec :
  (forall tokens start, exists e, find_block_end tokens start = Ok e)
  /\ (forall tokens start k,
        closes_at tokens start k -> find_block_end tokens start = Ok (k + 1))
  /\ (forall tokens start,
        start <= length tokens ->
        (forall k, ~ closes_at tokens start k) ->
        find_block_end tokens start = Ok (length tokens))
  /\ (forall tokens i j st name params,
        tokens !! (i + 1) = Some name -> tokens !! (i + 2) = Some "(" ->
        define_params (scan_fuel tokens (i + 3)) tokens (i + 3) [] = Ok (params, j) ->
        tokens !! (j + 1) = Some "{" ->
        (forall k, ~ closes_at tokens (j + 2) k) ->
        exec_define tokens i st
        = (Ok (length tokens),
           with_symbols st
             (<[name := VFunc params (removelast (drop (j + 2) tokens))]> (symbols st))))
  /\ (forall interpret_body tokens i new_i st cond,
        parse_condition tokens (i + 1) = Ok (cond, new_i) ->
        tokens !! new_i = Some "{" ->
        (forall k, ~ closes_at tokens (new_i + 1) k) ->
        exec_if interpret_body tokens i st
        = (let! b := lift (eval_condition (symbols st) cond) in
           let! _ := if b : bool
                     then interpret_body (removelast (drop (new_i + 1) tokens))
                     else ret tt in
           ret (length tokens)) st)
  /\ (forall interpret_body fuel tokens i new_i st cond,
        parse_condition tokens (i + 1) = Ok (cond, new_i) ->
        tokens !! new_i = Some "{" ->
        (forall k, ~ closes_at tokens (new_i + 1) k) ->
        exec_while interpret_body fuel tokens i st
        = (let! _ := while_loop
                       (interpret_body (removelast (drop (new_i + 1) tokens)))
                       fuel cond in
           ret (length tokens)) st).
Proof.
  split; [exact find_block_end_total|].
  split; [exact find_block_end_matched|].
  split.
  { intros tokens start Hstart Hno. rewrite (find_block_end_unmatched _ _ Hno).
    rewrite Nat.max_r by exact Hstart. reflexivity. }
  split; [exact exec_define_unterminated|].
  split; [exact exec_if_unterminated|exact exec_while_unterminated].
Qed.

Lemma no_closing_brace (tokens : list token) (start : nat) :
  mem "}" tokens = false -> forall k, ~ closes_at tokens start k.
Proof.
  intros Hmem k (_ & Hk & _).
  apply list_elem_of_lookup_2, list_elem_of_In in Hk.
  assert (H : mem "}" tokens = true).
  { unfold mem. apply existsb_exists. exists "}". split; [exact Hk|reflexivity]. }
  congruence.
Qed.

Lemma find_block_end_spec_witness :
  find_block_end unterminated_if 5 = Ok 10
  /\ exec_if (fun body => set_symbols (list_to_map [("body", VFunc [] body)]))
       unterminated_if 0 initial_state
     = (Ok 10,
        with_symbols initial_state
          (list_to_map [("body", VFunc [] ["SET"; "x"; "="; "7"])])).
Proof.
  split.
  - apply (proj1 (proj2 (proj2 find_block_end_spec)) unterminated_if 5).
    + simpl. lia.
    + apply no_closing_brace. reflexivity.
  - rewrite (proj1 (proj2 (proj2 (proj2 (proj2 find_block_end_spec))))
               _ unterminated_if 0 4 initial_state (Cond (Lit 1) Gt_ (Lit 0))).
    + vm_compute. reflexivity.
    + vm_compute. reflexivity.
    + reflexivity.
    + apply no_closing_brace. reflexivity.
Defined.

(** ** Closed instances *)

Lemma call_restores_caller_environment_witness :
  let cos_ := fun x : float => x in
  let rb := fun _ _ : nat => 0 in
  let st' := snd (exec_statement cos_ cos_ rb (interpret cos_ cos_ rb 3) 3
                    shadowing_call_tokens 15 after_shadowing_call) in
  symbols st' = symbols after_shadowing_call
  /\ call_stack st' = call_stack after_shadowing_call.
Proof.
  cbv zeta.
  apply (call_restores_caller_environment (fun x => x) (fun x => x) (fun _ _ => 0)
           3 shadowing_call_tokens 15 20 after_shadowing_call).
  - reflexivity.
  - vm_compute. reflexivity.
Defined.

(** C1 as stated fails in the exception it makes: a SET in the body against
    the name of a parameter does not survive the return.  In the
    specification's own test [x] is 1 after the call and not 99, and a
    parameter the caller did not hold is unbound again. *)
Lemma set_against_parameter_does_not_survive :
  (forall cos_ sin_ rb, run cos_ sin_ rb 4 shadowing_call = (Ok tt, after_shadowing_call))
  /\ symbols after_shadowing_call !! "x" = Some (VNum (PyFloat 1))
  /\ symbols after_shadowing_call !! "x" <> Some (VNum (PyFloat 99))
  /\ (forall cos_ sin_ rb, run cos_ sin_ rb 4 parameter_call = (Ok tt, after_parameter_call))
  /\ symbols after_parameter_call !! "p" = None.
Proof.
  split; [intros; vm_compute; reflexivity|].
  split; [vm_compute; reflexivity|].
  split; [vm_compute; discriminate|].
  split; [intros; vm_compute; reflexivity|].
  vm_compute. reflexivity.
Qed.

Lemma call_errors_before_any_effect_witness :
  statement_loop
    (exec_statement (fun x => x) (fun x => x) (fun _ _ => 0)
       (interpret (fun x => x) (fun x => x) (fun _ _ => 0) 1) 1 short_call)
    1 (length short_call) 12 before_short_call
  = (Raise (Exception "Function g expects 2 arguments, got 1"), before_short_call)
  /\ drawn before_short_call = [].
Proof.
  split; [|reflexivity].
  apply (proj2 (call_errors_before_any_effect (fun x => x) (fun x => x) (fun _ _ => 0)
                  (interpret (fun x => x) (fun x => x) (fun _ _ => 0) 1) 1 0
                  short_call 12 16 before_short_call "g" [Lit 1]
                  eq_refl eq_refl eq_refl ltac:(vm_compute; reflexivity))
           ["a"; "b"] ["MOVE"; "10"; "Forward"]).
  - vm_compute. reflexivity.
  - simpl. lia.
Defined.

(** The whole program of the arity test stops on the exception with
    nothing drawn. *)
Lemma short_call_program (cos_ sin_ : float -> float) (rb : nat -> nat -> nat) :
  run cos_ sin_ rb 3 "DEFINE g ( a , b ) { MOVE 10 Forward } CALL g ( 1 )"
  = (Raise (Exception "Function g expects 2 arguments, got 1"), before_short_call).
Proof. vm_compute. reflexivity. Qed.

Lemma draw_star_polygon_witness :
  let cos_ := fun x : float => x in
  length (drawn (snd (draw_shape cos_ cos_ "Star" (VNum (PyFloat 15))
                        (Some (VNum (PyFloat 400))) (Some (VNum (PyFloat 300)))
                        initial_state))) = 1.
Proof.
  cbv zeta.
  rewrite (proj1 (draw_star_polygon (fun x => x) (fun x => x) (PyFloat 15)
                    (Some (VNum (PyFloat 400))) (Some (VNum (PyFloat 300)))
                    initial_state 400 300 400 300 15
                    ltac:(vm_compute; reflexivity) ltac:(vm_compute; reflexivity)
                    ltac:(vm_compute; reflexivity) ltac:(vm_compute; reflexivity)
                    eq_refl)).
  reflexivity.
Defined.

Lemma while_runs_until_condition_false_witness :
  let id_ := fun x : float => x in
  let rb := fun _ _ : nat => 0 in
  let tokens := ["SET"; "i"; "="; "0"; "WHILE"; "i"; "<"; "5"; "{";
                 "SET"; "i"; "="; "i"; "+"; "1"; "}"] in
  exists cond new_i n,
    parse_condition tokens (4 + 1) = Ok (cond, new_i)
    /\ find_block_end tokens (new_i + 1) = Ok 16
    /\ iterates (interpret id_ id_ rb 7 (slice tokens (new_i + 1) (16 - 1))) cond n
         (counting_state 0) (counting_state 5)
    /\ eval_condition (symbols (counting_state 5)) cond = Ok false.
Proof.
  cbv zeta.
  apply (proj1 (while_runs_until_condition_false (fun x => x) (fun x => x) (fun _ _ => 0))
           (interpret (fun x => x) (fun x => x) (fun _ _ => 0) 7) 7).
  vm_compute. reflexivity.
Defined.

Lemma tokenize_total_witness :
  tokenize "IF a!!=b{" = Ok ["IF"; "a"; "!"; "!="; "b"; "{"]
  /\ tokenize_spec "IF a!!=b{" !! 2 = Some "!"
  /\ tokenize_spec "IF a!!=b{" !! (2 + 1) <> Some "=".
Proof.
  split; [rewrite (proj1 (tokenize_total _)); vm_compute; reflexivity|].
  split; [vm_compute; reflexivity|].
  apply (proj2 (proj2 (tokenize_total "IF a!!=b{")) 2). vm_compute. reflexivity.
Defined.

(** * Further properties *)

(** ** What the parser returns *)

Lemma operator_loop_outcome (operand : nat -> parsed) (ops : list (string * binop))
    (tokens : list token) (stop : list string) (i0 : nat) :
  (forall j, i0 <= j -> parse_outcome tokens (j + 1) (operand j)) ->
  forall (fuel : nat) (node : expr) (i : nat),
    i0 <= i + 1 -> i <= length tokens -> length tokens - i <= fuel ->
    parse_outcome tokens i (operator_loop operand ops fuel tokens stop node i).
Proof.
  intros Hop. induction fuel as [|fuel IH]; intros node i Hi0 Hlen Hfuel.
  - simpl. destruct (operator_at ops tokens stop i) eqn:Hat.
    + apply operator_at_lt in Hat. lia.
    + simpl. lia.
  - simpl. destruct (operator_at ops tokens stop i) eqn:Hat; [|simpl; lia].
    apply operator_at_lt in Hat.
    pose proof (Hop (i + 1) Hi0) as Hrhs.
    destruct (operand (i + 1)) as [[rhs i2]|[]|]; simpl in *; try exact Hrhs.
    pose proof (IH (BinOp b node rhs) i2 ltac:(lia) ltac:(lia) ltac:(lia)) as Hrec.
    destruct (operator_loop operand ops fuel tokens stop (BinOp b node rhs) i2)
      as [[e i3]|[]|]; simpl in *; try exact Hrec. lia.
Qed.

Lemma parse_factor_outcome
    (pe : list token -> nat -> list string -> parsed)
    (tokens : list token) (stop : list string) (j : nat) :
  (j < length tokens -> forall stop', parse_outcome tokens (j + 2) (pe tokens (j + 1) stop')) ->
  parse_outcome tokens (j + 1) (parse_factor pe tokens j stop).
Proof.
  intros Hpe. unfold parse_factor.
  destruct (length tokens <=? j) eqn:Hj; [exact I|].
  apply Nat.leb_gt in Hj.
  destruct (lookup_lt_is_Some_2 tokens j Hj) as [t Ht].
  unfold getitem. rewrite Ht. simpl.
  destruct (mem t stop); [exact I|].
  destruct (String.eqb t "(").
  - pose proof (Hpe Hj (")" :: stop)) as Hsub.
    destruct (pe tokens (j + 1) (")" :: stop)) as [[node i2]|[]|]; simpl in *;
      try exact Hsub.
    destruct (length tokens <=? i2) eqn:Hi2; simpl; [exact I|].
    apply Nat.leb_gt in Hi2.
    destruct (negb (tok_is tokens i2 ")")); simpl; [exact I|]. lia.
  - destruct (Str.isdigit (Str.remove_first t ".")).
    + unfold Num.float_of_literal.
      destruct (Num.read_digits t 0 0 false) as [[m k]|]; simpl; [lia|exact I].
    + match goal with |- context [if ?b then _ else _] => destruct b end;
        simpl; [lia|exact I].
Qed.

Lemma parse_term_outcome
    (pe : list token -> nat -> list string -> parsed)
    (fuel : nat) (tokens : list token) (stop : list string) (i : nat) :
  (forall j stop', i < j <= length tokens ->
                   parse_outcome tokens (j + 1) (pe tokens j stop')) ->
  length tokens - i <= fuel ->
  forall j, i <= j -> parse_outcome tokens (j + 1) (parse_term pe fuel tokens j stop).
Proof.
  intros Hpe Hfuel j Hj.
  assert (Hfactor : forall k, i <= k ->
            parse_outcome tokens (k + 1) (parse_factor pe tokens k stop)).
  { intros k Hk. apply parse_factor_outcome. intros Hlt stop'.
    replace (k + 2) with (k + 1 + 1) by lia. apply Hpe. lia. }
  unfold parse_term.
  pose proof (Hfactor j Hj) as Hf.
  destruct (parse_factor pe tokens j stop) as [[node i1]|[]|]; simpl in *; try exact Hf.
  pose proof (operator_loop_outcome (fun k => parse_factor pe tokens k stop)
                term_ops tokens stop i Hfactor fuel node i1
                ltac:(lia) ltac:(lia) ltac:(lia)) as Hloop.
  destruct (operator_loop _ term_ops fuel tokens stop node i1) as [[e i2]|[]|];
    simpl in *; try exact Hloop. lia.
Qed.

Lemma parse_expression_fuel_outcome (fuel : nat) (tokens : list token) (i : nat)
    (stop : list string) :
  length tokens - i < fuel ->
  parse_outcome tokens (i + 1) (parse_expression_fuel fuel tokens i stop).
Proof.
  revert i stop. induction fuel as [|fuel IH]; intros i stop Hfuel; [lia|].
  assert (Hterm : forall j, i <= j ->
            parse_outcome tokens (j + 1)
              (parse_term (parse_expression_fuel fuel) fuel tokens j stop)).
  { apply parse_term_outcome; [|lia]. intros j stop' Hj. apply IH. lia. }
  simpl.
  pose proof (Hterm i ltac:(lia)) as Ht.
  destruct (parse_term (parse_expression_fuel fuel) fuel tokens i stop)
    as [[node i1]|[]|]; simpl in *; try exact Ht.
  pose proof (operator_loop_outcome
                (fun k => parse_term (parse_expression_fuel fuel) fuel tokens k stop)
                expression_ops tokens stop i Hterm fuel node i1
                ltac:(lia) ltac:(lia) ltac:(lia)) as Hloop.
  destruct (operator_loop _ expression_ops fuel tokens stop node i1) as [[e i2]|[]|];
    simpl in *; try exact Hloop. lia.
Qed.

Lemma parse_expression_outcome (tokens : list token) (i : nat) (stop : list string) :
  parse_outcome tokens (i + 1) (parse_expression tokens i stop).
Proof. apply parse_expression_fuel_outcome. unfold parse_fuel. lia. Qed.

Lemma parse_condition_outcome (tokens : list token) (i : nat) :
  parse_outcome tokens (i + 3) (parse_condition tokens i).
Proof.
  unfold parse_condition.
  pose proof (parse_expression_outcome tokens i [">"; "<"; "="; "!="]) as H.
  destruct (parse_expression tokens i [">"; "<"; "="; "!="]) as [[lhs i1]|[]|];
    simpl in *; try exact H.
  destruct (length tokens <=? i1) eqn:Hi1; [exact I|].
  apply Nat.leb_gt in Hi1.
  destruct (lookup_lt_is_Some_2 tokens i1 Hi1) as [op Hop].
  unfold getitem. rewrite Hop. simpl.
  destruct (relop_of_token op); [|exact I].
  pose proof (parse_expression_outcome tokens (i1 + 1) ["{"]) as H'.
  destruct (parse_expression tokens (i1 + 1) ["{"]) as [[rhs i2]|[]|];
    simpl in *; try exact H'. lia.
Qed.

(** X1: the recursive descent always comes back.  From any index and with
    any stop tokens, [parse_expression] either returns a tree with an index
    that has moved forward and is at most [len(tokens)], or raises the
    exception of a syntax error, or the [ValueError] of [float]; and
    [parse_condition], which reads two expressions and an operator, returns
    an index at least three further, or fails in the same two ways. *)
Theorem parser_returns_within_tokens (tokens : list token) (i : nat)
    (stop_tokens : list string) :
  parse_outcome tokens (i + 1) (parse_expression tokens i stop_tokens)
  /\ parse_outcome tokens (i + 3) (parse_condition tokens i).
Proof.
  split; [apply parse_expression_outcome|apply parse_condition_outcome].
Qed.
(** ** Statements move forward *)

Lemma scan_block_bounds (rest : list token) (depth : Z) (i : nat) :
  i <= scan_block rest depth i <= i + length rest.
Proof.
  revert depth i. induction rest as [|t rest IH]; intros depth i; simpl; [lia|].
  destruct (0 <? depth)%Z; [|lia].
  specialize (IH (depth + brace_delta t)%Z (i + 1)). lia.
Qed.

Lemma find_block_end_bounds (tokens : list token) (start e : nat) :
  find_block_end tokens start = Ok e ->
  start <= e <= Nat.max start (length tokens).
Proof.
  rewrite find_block_end_scan. intros H. injection H as <-.
  pose proof (scan_block_bounds (drop start tokens) 1 start) as Hb.
  rewrite length_drop in Hb. lia.
Qed.

Lemma define_params_index (fuel : nat) (tokens : list token) (j j' : nat)
    (params params' : list token) :
  define_params fuel tokens j params = Ok (params', j') ->
  j <= j' /\ tokens !! j' = Some ")".
Proof.
  revert j params. induction fuel as [|fuel IH]; intros j params H; [discriminate|].
  simpl in H. unfold getitem in H.
  destruct (tokens !! j) as [t|] eqn:Ht; simpl in H; [|discriminate].
  destruct (String.eqb_spec t ")") as [->|_]; simpl in H.
  - injection H as _ <-. split; [lia|exact Ht].
  - apply IH in H. split; [lia|apply H].
Qed.

Lemma call_args_index (fuel : nat) (tokens : list token) (j j' : nat)
    (args args' : list expr) (arg_tokens arg_tokens' : list token) :
  call_args fuel tokens j args arg_tokens = Ok (args', arg_tokens', j') ->
  j <= j' /\ tokens !! j' = Some ")".
Proof.
  revert j args arg_tokens.
  induction fuel as [|fuel IH]; intros j args arg_tokens H; [discriminate|].
  simpl in H. unfold getitem in H.
  destruct (tokens !! j) as [t|] eqn:Ht; simpl in H; [|discriminate].
  destruct (String.eqb_spec t ")") as [->|_]; simpl in H.
  - injection H as _ _ <-. split; [lia|exact Ht].
  - destruct (String.eqb t ",").
    + destruct arg_tokens as [|a arg_tokens].
      * apply IH in H. split; [lia|apply H].
      * destruct (parse_full_expression (a :: arg_tokens)); simpl in H;
          try discriminate.
        apply IH in H. split; [lia|apply H].
    + apply IH in H. split; [lia|apply H].
Qed.

Lemma parse_call_arguments_index (tokens : list token) (j j' : nat) (args : list expr) :
  parse_call_arguments tokens j = Ok (args, j') ->
  j <= j' /\ tokens !! j' = Some ")".
Proof.
  unfold parse_call_arguments. intros H.
  destruct (call_args (scan_fuel tokens j) tokens j [] [])
    as [[[args0 arg_tokens] j0]| |] eqn:Hc; simpl in H; try discriminate.
  apply call_args_index in Hc.
  destruct arg_tokens as [|a arg_tokens].
  - injection H as _ <-. exact Hc.
  - destruct (parse_full_expression (a :: arg_tokens)); simpl in H; try discriminate.
    injection H as _ <-. exact Hc.
Qed.

Ltac bind_step H :=
  let a := fresh "a" in
  let st1 := fresh "st" in
  let H1 := fresh "Hstep" in
  apply bind_ok_inv in H as (a & st1 & H1 & H);
  try (apply lift_ok_inv in H1 as [H1 ->]).

Ltac ret_step H := injection H as <- _.

Lemma getitem_ok (tokens : list token) (i : nat) (t : token) :
  getitem tokens i = Ok t -> i < length tokens.
Proof.
  unfold getitem. destruct (tokens !! i) eqn:Ht; [|discriminate].
  intros _. eapply lookup_lt_Some. exact Ht.
Qed.

Lemma parse_expression_ok (tokens : list token) (i i' : nat) (stop : list string)
    (e : expr) :
  parse_expression tokens i stop = Ok (e, i') -> i + 1 <= i' <= length tokens.
Proof.
  intros H. pose proof (parse_expression_outcome tokens i stop) as Ho.
  rewrite H in Ho. exact Ho.
Qed.

Lemma parse_condition_ok (tokens : list token) (i i' : nat) (c : condition) :
  parse_condition tokens i = Ok (c, i') -> i + 3 <= i' <= length tokens.
Proof.
  intros H. pose proof (parse_condition_outcome tokens i) as Ho.
  rewrite H in Ho. exact Ho.
Qed.

Section StatementProgress.

Variable libm_cos : float -> float.
Variable libm_sin : float -> float.
Variable randbelow : nat -> nat -> nat.

Lemma exec_set_progress (tokens : list token) (i i' : nat) (st st' : state) :
  exec_set tokens i st = (Ok i', st') -> i < i' <= length tokens.
Proof.
  unfold exec_set. intros H. bind_step H. bind_step H.
  destruct (negb (String.eqb a0 "=")); [discriminate|].
  bind_step H. destruct a1 as [e new_i]. apply parse_expression_ok in Hstep1.
  bind_step H. bind_step H. bind_step H. ret_step H. lia.
Qed.

Lemma exec_define_progress (tokens : list token) (i i' : nat) (st st' : state) :
  exec_define tokens i st = (Ok i', st') -> i < i' <= length tokens.
Proof.
  unfold exec_define. intros H. bind_step H. bind_step H.
  destruct (negb (String.eqb a0 "(")); [discriminate|].
  cbv zeta in H. bind_step H. destruct a1 as [params j].
  apply define_params_index in Hstep1 as [Hj _].
  bind_step H. apply getitem_ok in Hstep1.
  destruct (negb (String.eqb a1 "{")); [discriminate|].
  bind_step H. apply find_block_end_bounds in Hstep2.
  bind_step H. bind_step H. ret_step H. lia.
Qed.

Lemma exec_call_progress (interpret_body : list token -> M unit)
    (tokens : list token) (i i' : nat) (st st' : state) :
  exec_call interpret_body tokens i st = (Ok i', st') -> i < i' <= length tokens.
Proof.
  unfold exec_call. intros H. bind_step H. bind_step H.
  destruct (negb (String.eqb a0 "(")); [discriminate|].
  cbv zeta in H. bind_step H. destruct a1 as [args j].
  apply parse_call_arguments_index in Hstep1 as [Hj Hclose].
  apply lookup_lt_Some in Hclose.
  bind_step H. destruct (a1 !! a) as [[n|params body]|]; try discriminate.
  destruct (negb (length args =? length params)); [discriminate|].
  do 6 bind_step H. ret_step H. lia.
Qed.

Lemma exec_if_progress (interpret_body : list token -> M unit)
    (tokens : list token) (i i' : nat) (st st' : state) :
  exec_if interpret_body tokens i st = (Ok i', st') -> i < i' <= length tokens.
Proof.
  unfold exec_if. intros H. bind_step H. destruct a as [cond new_i].
  apply parse_condition_ok in Hstep.
  bind_step H. apply getitem_ok in Hstep0.
  destruct (negb (String.eqb a "{")); [discriminate|].
  cbv zeta in H. bind_step H. apply find_block_end_bounds in Hstep1.
  do 3 bind_step H. ret_step H. lia.
Qed.

Lemma exec_while_progress (interpret_body : list token -> M unit) (fuel : nat)
    (tokens : list token) (i i' : nat) (st st' : state) :
  exec_while interpret_body fuel tokens i st = (Ok i', st') -> i < i' <= length tokens.
Proof.
  unfold exec_while. intros H. bind_step H. destruct a as [cond new_i].
  apply parse_condition_ok in Hstep.
  bind_step H. apply getitem_ok in Hstep0.
  destruct (negb (String.eqb a "{")); [discriminate|].
  cbv zeta in H. bind_step H. apply find_block_end_bounds in Hstep1.
  bind_step H. ret_step H. lia.
Qed.

Lemma exec_move_progress (tokens : list token) (i i' : nat) (st st' : state) :
  exec_move libm_cos libm_sin tokens i st = (Ok i', st') -> i < i' <= length tokens.
Proof.
  unfold exec_move. intros H. bind_step H. destruct a as [e new_i].
  apply parse_expression_ok in Hstep.
  bind_step H. bind_step H. apply getitem_ok in Hstep1.
  bind_step H. ret_step H. lia.
Qed.

Lemma exec_turn_progress (tokens : list token) (i i' : nat) (st st' : state) :
  exec_turn tokens i st = (Ok i', st') -> i < i' <= length tokens.
Proof.
  unfold exec_turn. intros H. bind_step H. destruct a as [e new_i].
  apply parse_expression_ok in Hstep.
  bind_step H. bind_step H. apply getitem_ok in Hstep1.
  bind_step H. bind_step H. ret_step H. lia.
Qed.

Lemma exec_draw_progress (tokens : list token) (i i' : nat) (st st' : state) :
  exec_draw libm_cos libm_sin tokens i st = (Ok i', st') -> i < i' <= length tokens.
Proof.
  unfold exec_draw. intros H. bind_step H. bind_step H. destruct a0 as [e new_i].
  apply parse_expression_ok in Hstep0.
  bind_step H. cbv zeta in H.
  destruct ((new_i <? length tokens) && tok_is tokens new_i "AT").
  - bind_step H. destruct a1 as [x_expr i2]. apply parse_expression_ok in Hstep2.
    bind_step H. bind_step H. apply getitem_ok in Hstep4.
    bind_step H. destruct a3 as [y_expr i4]. apply parse_expression_ok in Hstep5.
    bind_step H. bind_step H. ret_step H.
    destruct (String.eqb a2 ","); lia.
  - bind_step H. ret_step H. lia.
Qed.

Lemma exec_color_progress (tokens : list token) (i i' : nat) (st st' : state) :
  exec_color randbelow tokens i st = (Ok i', st') -> i < i' <= length tokens.
Proof.
  unfold exec_color. intros H. bind_step H. apply getitem_ok in Hstep.
  bind_step H. ret_step H. lia.
Qed.

(** X3: whatever the state and whatever the recursive calls do, a
    statement that returns hands back an index strictly after its keyword
    and at most [len(tokens)]: the [while] loop of [interpret] never stays
    on a statement and never steps over the end of the token list. *)
Theorem statement_moves_forward (interpret_body : list token -> M unit) (fuel : nat)
    (tokens : list token) (i i' : nat) (st st' : state) :
  exec_statement libm_cos libm_sin randbelow interpret_body fuel tokens i st
  = (Ok i', st') ->
  i < i' <= length tokens.
Proof.
  unfold exec_statement. intros H. bind_step H. apply getitem_ok in Hstep.
  repeat match type of H with
         | (if ?b then _ else _) _ = _ => destruct b
         end.
  - eapply exec_set_progress; exact H.
  - eapply exec_define_progress; exact H.
  - eapply exec_call_progress; exact H.
  - eapply exec_if_progress; exact H.
  - eapply exec_while_progress; exact H.
  - eapply exec_move_progress; exact H.
  - eapply exec_turn_progress; exact H.
  - eapply exec_draw_progress; exact H.
  - eapply exec_color_progress; exact H.
  - ret_step H. lia.
Qed.

(** X2: a run of [interpret] that returns leaves [call_stack] exactly as it
    found it, however many calls were made and returned in between. *)
Theorem interpret_balances_call_stack (fuel : nat) (tokens : list token)
    (st st' : state) :
  interpret libm_cos libm_sin randbelow fuel tokens st = (Ok tt, st') ->
  call_stack st' = call_stack st.
Proof. intros H. exact (keeps_stack_interpret _ _ _ fuel tokens st tt st' H). Qed.

Lemma not_keyword_eqb (t : token) :
  mem t STATEMENT_KEYWORDS = false ->
  String.eqb t "SET" = false /\ String.eqb t "DEFINE" = false
  /\ String.eqb t "CALL" = false /\ String.eqb t "IF" = false
  /\ String.eqb t "WHILE" = false /\ String.eqb t "MOVE" = false
  /\ String.eqb t "TURN" = false /\ String.eqb t "DRAW" = false
  /\ String.eqb t "COLOR" = false.
Proof.
  unfold mem, STATEMENT_KEYWORDS. simpl. intros H.
  repeat (apply orb_false_elim in H as [? H]). repeat split; assumption.
Qed.

Lemma statement_loop_skips (interpret_body : list token -> M unit) (fuel' : nat)
    (tokens : list token) (st : state) :
  Forall (fun t => mem t STATEMENT_KEYWORDS = false) tokens ->
  forall fuel i,
    length tokens - i <= fuel ->
    statement_loop
      (exec_statement libm_cos libm_sin randbelow interpret_body fuel' tokens)
      fuel (length tokens) i st = (Ok tt, st).
Proof.
  intros Hall. induction fuel as [|fuel IH]; intros i Hfuel.
  - simpl. replace (i <? length tokens) with false
      by (symmetry; apply Nat.ltb_ge; lia). reflexivity.
  - simpl. destruct (i <? length tokens) eqn:Hi; [|reflexivity].
    apply Nat.ltb_lt in Hi.
    destruct (lookup_lt_is_Some_2 tokens i Hi) as [t Ht].
    assert (Hk : mem t STATEMENT_KEYWORDS = false).
    { rewrite Forall_forall in Hall. apply Hall.
      eapply list_elem_of_lookup_2. exact Ht. }
    apply not_keyword_eqb in Hk as (H1 & H2 & H3 & H4 & H5 & H6 & H7 & H8 & H9).
    unfold bind at 1. unfold exec_statement, bind, lift, getitem. rewrite Ht.
    rewrite H1, H2, H3, H4, H5, H6, H7, H8, H9. unfold ret.
    apply IH. lia.
Qed.

(** X4: words that are not keywords are passed over one by one.  A token
    list without any of the nine keywords is interpreted without any
    effect and without an error, numbers, braces and misspelt commands
    included; the loop needs one unit of fuel for each token. *)
Theorem unknown_tokens_are_skipped (tokens : list token) (st : state) (extra : nat) :
  Forall (fun t => mem t STATEMENT_KEYWORDS = false) tokens ->
  interpret libm_cos libm_sin randbelow (S (length tokens + extra)) tokens st
  = (Ok tt, st).
Proof.
  intros Hall. simpl. apply statement_loop_skips; [exact Hall|lia].
Qed.

End StatementProgress.

(** ** Blocks with nested braces *)

Lemma balance_app (l k : list token) : balance (l ++ k) = (balance l + balance k)%Z.
Proof. induction l as [|t l IH]; simpl; [reflexivity|]. rewrite IH. lia. Qed.

Lemma well_nested_closes (pre body rest : list token) :
  well_nested body ->
  closes_at (pre ++ body ++ "}" :: rest) (length pre) (length pre + length body).
Proof.
  intros [Hpos Hzero]. unfold closes_at, depth_at, slice.
  rewrite drop_app_length.
  split; [lia|]. split; [|split].
  - rewrite lookup_app_r by lia.
    replace (length pre + length body - length pre) with (length body) by lia.
    rewrite lookup_app_r by lia. rewrite Nat.sub_diag. reflexivity.
  - intros j Hj. rewrite take_app_le by lia. specialize (Hpos (j - length pre)). lia.
  - replace (length pre + length body + 1 - length pre) with (length body + 1) by lia.
    rewrite take_app, take_ge by lia.
    replace (length body + 1 - length body) with 1 by lia.
    rewrite balance_app. simpl. change (brace_delta "}") with (-1)%Z. lia.
Qed.

(** X5: braces nested inside a block do not end it.  When the tokens after
    an opening brace are a body whose own braces are matched, then "}",
    then anything, [find_block_end] returns the index just after that "}"
    and the slice the callers take is the body, whatever the depth of the
    nesting and whatever comes before and after. *)
Theorem block_body_round_trip (pre body rest : list token) :
  well_nested body ->
  find_block_end (pre ++ body ++ "}" :: rest) (length pre)
  = Ok (length pre + length body + 1)
  /\ slice (pre ++ body ++ "}" :: rest) (length pre) (length pre + length body + 1 - 1)
     = body.
Proof.
  intros Hbody. split.
  - apply find_block_end_matched, well_nested_closes, Hbody.
  - unfold slice. rewrite drop_app_length.
    replace (length pre + length body + 1 - 1 - length pre) with (length body) by lia.
    apply take_app_length.
Qed.

(** ** The parameters of a DEFINE *)

Lemma slice_cons (tokens : list token) (j j' : nat) (t : token) :
  tokens !! j = Some t -> j < j' ->
  slice tokens j j' = t :: slice tokens (j + 1) j'.
Proof.
  intros Ht Hlt. unfold slice. rewrite (lookup_drop_cons _ _ _ Ht).
  replace (j' - j) with (S (j' - (j + 1))) by lia.
  replace (j + 1) with (S j) by lia. reflexivity.
Qed.

Lemma define_params_collects (fuel : nat) (tokens : list token) (j j' : nat)
    (acc params : list token) :
  define_params fuel tokens j acc = Ok (params, j') ->
  tokens !! j' = Some ")"
  /\ (forall k, j <= k < j' -> tokens !! k <> Some ")")
  /\ params = acc ++ List.filter (fun t => negb (String.eqb t ",")) (slice tokens j j').
Proof.
  revert j acc. induction fuel as [|fuel IH]; intros j acc H; [discriminate|].
  simpl in H. unfold getitem in H.
  destruct (tokens !! j) as [t|] eqn:Ht; simpl in H; [|discriminate].
  destruct (String.eqb_spec t ")") as [->|Hne]; simpl in H.
  - injection H as <- <-. split; [exact Ht|]. split; [intros k Hk; lia|].
    unfold slice. rewrite Nat.sub_diag, take_0. simpl. rewrite app_nil_r. reflexivity.
  - pose proof (define_params_index _ _ _ _ _ _ H) as [Hj _].
    apply IH in H as (Hclose & Hfirst & ->).
    split; [exact Hclose|]. split.
    + intros k Hk. destruct (Nat.eq_dec k j) as [->|Hkj].
      * rewrite Ht. intros Heq. injection Heq as ->. contradiction.
      * apply Hfirst. lia.
    + rewrite (slice_cons tokens j j' t Ht) by lia. simpl.
      destruct (negb (String.eqb t ",")); [|reflexivity].
      rewrite <- app_assoc. reflexivity.
Qed.

(** X6: the parameter list of a DEFINE ends at the first ")" after the
    "(", and the parameters are all the tokens in between that are not a
    comma, in their order: commas separate nothing and may be left out or
    doubled, and any other token (a number, a keyword, a brace) is taken
    as a parameter name. *)
Theorem define_params_are_the_tokens_but_commas (tokens : list token) (j j' : nat)
    (params : list token) :
  define_params (scan_fuel tokens j) tokens j [] = Ok (params, j') ->
  tokens !! j' = Some ")"
  /\ (forall k, j <= k < j' -> tokens !! k <> Some ")")
  /\ params = List.filter (fun t => negb (String.eqb t ",")) (slice tokens j j').
Proof. intros H. exact (define_params_collects _ _ _ _ _ _ H). Qed.

(** ** Arithmetic on numbers never fails *)

Lemma plain_arith (opz : Z -> Z -> Z) (opf : float -> float -> float) (a b : value) :
  opz 0%Z 0%Z = 0%Z ->
  plain a -> plain b ->
  exists v, value_arith (Num.arith opz opf) a b = Ok v /\ plain v.
Proof.
  intros Hop Ha Hb.
  destruct a as [[x|f]|]; [| |contradiction];
    destruct b as [[y|g]|]; try contradiction; simpl in *; subst;
    eexists; (split; [reflexivity|]); simpl; auto.
Qed.

Lemma plain_div (a b : value) :
  plain a -> plain b -> value_ne_zero b = true ->
  exists v, value_arith Num.div a b = Ok v /\ plain v.
Proof.
  intros Ha Hb Hnz.
  destruct a as [[x|f]|]; [| |contradiction];
    destruct b as [[y|g]|]; try contradiction; simpl in *; subst;
    try discriminate; unfold Num.div; simpl in *;
    apply negb_true_iff in Hnz; rewrite Hnz;
    eexists; (split; [reflexivity|]); exact I.
Qed.

(** X7: in an environment that binds names to floats, or to the integer 0,
    every expression evaluates: a division by zero, an unbound name and a
    float overflow give a value, and that value is again a float or the
    integer 0.  Only a name bound to a function can make [eval_expr]
    raise. *)
Theorem eval_expr_total_on_numbers (syms : symtab) (e : expr) :
  (forall x v, syms !! x = Some v -> plain v) ->
  exists v, eval_expr syms e = Ok v /\ plain v.
Proof.
  intros Hsyms. induction e as [f|x|op l [lv [Hl Hpl]] r [rv [Hr Hpr]]].
  - eexists. split; [reflexivity|exact I].
  - simpl. destruct (syms !! x) as [v|] eqn:Hx.
    + exists v. split; [reflexivity|]. eapply Hsyms. exact Hx.
    + eexists. split; [reflexivity|]. reflexivity.
  - simpl. rewrite Hl, Hr. simpl. destruct op.
    + apply plain_arith; auto.
    + apply plain_arith; auto.
    + apply plain_arith; auto.
    + destruct (value_ne_zero rv) eqn:Hnz.
      * apply plain_div; assumption.
      * eexists. split; reflexivity.
Qed.

(** ** Numeric literals *)

Lemma ascii_digit (c : ascii) :
  Str.isdigit_char c = true -> (Str.ord c <? 128)%N = true ->
  Num.is_ascii_digit c = true /\ Ascii.eqb c "." = false.
Proof.
  destruct c as [[] [] [] [] [] [] [] []]; simpl; intros H1 H2;
    try discriminate; split; reflexivity.
Qed.

Lemma read_digits_digits (s : string) (m : Z) (k : nat) (point : bool) :
  Str.forallb Str.isdigit_char s = true -> is_ascii s = true ->
  exists r, Num.read_digits s m k point = Some r.
Proof.
  revert m k. induction s as [|c s IH]; intros m k Hd Ha; simpl in *.
  - eexists. reflexivity.
  - apply andb_true_iff in Hd as [Hc Hd]. apply andb_true_iff in Ha as [Hac Ha].
    destruct (ascii_digit c Hc Hac) as [-> ->]. apply IH; assumption.
Qed.

Lemma read_digits_literal (s : string) (m : Z) (k : nat) :
  Str.forallb Str.isdigit_char (Str.remove_first s ".") = true -> is_ascii s = true ->
  exists r, Num.read_digits s m k false = Some r.
Proof.
  revert m k. induction s as [|c s IH]; intros m k Hd Ha; simpl in *.
  - eexists. reflexivity.
  - apply andb_true_iff in Ha as [Hac Ha].
    destruct (Ascii.eqb c ".") eqn:Hdot.
    + apply read_digits_digits; assumption.
    + simpl in Hd. apply andb_true_iff in Hd as [Hc Hd].
      destruct (ascii_digit c Hc Hac) as [-> _]. apply IH; assumption.
Qed.

(** X9: a token of ASCII characters that passes the digit test of
    [parse_factor] is always converted by [float]: the [ValueError] of a
    numeric literal can only come from a digit that is not ASCII. *)
Theorem ascii_literal_converts (tok : string) :
  Str.isdigit (Str.remove_first tok ".") = true -> is_ascii tok = true ->
  exists f, Num.float_of_literal tok = Ok f.
Proof.
  intros Hd Ha. unfold Str.isdigit in Hd. apply andb_true_iff in Hd as [_ Hd].
  destruct (read_digits_literal tok 0 0 Hd Ha) as [[m k] Hr].
  unfold Num.float_of_literal. rewrite Hr. eexists. reflexivity.
Qed.

(** ** No division by zero *)

Lemma nzd_rbind {A B : Type} (m : result A) (k : A -> result B) :
  is_zero_division m = false -> (forall a, is_zero_division (k a) = false) ->
  is_zero_division (rbind m k) = false.
Proof. intros Hm Hk. destruct m as [a|e|]; simpl; auto. Qed.

Lemma nzd_getitem (tokens : list token) (i : nat) :
  is_zero_division (getitem tokens i) = false.
Proof. unfold getitem. destruct (tokens !! i); reflexivity. Qed.

Lemma nzd_parse_outcome {A : Type} (tokens : list token) (lo : nat)
    (r : result (A * nat)) :
  parse_outcome tokens lo r -> is_zero_division r = false.
Proof. destruct r as [[a i]|[]|]; simpl; intros H; solve [reflexivity|contradiction]. Qed.

Lemma nzd_parse_expression (tokens : list token) (i : nat) (stop : list string) :
  is_zero_division (parse_expression tokens i stop) = false.
Proof. eapply nzd_parse_outcome, parse_expression_outcome. Qed.

Lemma nzd_parse_condition (tokens : list token) (i : nat) :
  is_zero_division (parse_condition tokens i) = false.
Proof. eapply nzd_parse_outcome, parse_condition_outcome. Qed.

Lemma nzd_parse_full_expression (token_list : list token) :
  is_zero_division (parse_full_expression token_list) = false.
Proof.
  unfold parse_full_expression. apply nzd_rbind; [apply nzd_parse_expression|].
  intros [e i]. destruct (negb (i =? length token_list)); reflexivity.
Qed.

Lemma nzd_find_block_end (tokens : list token) (start : nat) :
  is_zero_division (find_block_end tokens start) = false.
Proof. rewrite find_block_end_scan. reflexivity. Qed.

Lemma nzd_define_params (fuel : nat) (tokens : list token) (j : nat)
    (params : list token) :
  is_zero_division (define_params fuel tokens j params) = false.
Proof.
  revert j params. induction fuel as [|fuel IH]; intros j params; simpl; [reflexivity|].
  apply nzd_rbind; [apply nzd_getitem|]. intros t.
  destruct (negb (String.eqb t ")")); [apply IH|reflexivity].
Qed.

Lemma nzd_call_args (fuel : nat) (tokens : list token) (j : nat)
    (args : list expr) (arg_tokens : list token) :
  is_zero_division (call_args fuel tokens j args arg_tokens) = false.
Proof.
  revert j args arg_tokens.
  induction fuel as [|fuel IH]; intros j args arg_tokens; simpl; [reflexivity|].
  apply nzd_rbind; [apply nzd_getitem|]. intros t.
  destruct (negb (String.eqb t ")")); [|reflexivity].
  destruct (String.eqb t ","); [|apply IH].
  destruct arg_tokens as [|a arg_tokens]; [apply IH|].
  apply nzd_rbind; [apply nzd_parse_full_expression|]. intros e. apply IH.
Qed.

Lemma nzd_parse_call_arguments (tokens : list token) (j : nat) :
  is_zero_division (parse_call_arguments tokens j) = false.
Proof.
  unfold parse_call_arguments. apply nzd_rbind; [apply nzd_call_args|].
  intros [[args arg_tokens] j']. destruct arg_tokens as [|a arg_tokens]; [reflexivity|].
  apply nzd_rbind; [apply nzd_parse_full_expression|]. reflexivity.
Qed.

Lemma nzd_to_float (n : number) : is_zero_division (Num.to_float n) = false.
Proof.
  destruct n as [z|f]; simpl; [|reflexivity].
  unfold Num.float_of_int. destruct (Num.is_inf (Num.float_of_Z z)); reflexivity.
Qed.

Lemma nzd_arith (opz : Z -> Z -> Z) (opf : float -> float -> float) (a b : number) :
  is_zero_division (Num.arith opz opf a b) = false.
Proof.
  unfold Num.arith.
  destruct a as [x|f]; destruct b as [y|g]; try reflexivity;
    (apply nzd_rbind; [apply nzd_to_float|intros ?]);
    (apply nzd_rbind; [apply nzd_to_float|intros ?]); reflexivity.
Qed.

(** The division itself, behind the guard of [eval_expr]. *)
Lemma nzd_div (a b : number) :
  Num.is_zero b = false -> is_zero_division (Num.div a b) = false.
Proof.
  intros Hb. unfold Num.div. rewrite Hb.
  destruct a as [x|f]; destruct b as [y|g];
    try (apply nzd_rbind; [apply nzd_to_float|intros ?];
         apply nzd_rbind; [apply nzd_to_float|intros ?]; reflexivity).
  destruct (Num.is_inf _); reflexivity.
Qed.

Lemma nzd_value_arith (opz : Z -> Z -> Z) (opf : float -> float -> float)
    (a b : value) :
  is_zero_division (value_arith (Num.arith opz opf) a b) = false.
Proof.
  destruct a as [x|]; destruct b as [y|]; simpl; try reflexivity.
  apply nzd_rbind; [apply nzd_arith|reflexivity].
Qed.

Lemma nzd_eval_expr (syms : symtab) (e : expr) :
  is_zero_division (eval_expr syms e) = false.
Proof.
  induction e as [f|x|op l IHl r IHr]; simpl.
  - reflexivity.
  - destruct (syms !! x); reflexivity.
  - apply nzd_rbind; [exact IHl|]. intros lv.
    apply nzd_rbind; [exact IHr|]. intros rv.
    destruct op; try apply nzd_value_arith.
    destruct (value_ne_zero rv) eqn:Hnz; [|reflexivity].
    destruct lv as [x|]; destruct rv as [y|]; simpl in *; try reflexivity.
    apply negb_true_iff in Hnz.
    apply nzd_rbind; [apply nzd_div; exact Hnz|reflexivity].
Qed.

Lemma nzd_eval_condition (syms : symtab) (cond : condition) :
  is_zero_division (eval_condition syms cond) = false.
Proof.
  unfold eval_condition. apply nzd_rbind; [apply nzd_eval_expr|]. intros lv.
  apply nzd_rbind; [apply nzd_eval_expr|]. intros rv.
  destruct (c_op cond); try reflexivity;
    destruct lv; destruct rv; reflexivity.
Qed.

Lemma nzd_bind_arguments (syms : symtab) (pairs : list (token * expr))
    (local_scope : symtab) :
  is_zero_division (bind_arguments syms pairs local_scope) = false.
Proof.
  revert local_scope. induction pairs as [|[p a] pairs IH]; intros local_scope; simpl;
    [reflexivity|].
  apply nzd_rbind; [apply nzd_eval_expr|]. intros v. apply IH.
Qed.

Lemma nzd_to_int (n : number) : is_zero_division (Num.to_int n) = false.
Proof.
  destruct n as [z|f]; simpl; [reflexivity|]. destruct (Prim2SF f); reflexivity.
Qed.

Lemma nzd_value_to_int (v : value) : is_zero_division (value_to_int v) = false.
Proof. destruct v; simpl; [apply nzd_to_int|reflexivity]. Qed.

Lemma nzd_as_number (v : value) : is_zero_division (as_number v) = false.
Proof. destruct v; reflexivity. Qed.

Lemma nzd_math_radians (x : number) : is_zero_division (math_radians x) = false.
Proof. unfold math_radians. apply nzd_rbind; [apply nzd_to_float|reflexivity]. Qed.

Lemma nzd_math_cos (libm_cos : float -> float) (x : float) :
  is_zero_division (math_cos libm_cos x) = false.
Proof. unfold math_cos. destruct (Num.is_inf x); reflexivity. Qed.

Lemma nzd_math_sin (libm_sin : float -> float) (x : float) :
  is_zero_division (math_sin libm_sin x) = false.
Proof. unfold math_sin. destruct (Num.is_inf x); reflexivity. Qed.

Ltac nzd_pure :=
  repeat first
    [ reflexivity
    | assumption
    | apply nzd_getitem
    | apply nzd_parse_expression
    | apply nzd_parse_condition
    | apply nzd_find_block_end
    | apply nzd_define_params
    | apply nzd_parse_call_arguments
    | apply nzd_eval_expr
    | apply nzd_eval_condition
    | apply nzd_bind_arguments
    | apply nzd_arith
    | apply nzd_to_int
    | apply nzd_value_to_int
    | apply nzd_as_number
    | apply nzd_math_radians
    | apply nzd_math_cos
    | apply nzd_math_sin
    | apply nzd_rbind; [|intros ?]
    | match goal with
      | |- is_zero_division (if ?b then _ else _) = false => destruct b
      | |- is_zero_division (let (_, _) := ?p in _) = false => destruct p
      | |- is_zero_division (match ?x with _ => _ end) = false => destruct x
      end ].

Lemma nzd_star_points (libm_cos libm_sin : float -> float) (pos : Z * Z) (size : value)
    (range : list Z) (points : list (number * number)) :
  is_zero_division (star_points libm_cos libm_sin pos size range points) = false.
Proof.
  revert points. induction range as [|i range IH]; intros points; simpl; [reflexivity|].
  apply nzd_rbind; [unfold star_outer; nzd_pure|]. intros outer.
  apply nzd_rbind; [unfold star_inner; nzd_pure|]. intros inner. apply IH.
Qed.

Lemma nzd_ret {A : Type} (a : A) : never_zero_division (ret a).
Proof. intros st. reflexivity. Qed.

Lemma nzd_lift {A : Type} (r : result A) :
  is_zero_division r = false -> never_zero_division (lift r).
Proof. intros H st. exact H. Qed.

Lemma nzd_bind {A B : Type} (m : M A) (k : A -> M B) :
  never_zero_division m -> (forall a, never_zero_division (k a)) ->
  never_zero_division (bind m k).
Proof.
  intros Hm Hk st. unfold bind. specialize (Hm st).
  destruct (m st) as [[a|e|] st1]; simpl in *; [apply Hk|exact Hm|reflexivity].
Qed.

Lemma nzd_get_symbols : never_zero_division get_symbols.
Proof. intros st. reflexivity. Qed.

Lemma nzd_get_cursor : never_zero_division get_cursor.
Proof. intros st. reflexivity. Qed.

Lemma nzd_set_symbols (m : symtab) : never_zero_division (set_symbols m).
Proof. intros st. reflexivity. Qed.

Lemma nzd_set_cursor (c : cursor_t) : never_zero_division (set_cursor c).
Proof. intros st. reflexivity. Qed.

Lemma nzd_draw (p : primitive) : never_zero_division (draw p).
Proof. intros st. reflexivity. Qed.

Lemma nzd_push_stack (m : symtab) : never_zero_division (push_stack m).
Proof. intros st. reflexivity. Qed.

Lemma nzd_pop_stack : never_zero_division pop_stack.
Proof. intros st. unfold pop_stack. destruct (call_stack st); reflexivity. Qed.

Lemma nzd_random_choice (randbelow : nat -> nat -> nat) :
  never_zero_division (random_choice randbelow).
Proof. intros st. reflexivity. Qed.

Ltac nzd_step :=
  first
    [ assumption
    | apply nzd_ret
    | apply nzd_lift; solve [nzd_pure | apply nzd_star_points]
    | apply nzd_get_symbols
    | apply nzd_get_cursor
    | apply nzd_set_symbols
    | apply nzd_set_cursor
    | apply nzd_draw
    | apply nzd_push_stack
    | apply nzd_pop_stack
    | apply nzd_random_choice
    | match goal with H : forall _, _ |- _ => apply H end
    | apply nzd_bind; [|intros ?]
    | progress cbv zeta
    | match goal with
      | |- never_zero_division (if ?b then _ else _) => destruct b
      | |- never_zero_division (let (_, _) := ?p in _) => destruct p
      | |- never_zero_division (match ?x with _ => _ end) => destruct x
      end ].

Ltac nzd_auto := repeat nzd_step.

Section NoDivisionByZero.

Variable libm_cos : float -> float.
Variable libm_sin : float -> float.
Variable randbelow : nat -> nat -> nat.

Lemma nzd_while_loop (run_body : M unit) (fuel : nat) (cond : condition) :
  never_zero_division run_body ->
  never_zero_division (while_loop run_body fuel cond).
Proof.
  intros Hbody. induction fuel as [|fuel IH]; simpl; nzd_auto.
Qed.

Lemma nzd_exec_statement (interpret_body : list token -> M unit) (fuel : nat)
    (tokens : list token) (i : nat) :
  (forall body, never_zero_division (interpret_body body)) ->
  never_zero_division
    (exec_statement libm_cos libm_sin randbelow interpret_body fuel tokens i).
Proof.
  intros Hbody.
  pose proof (fun body => nzd_while_loop (interpret_body body) fuel) as Hloop.
  unfold exec_statement, exec_set, exec_define, exec_call, exec_if, exec_while,
    exec_move, exec_turn, exec_draw, exec_color, move_cursor, advance, draw_shape,
    raise.
  nzd_auto.
Qed.

Lemma nzd_statement_loop (step : nat -> M nat) (fuel len i : nat) :
  (forall j, never_zero_division (step j)) ->
  never_zero_division (statement_loop step fuel len i).
Proof.
  intros Hstep. revert i. induction fuel as [|fuel IH]; intros i; simpl;
    destruct (i <? len); nzd_auto.
Qed.

Lemma nzd_interpret (fuel : nat) (tokens : list token) :
  never_zero_division (interpret libm_cos libm_sin randbelow fuel tokens).
Proof.
  revert tokens. induction fuel as [|fuel IH]; intros tokens; simpl.
  - apply nzd_lift. reflexivity.
  - apply nzd_statement_loop. intros j. apply nzd_exec_statement. exact IH.
Qed.

(** X8: no run ends on a division by zero.  From any state and on any
    token list, whatever [interpret] does (return, raise, or go on beyond
    the fuel), it does not raise [ZeroDivisionError]: every division, in an
    assignment, a condition, an argument or an operand of MOVE, TURN and
    DRAW, is behind the test of its divisor. *)
Theorem interpret_never_divides_by_zero (fuel : nat) (tokens : list token) (st : state)
    (code : string) :
  is_zero_division (fst (interpret libm_cos libm_sin randbelow fuel tokens st)) = false
  /\ is_zero_division (fst (run libm_cos libm_sin randbelow fuel code)) = false.
Proof.
  split; [apply nzd_interpret|].
  unfold run. rewrite tokenize_refines_spec. apply nzd_interpret.
Qed.

End NoDivisionByZero.

(** ** Closed instances of the further properties *)

Lemma statement_moves_forward_witness :
  let id_ := fun x : float => x in
  let rb := fun _ _ : nat => 0 in
  let tokens := ["SET"; "x"; "="; "1"; "+"; "2"; "MOVE"; "x"; "Forward"] in
  fst (exec_statement id_ id_ rb (interpret id_ id_ rb 1) 1 tokens 0 initial_state) = Ok 6
  /\ 0 < 6 <= length tokens.
Proof.
  cbv zeta. split; [vm_compute; reflexivity|].
  apply (statement_moves_forward (fun x => x) (fun x => x) (fun _ _ => 0)
           (interpret (fun x => x) (fun x => x) (fun _ _ => 0) 1) 1
           ["SET"; "x"; "="; "1"; "+"; "2"; "MOVE"; "x"; "Forward"] 0 6 initial_state
           (snd (exec_statement (fun x => x) (fun x => x) (fun _ _ => 0)
                   (interpret (fun x => x) (fun x => x) (fun _ _ => 0) 1) 1
                   ["SET"; "x"; "="; "1"; "+"; "2"; "MOVE"; "x"; "Forward"] 0
                   initial_state))).
  vm_compute. reflexivity.
Defined.

Lemma interpret_balances_call_stack_witness :
  let id_ := fun x : float => x in
  let rb := fun _ _ : nat => 0 in
  let tokens := ["DEFINE"; "f"; "("; "n"; ")"; "{"; "SET"; "m"; "="; "n"; "}";
                 "CALL"; "f"; "("; "3"; ")"] in
  fst (interpret id_ id_ rb 4 tokens initial_state) = Ok tt
  /\ call_stack (snd (interpret id_ id_ rb 4 tokens initial_state))
     = call_stack initial_state.
Proof.
  cbv zeta. split; [vm_compute; reflexivity|].
  apply (interpret_balances_call_stack (fun x => x) (fun x => x) (fun _ _ => 0) 4
           ["DEFINE"; "f"; "("; "n"; ")"; "{"; "SET"; "m"; "="; "n"; "}";
            "CALL"; "f"; "("; "3"; ")"]).
  vm_compute. reflexivity.
Defined.

Lemma unknown_tokens_are_skipped_witness :
  interpret (fun x => x) (fun x => x) (fun _ _ => 0) (S (3 + 0))
    ["Forward"; ")"; "42"] initial_state
  = (Ok tt, initial_state).
Proof.
  apply (unknown_tokens_are_skipped (fun x => x) (fun x => x) (fun _ _ => 0)
           ["Forward"; ")"; "42"] initial_state 0).
  repeat constructor.
Defined.

Lemma block_body_round_trip_witness :
  let pre := ["WHILE"; "n"; ">"; "0"; "{"] in
  let body := ["IF"; "n"; ">"; "1"; "{"; "MOVE"; "n"; "Forward"; "}"; "TURN"; "90"; "Left"] in
  find_block_end (pre ++ body ++ "}" :: ["DRAW"; "Circle"; "5"]) (length pre)
  = Ok (length pre + length body + 1)
  /\ slice (pre ++ body ++ "}" :: ["DRAW"; "Circle"; "5"]) (length pre)
       (length pre + length body + 1 - 1)
     = body.
Proof.
  cbv zeta.
  apply (block_body_round_trip ["WHILE"; "n"; ">"; "0"; "{"]
           ["IF"; "n"; ">"; "1"; "{"; "MOVE"; "n"; "Forward"; "}"; "TURN"; "90"; "Left"]
           ["DRAW"; "Circle"; "5"]).
  split; [|vm_compute; reflexivity].
  intros j. do 13 (destruct j as [|j]; [vm_compute; discriminate|]).
  vm_compute. discriminate.
Defined.

Lemma define_params_are_the_tokens_but_commas_witness :
  let tokens := ["DEFINE"; "f"; "("; "a"; ","; "b"; ")"; "{"; "}"] in
  tokens !! 6 = Some ")"
  /\ (forall k, 3 <= k < 6 -> tokens !! k <> Some ")")
  /\ ["a"; "b"] = List.filter (fun t => negb (String.eqb t ",")) (slice tokens 3 6).
Proof.
  cbv zeta.
  apply (define_params_are_the_tokens_but_commas
           ["DEFINE"; "f"; "("; "a"; ","; "b"; ")"; "{"; "}"] 3 6 ["a"; "b"]).
  vm_compute. reflexivity.
Defined.

Lemma eval_expr_total_on_numbers_witness :
  exists v,
    eval_expr {["x" := VNum (PyFloat 2)]}
      (BinOp Div (BinOp Add (Name "x") (Lit 1)) (Name "y")) = Ok v
    /\ plain v.
Proof.
  apply (eval_expr_total_on_numbers {["x" := VNum (PyFloat 2)]}).
  intros x v H. apply lookup_singleton_Some in H as [_ <-]. exact I.
Defined.

Lemma ascii_literal_converts_witness :
  exists f, Num.float_of_literal "3.14" = Ok f.
Proof.
  apply (ascii_literal_converts "3.14"); vm_compute; reflexivity.
Defined.


(** ** The main loop *)

Lemma isprintable_drop_last (s : string) :
  isprintable s = true -> isprintable (drop_last s) = true.
Proof.
  unfold isprintable. induction s as [|c s IH]; [reflexivity|].
  destruct s as [|d s]; [reflexivity|].
  intros H. change (drop_last (String c (String d s))) with (String c (drop_last (String d s))).
  simpl in H. apply andb_true_iff in H as [Hc H].
  change (isprintable_char c && Str.forallb isprintable_char (drop_last (String d s)) = true).
  rewrite Hc. apply IH. exact H.
Qed.

Section MainLoopProperties.

Variable libm_cos : float -> float.
Variable libm_sin : float -> float.
Variable randbelow : nat -> nat -> nat.

Lemma key_return_ok (fuel : nat) (u u' : ui) :
  key_return libm_cos libm_sin randbelow fuel u = Ok u' ->
  current_state u' = STATE_RUNNING
  /\ user_input u' = user_input u /\ use_sample u' = use_sample u.
Proof.
  unfold key_return. destruct (tokenize (code_to_run u)) as [tokens|e|]; simpl;
    try discriminate.
  destruct (interpret _ _ _ fuel tokens _) as [[[]|e|] st']; intros H;
    inversion H; subst; simpl; auto.
Qed.

Lemma main_loop_invariant (P : ui -> Prop) (fuel : nat) :
  (forall u e u', P u -> handle_event libm_cos libm_sin randbelow fuel u e = Ok u' -> P u') ->
  forall frames u u', P u -> main_loop libm_cos libm_sin randbelow fuel frames u = Ok u' -> P u'.
Proof.
  intros Hstep.
  assert (Hevents : forall events u u',
             P u -> handle_events libm_cos libm_sin randbelow fuel events u = Ok u' -> P u').
  { induction events as [|e events IH]; intros u u' HP H; simpl in H.
    - inversion H; subst. exact HP.
    - destruct (handle_event libm_cos libm_sin randbelow fuel u e) as [u1|x|] eqn:He; simpl in H; try discriminate.
      eapply IH; [|exact H]. eapply Hstep; eassumption. }
  induction frames as [|events frames IH]; intros u u' HP H; simpl in H.
  - destruct (running_main u); inversion H; subst; exact HP.
  - destruct (running_main u); [|inversion H; subst; exact HP].
    destruct (handle_events libm_cos libm_sin randbelow fuel events u) as [u1|x|] eqn:He; simpl in H; try discriminate.
    eapply IH; [|exact H]. eapply Hevents; eassumption.
Qed.

Lemma handle_event_ready (fuel : nat) (u : ui) (e : event) (u' : ui) :
  ready u -> handle_event libm_cos libm_sin randbelow fuel u e = Ok u' -> ready u'.
Proof.
  unfold ready. intros HP H. destruct e as [|key unicode|]; simpl in H.
  - inversion H; subst; simpl. exact HP.
  - destruct (current_state u) eqn:Hs.
    + destruct (key =? K_SPACE)%Z; inversion H; subst; simpl.
      * right. destruct HP as [HP|HP]; [congruence|exact HP].
      * rewrite Hs. destruct HP as [HP|HP]; [congruence|right; exact HP].
    + destruct (key =? K_RETURN)%Z; [left; eapply key_return_ok; exact H|].
      destruct HP as [HP|HP]; [congruence|].
      destruct (key =? K_BACKSPACE)%Z; [inversion H; subst; simpl; right; exact HP|].
      destruct (key =? K_TAB)%Z; [inversion H; subst; simpl; right; exact HP|].
      destruct (isprintable unicode); inversion H; subst; simpl; right; exact HP.
    + destruct (key =? K_r)%Z; inversion H; subst; simpl.
      * right. repeat split.
      * left. exact Hs.
  - inversion H; subst. exact HP.
Qed.

(** X10: every run starts from scratch.  Whatever events the frames bring,
    as long as the loop goes on the program is either in the running mode or
    the interpreter's [symbols], [call_stack] and [cursor] are those of the
    start of the program: Enter never runs a program against what an earlier
    run left. *)
Theorem every_run_starts_fresh (fuel : nat) (frames : list (list event)) (u' : ui) :
  main_loop libm_cos libm_sin randbelow fuel frames initial_ui = Ok u' -> ready u'.
Proof.
  apply (main_loop_invariant ready fuel (handle_event_ready fuel)).
  right. repeat split.
Qed.

Lemma handle_event_typed (fuel : nat) (u : ui) (e : event) (u' : ui) :
  use_sample u = true \/ isprintable (user_input u) = true ->
  handle_event libm_cos libm_sin randbelow fuel u e = Ok u' ->
  use_sample u' = true \/ isprintable (user_input u') = true.
Proof.
  intros HP H. destruct e as [|key unicode|]; simpl in H.
  - inversion H; subst; simpl. exact HP.
  - destruct (current_state u) eqn:Hs.
    + destruct (key =? K_SPACE)%Z; inversion H; subst; simpl; exact HP.
    + destruct (key =? K_RETURN)%Z.
      { apply key_return_ok in H as (_ & Hin & Hsample). rewrite Hin, Hsample. exact HP. }
      destruct (key =? K_BACKSPACE)%Z.
      { inversion H; subst; simpl.
        destruct HP as [HP|HP]; [left; exact HP|right; apply isprintable_drop_last; exact HP]. }
      destruct (key =? K_TAB)%Z; [inversion H; subst; simpl; left; reflexivity|].
      destruct (isprintable unicode) eqn:Hu; inversion H; subst; simpl; [|exact HP].
      destruct HP as [HP|HP]; [left; exact HP|right].
      unfold isprintable in *. rewrite forallb_append, HP, Hu. reflexivity.
    + destruct (key =? K_r)%Z; inversion H; subst; simpl; [right; reflexivity|exact HP].
  - inversion H; subst. exact HP.
Qed.

(** X11: what the editor hands to the interpreter.  Whatever events the
    frames bring, the text Enter would run is the sample program or a text
    of printable characters only: a typed program has no line break, no
    tab and no other control character. *)
Theorem typed_program_is_one_line (fuel : nat) (frames : list (list event)) (u' : ui) :
  main_loop libm_cos libm_sin randbelow fuel frames initial_ui = Ok u' ->
  code_to_run u' = SAMPLE_CODE \/ isprintable (code_to_run u') = true.
Proof.
  intros H. unfold code_to_run.
  assert (Hinv : use_sample u' = true \/ isprintable (user_input u') = true).
  { revert H.
    apply (main_loop_invariant
             (fun u => use_sample u = true \/ isprintable (user_input u) = true)
             fuel (handle_event_typed fuel)).
    right. reflexivity. }
  destruct (use_sample u'); [left; reflexivity|].
  destruct Hinv as [Hinv|Hinv]; [discriminate|right; exact Hinv].
Qed.

Lemma handle_events_app (fuel : nat) (a b : list event) (u : ui) :
  handle_events libm_cos libm_sin randbelow fuel (a ++ b) u
  = let* u' := handle_events libm_cos libm_sin randbelow fuel a u in
    handle_events libm_cos libm_sin randbelow fuel b u'.
Proof.
  revert u. induction a as [|e a IH]; intros u; simpl; [reflexivity|].
  destruct (handle_event libm_cos libm_sin randbelow fuel u e); simpl; auto.
Qed.

Lemma sample_stays (fuel : nat) (edits : list event) (u : ui) :
  current_state u = STATE_INPUT -> use_sample u = true ->
  Forall (fun e => is_return e = false) edits ->
  exists u',
    handle_events libm_cos libm_sin randbelow fuel edits u = Ok u'
    /\ current_state u' = STATE_INPUT /\ use_sample u' = true
    /\ interp u' = interp u.
Proof.
  intros Hs Hsample Hedits. revert u Hs Hsample.
  induction Hedits as [|e edits He Hedits IH]; intros u Hs Hsample; simpl.
  - exists u. auto.
  - assert (Hstep : exists u1,
               handle_event libm_cos libm_sin randbelow fuel u e = Ok u1
               /\ current_state u1 = STATE_INPUT /\ use_sample u1 = true
               /\ interp u1 = interp u).
    { destruct e as [|key unicode|]; simpl in *.
      - eexists. split; [reflexivity|]. simpl. auto.
      - rewrite Hs, He.
        destruct (key =? K_BACKSPACE)%Z; [eexists; split; [reflexivity|simpl; auto]|].
        destruct (key =? K_TAB)%Z; [eexists; split; [reflexivity|simpl; auto]|].
        destruct (isprintable unicode); eexists; (split; [reflexivity|simpl; auto]).
      - eexists. split; [reflexivity|]. auto. }
    destruct Hstep as (u1 & H1 & Hs1 & Hsample1 & Hi1). rewrite H1. simpl.
    destruct (IH u1 Hs1 Hsample1) as (u' & H' & Hs' & Hsample' & Hi').
    exists u'. rewrite Hi', Hi1. auto.
Qed.

(** X12: Tab is final.  In the editor, once Tab was pressed, whatever is
    typed or deleted afterwards (any events but Enter), Enter does what it
    does with [use_sample] set and the interpreter untouched: it runs the
    sample program as it is.  The editing changes the text shown, not the
    program run. *)
Theorem tab_then_enter_runs_the_sample (fuel : nat) (edits : list event) (u : ui)
    (t r : string) :
  current_state u = STATE_INPUT ->
  Forall (fun e => is_return e = false) edits ->
  exists running text,
    let u' := {| running_main := running; current_state := STATE_INPUT;
                 user_input := text; use_sample := true; interp := interp u |} in
    handle_events libm_cos libm_sin randbelow fuel
      (KEYDOWN K_TAB t :: edits ++ [KEYDOWN K_RETURN r]) u
    = key_return libm_cos libm_sin randbelow fuel u'
    /\ code_to_run u' = SAMPLE_CODE.
Proof.
  intros Hs Hedits.
  change (KEYDOWN K_TAB t :: edits ++ [KEYDOWN K_RETURN r])
    with ([KEYDOWN K_TAB t] ++ edits ++ [KEYDOWN K_RETURN r]).
  rewrite handle_events_app. simpl. rewrite Hs. simpl.
  rewrite handle_events_app.
  match goal with
  | |- context [handle_events _ _ _ fuel edits ?u0] =>
      destruct (sample_stays fuel edits u0 eq_refl eq_refl Hedits)
        as (u' & H' & Hs' & Hsample' & Hi')
  end.
  rewrite H'. destruct u' as [running s text sample st]; simpl in *; subst.
  exists running, text. split; [|reflexivity].
  destruct (key_return libm_cos libm_sin randbelow fuel _); reflexivity.
Qed.

End MainLoopProperties.

Lemma every_run_starts_fresh_witness :
  ready {| running_main := true; current_state := STATE_INPUT; user_input := "a";
           use_sample := false; interp := initial_state |}.
Proof.
  apply (every_run_starts_fresh (fun x => x) (fun x => x) (fun _ _ => 0) 5
           [[KEYDOWN K_SPACE " "]; typing "SET x = 1"; [KEYDOWN K_RETURN EmptyString];
            [OtherEvent; KEYDOWN K_r "r"]; [KEYDOWN K_SPACE " "; KEYDOWN 97 "a"]]).
  vm_compute. reflexivity.
Defined.

Lemma typed_program_is_one_line_witness :
  let u' := {| running_main := true; current_state := STATE_INPUT;
               user_input := "SET x = 1"; use_sample := false;
               interp := initial_state |} in
  code_to_run u' = SAMPLE_CODE \/ isprintable (code_to_run u') = true.
Proof.
  cbv zeta.
  apply (typed_program_is_one_line (fun x => x) (fun x => x) (fun _ _ => 0) 0
           [[KEYDOWN K_SPACE " "];
            typing "SET x = 12" ++ [KEYDOWN K_BACKSPACE EmptyString;
                                    KEYDOWN 27 (String (ascii_of_nat 27) EmptyString)]]).
  vm_compute. reflexivity.
Defined.

Lemma tab_then_enter_runs_the_sample_witness :
  let u := {| running_main := true; current_state := STATE_INPUT;
              user_input := "MOVE 10 Forward"; use_sample := false;
              interp := initial_state |} in
  exists running text,
    let u' := {| running_main := running; current_state := STATE_INPUT;
                 user_input := text; use_sample := true; interp := interp u |} in
    handle_events (fun x => x) (fun x => x) (fun _ _ => 0) 60
      (KEYDOWN K_TAB EmptyString
       :: [KEYDOWN K_BACKSPACE EmptyString; KEYDOWN 120 "x"; QUIT]
       ++ [KEYDOWN K_RETURN EmptyString]) u
    = key_return (fun x => x) (fun x => x) (fun _ _ => 0) 60 u'
    /\ code_to_run u' = SAMPLE_CODE.
Proof.
  cbv zeta.
  apply (tab_then_enter_runs_the_sample (fun x => x) (fun x => x) (fun _ _ => 0) 60
           [KEYDOWN K_BACKSPACE EmptyString; KEYDOWN 120 "x"; QUIT]).
  - reflexivity.
  - repeat constructor.
Defined.


(** ** The parser and the grammar *)

Lemma drop_head (tokens : list token) (i : nat) (t : token) (more : list token) :
  drop i tokens = t :: more ->
  tokens !! i = Some t /\ i < length tokens /\ drop (i + 1) tokens = more.
Proof.
  intros H.
  assert (Ht : tokens !! i = Some t).
  { rewrite <- (Nat.add_0_r i), <- lookup_drop, H. reflexivity. }
  split; [exact Ht|]. split; [eapply lookup_lt_Some; exact Ht|].
  rewrite <- drop_drop, H. reflexivity.
Qed.

Lemma drop_tail (tokens : list token) (i : nat) (a b : list token) :
  drop i tokens = a ++ b -> drop (i + length a) tokens = b.
Proof. intros H. rewrite <- drop_drop, H. apply drop_app_length. Qed.

Lemma number_is_no_paren (t : token) :
  Str.isdigit (Str.remove_first t ".") = true ->
  String.eqb t "(" = false /\ t <> ")".
Proof.
  intros H. split.
  - destruct (String.eqb_spec t "(") as [->|]; [vm_compute in H; discriminate|reflexivity].
  - intros ->. vm_compute in H. discriminate.
Qed.

Lemma letter_is_no_digit (c : ascii) :
  Str.isalpha_char c = true -> Ascii.eqb c "." = false /\ Str.isdigit_char c = false.
Proof.
  destruct c as [[] [] [] [] [] [] [] []]; vm_compute; intros H;
    solve [discriminate | split; reflexivity].
Qed.

Lemma name_is_no_number (x : token) :
  Str.isalpha x = true ->
  String.eqb x "(" = false /\ x <> ")" /\ Str.isdigit (Str.remove_first x ".") = false.
Proof.
  intros H. split; [|split].
  - destruct (String.eqb_spec x "(") as [->|]; [vm_compute in H; discriminate|reflexivity].
  - intros ->. vm_compute in H. discriminate.
  - destruct x as [|c x]; [reflexivity|].
    unfold Str.isalpha in H. simpl in H. apply andb_true_iff in H as [Hc _].
    apply letter_is_no_digit in Hc as [Hdot Hdigit].
    simpl. rewrite Hdot. unfold Str.isdigit. simpl. rewrite Hdigit. reflexivity.
Qed.

Lemma operator_at_product (tokens : list token) (stop : list string) (j : nat)
    (op : binop) :
  tokens !! j = Some (token_of_binop op) -> mem (token_of_binop op) stop = false ->
  precedence op = 2 ->
  operator_at term_ops tokens stop j = Some op.
Proof.
  intros Ht Hstop Hop. unfold operator_at.
  pose proof (lookup_lt_Some _ _ _ Ht) as Hlt. apply Nat.ltb_lt in Hlt.
  rewrite Hlt, Ht. destruct op; try discriminate; simpl in *; rewrite Hstop; reflexivity.
Qed.

Lemma operator_at_sum (tokens : list token) (stop : list string) (j : nat)
    (op : binop) :
  tokens !! j = Some (token_of_binop op) -> mem (token_of_binop op) stop = false ->
  precedence op = 1 ->
  operator_at expression_ops tokens stop j = Some op
  /\ operator_at term_ops tokens stop j = None.
Proof.
  intros Ht Hstop Hop. unfold operator_at.
  pose proof (lookup_lt_Some _ _ _ Ht) as Hlt. apply Nat.ltb_lt in Hlt.
  rewrite Hlt, Ht.
  destruct op; try discriminate; simpl in *; rewrite Hstop; split; reflexivity.
Qed.

Lemma operator_at_paren (ops : list (string * binop)) (tokens : list token)
    (stop : list string) (j : nat) :
  tokens !! j = Some ")" -> ops = term_ops \/ ops = expression_ops ->
  operator_at ops tokens stop j = None.
Proof.
  intros Ht Hops. unfold operator_at. rewrite Ht.
  destruct (j <? length tokens); [|reflexivity]. destruct Hops as [->| ->]; reflexivity.
Qed.

Lemma operator_at_end (ops : list (string * binop)) (tokens : list token)
    (stop : list string) (j : nat) (rest : list token) :
  drop j tokens = rest -> ends_expression rest = true ->
  ops = term_ops \/ ops = expression_ops ->
  operator_at ops tokens stop j = None.
Proof.
  intros Hdrop Hend Hops. unfold operator_at.
  destruct (j <? length tokens) eqn:Hj; [|reflexivity]. apply Nat.ltb_lt in Hj.
  destruct rest as [|t rest].
  - apply (f_equal length) in Hdrop. rewrite length_drop in Hdrop. simpl in Hdrop. lia.
  - apply drop_head in Hdrop as (Ht & _ & _). rewrite Ht.
    unfold ends_expression, is_operator, mem in Hend. simpl in Hend.
    apply negb_true_iff in Hend.
    repeat (apply orb_false_iff in Hend as [? Hend]).
    destruct Hops as [->| ->]; simpl;
      repeat match goal with H : String.eqb t _ = false |- _ => rewrite H; clear H end;
      reflexivity.
Qed.

Lemma operator_loop_none (operand : nat -> parsed) (ops : list (string * binop))
    (f : nat) (tokens : list token) (stop : list string) (node : expr) (j : nat) :
  operator_at ops tokens stop j = None ->
  operator_loop operand ops f tokens stop node j = Ok (node, j).
Proof. intros H. destruct f; simpl; rewrite H; reflexivity. Qed.

Lemma clear_of_app (stop : list string) (a b : list token) :
  clear_of stop (a ++ b) -> clear_of stop a /\ clear_of stop b.
Proof. apply Forall_app. Qed.

Lemma clear_of_paren (stop : list string) (toks : list token) :
  clear_of stop toks -> clear_of (")" :: stop) toks.
Proof.
  intros H. eapply Forall_impl; [exact H|]. intros t Ht Hne. simpl. rewrite (Ht Hne).
  destruct (String.eqb_spec t ")"); [contradiction|reflexivity].
Qed.

Lemma parse_expression_fuel_S (fuel : nat) (tokens : list token) (i : nat)
    (stop : list string) :
  parse_expression_fuel (S fuel) tokens i stop
  = let* (node, i1) := parse_term (parse_expression_fuel fuel) fuel tokens i stop in
    operator_loop (fun k => parse_term (parse_expression_fuel fuel) fuel tokens k stop)
      expression_ops fuel tokens stop node i1.
Proof. reflexivity. Qed.

Lemma operator_loop_S (operand : nat -> parsed) (ops : list (string * binop))
    (f : nat) (tokens : list token) (stop : list string) (node : expr) (j : nat)
    (op : binop) :
  operator_at ops tokens stop j = Some op ->
  operator_loop operand ops (S f) tokens stop node j
  = let* (rhs, i) := operand (j + 1) in
    operator_loop operand ops f tokens stop (BinOp op node rhs) i.
Proof. intros H. simpl. rewrite H. reflexivity. Qed.

Lemma renders_parses (lvl : level) (e : expr) (toks : list token) :
  renders lvl e toks -> parses lvl e toks.
Proof.
  induction 1 as [t f Hdigit Hfloat|x Halpha|e toks _ IH|e toks _ IH
                 |op l r tl tr Hop _ IHl _ IHr|e toks _ IH
                 |op l r tl tr Hop _ IHl _ IHr];
    intros tokens i rest stop fuel Hdrop Hclear Hfuel; cbv zeta.
  - (* number *)
    apply drop_head in Hdrop as (Ht & Hlt & _).
    destruct (number_is_no_paren t Hdigit) as [Hopen Hclose].
    apply Forall_inv in Hclear. specialize (Hclear Hclose).
    unfold parse_factor, getitem.
    apply Nat.leb_gt in Hlt. rewrite Hlt, Ht. simpl.
    rewrite Hclear, Hopen, Hdigit, Hfloat. reflexivity.
  - (* name *)
    apply drop_head in Hdrop as (Ht & Hlt & _).
    destruct (name_is_no_number x Halpha) as (Hopen & Hclose & Hdigit).
    apply Forall_inv in Hclear. specialize (Hclear Hclose).
    unfold parse_factor, getitem.
    apply Nat.leb_gt in Hlt. rewrite Hlt, Ht. simpl.
    rewrite Hclear, Hopen, Hdigit, Halpha. reflexivity.
  - (* parentheses *)
    simpl in Hdrop. apply drop_head in Hdrop as (Ht & Hlt & Hdrop).
    pose proof (Forall_inv Hclear ltac:(discriminate)) as Hopen.
    apply Forall_inv_tail, clear_of_app in Hclear as [Hclear _].
    rewrite <- app_assoc in Hdrop.
    pose proof (drop_tail _ _ _ _ Hdrop) as Hclose.
    apply drop_head in Hclose as (Hclose & Hlt' & _).
    destruct fuel as [|fuel]; [lia|].
    unfold parse_factor, getitem.
    pose proof Hlt as Hlt0. apply Nat.leb_gt in Hlt0. rewrite Hlt0, Ht.
    cbn [rbind]. rewrite Hopen, String.eqb_refl.
    rewrite (IH tokens (i + 1) ([")"] ++ rest) (")" :: stop) fuel Hdrop
               (clear_of_paren _ _ Hclear) ltac:(lia)
               (Ok (e, i + 1 + length toks))).
    + cbn [rbind]. unfold tok_is. rewrite Hclose.
      apply Nat.leb_gt in Hlt'. rewrite Hlt'. rewrite String.eqb_refl. simpl.
      rewrite length_app. simpl. do 2 f_equal. lia.
    + apply operator_at_paren; [exact Hclose|left; reflexivity].
    + intros f _. apply operator_loop_none.
      apply operator_at_paren; [exact Hclose|right; reflexivity].
  - (* a factor as a term *)
    intros K HK. unfold parse_term.
    rewrite (IH tokens i rest stop fuel Hdrop Hclear Hfuel). cbn [rbind]. apply HK. lia.
  - (* product *)
    intros K HK.
    rewrite <- app_assoc in Hdrop.
    apply clear_of_app in Hclear as [Hcl Hclear].
    pose proof (drop_tail _ _ _ _ Hdrop) as Hmid. simpl in Hmid.
    apply drop_head in Hmid as (Ht & Hlt & Hmid).
    assert (Hstop : mem (token_of_binop op) stop = false).
    { apply (Forall_inv Hclear). destruct op; discriminate. }
    apply Forall_inv_tail in Hclear.
    apply (IHl tokens i _ stop fuel Hdrop Hcl Hfuel).
    intros f Hf. destruct f as [|f]; [lia|].
    rewrite (operator_loop_S _ _ _ _ _ _ _ op (operator_at_product _ _ _ _ Ht Hstop Hop)).
    rewrite (IHr tokens (i + length tl + 1) rest stop fuel Hmid Hclear ltac:(lia)).
    cbn [rbind].
    replace (i + length tl + 1 + length tr)
      with (i + length (tl ++ token_of_binop op :: tr))
      by (rewrite length_app; simpl; lia).
    apply HK. rewrite length_app. simpl. lia.
  - (* a term as an expression *)
    intros K Hend HK. rewrite parse_expression_fuel_S.
    rewrite (IH tokens i rest stop fuel Hdrop Hclear Hfuel (Ok (e, i + length toks))).
    + cbn [rbind]. apply HK. lia.
    + intros f _. apply operator_loop_none. exact Hend.
  - (* sum *)
    intros K Hend HK.
    rewrite <- app_assoc in Hdrop.
    apply clear_of_app in Hclear as [Hcl Hclear].
    pose proof (drop_tail _ _ _ _ Hdrop) as Hmid. simpl in Hmid.
    apply drop_head in Hmid as (Ht & Hlt & Hmid).
    assert (Hstop : mem (token_of_binop op) stop = false).
    { apply (Forall_inv Hclear). destruct op; discriminate. }
    apply Forall_inv_tail in Hclear.
    destruct (operator_at_sum _ _ _ _ Ht Hstop Hop) as [Hsum Hproduct].
    apply (IHl tokens i _ stop fuel Hdrop Hcl Hfuel); [exact Hproduct|].
    intros f Hf. destruct f as [|f]; [lia|].
    rewrite (operator_loop_S _ _ _ _ _ _ _ op Hsum).
    rewrite (IHr tokens (i + length tl + 1) rest stop fuel Hmid Hclear ltac:(lia)
               (Ok (r, i + length tl + 1 + length tr))).
    + cbn [rbind].
      replace (i + length tl + 1 + length tr)
        with (i + length (tl ++ token_of_binop op :: tr))
        by (rewrite length_app; simpl; lia).
      apply HK. rewrite length_app. simpl. lia.
    + intros f' _. apply operator_loop_none.
      replace (i + length tl + 1 + length tr)
        with (i + length (tl ++ token_of_binop op :: tr))
        by (rewrite length_app; simpl; lia).
      exact Hend.
Qed.

Lemma parse_expression_renders (e : expr) (toks pre rest : list token)
    (stop : list string) :
  renders Expression e toks ->
  Forall (fun t => mem t stop = false) toks ->
  ends_expression rest = true ->
  parse_expression (pre ++ toks ++ rest) (length pre) stop
  = Ok (e, length pre + length toks).
Proof.
  intros Hr Hstop Hend. unfold parse_expression, parse_fuel.
  assert (Hdrop : drop (length pre) (pre ++ toks ++ rest) = toks ++ rest)
    by apply drop_app_length.
  assert (Hclear : clear_of stop toks).
  { eapply Forall_impl; [exact Hstop|]. intros t Ht _. exact Ht. }
  apply (renders_parses Expression e toks Hr (pre ++ toks ++ rest) (length pre) rest stop
           (S (length (pre ++ toks ++ rest))) Hdrop Hclear ltac:(lia)).
  - eapply operator_at_end; [eapply drop_tail; exact Hdrop|exact Hend|left; reflexivity].
  - intros f _. apply operator_loop_none.
    eapply operator_at_end; [eapply drop_tail; exact Hdrop|exact Hend|right; reflexivity].
Qed.

(** X13: the parser inverts the grammar.  Every writing of a tree by the
    grammar (sums of terms, products of factors, both read from the left;
    numbers, names of letters and parentheses as factors) is parsed back to
    that tree: by [parse_expression] inside a statement, from where the
    writing starts up to its end, when no token of it is a stop token and
    no operator follows it; and by [parse_full_expression] on its own. *)
Theorem parser_inverts_grammar (e : expr) (toks pre rest : list token)
    (stop : list string) :
  renders Expression e toks ->
  Forall (fun t => mem t stop = false) toks ->
  ends_expression rest = true ->
  parse_expression (pre ++ toks ++ rest) (length pre) stop
  = Ok (e, length pre + length toks)
  /\ parse_full_expression toks = Ok e.
Proof.
  intros Hr Hstop Hend. split; [apply parse_expression_renders; assumption|].
  unfold parse_full_expression.
  pose proof (parse_expression_renders e toks [] [] [] Hr) as H.
  rewrite app_nil_r in H. simpl in H. rewrite H.
  - simpl. rewrite Nat.eqb_refl. reflexivity.
  - apply Forall_forall. intros t _. reflexivity.
  - reflexivity.
Qed.

Lemma parser_inverts_grammar_witness :
  let e := BinOp Add (Name "a") (BinOp Mul (Name "b") (BinOp Sub (Name "c") (Lit 2))) in
  let toks := ["a"; "+"; "b"; "*"; "("; "c"; "-"; "2"; ")"] in
  parse_expression (["MOVE"] ++ toks ++ ["Forward"; "TURN"]) (length ["MOVE"])
    ["Forward"; "Backward"]
  = Ok (e, length ["MOVE"] + length toks)
  /\ parse_full_expression toks = Ok e.
Proof.
  cbv zeta.
  apply (parser_inverts_grammar
           (BinOp Add (Name "a") (BinOp Mul (Name "b") (BinOp Sub (Name "c") (Lit 2))))
           ["a"; "+"; "b"; "*"; "("; "c"; "-"; "2"; ")"] ["MOVE"] ["Forward"; "TURN"]
           ["Forward"; "Backward"]).
  - apply (renders_sum Add (Name "a") _ ["a"] ["b"; "*"; "("; "c"; "-"; "2"; ")"]);
      [reflexivity| |].
    + apply renders_term, renders_factor, renders_name. reflexivity.
    + apply (renders_product Mul (Name "b") _ ["b"] ["("; "c"; "-"; "2"; ")"]);
        [reflexivity| |].
      * apply renders_factor, renders_name. reflexivity.
      * apply (renders_paren _ ["c"; "-"; "2"]).
        apply (renders_sum Sub (Name "c") (Lit 2) ["c"] ["2"]); [reflexivity| |].
        -- apply renders_term, renders_factor, renders_name. reflexivity.
        -- apply renders_factor, renders_number; vm_compute; reflexivity.
  - repeat constructor.
  - reflexivity.
Defined.


(** ** Tokens written out and read again *)

Lemma append_nil_r (s : string) : String.append s EmptyString = s.
Proof. induction s as [|c s IH]; [reflexivity|]. rewrite append_cons, IH. reflexivity. Qed.

Lemma surround_append (a b : string) :
  surround (String.append a b) = String.append (surround a) (surround b).
Proof.
  induction a as [|c a IH]; [reflexivity|].
  rewrite append_cons. simpl. rewrite IH.
  destruct (is_special c); rewrite ?append_cons; reflexivity.
Qed.

Lemma surround_word (w : string) :
  Str.forallb (fun c => negb (is_special c)) w = true -> surround w = w.
Proof.
  induction w as [|c w IH]; [reflexivity|]. simpl. intros H.
  apply andb_true_iff in H as [Hc H]. apply negb_true_iff in Hc.
  rewrite Hc, (IH H). reflexivity.
Qed.

Lemma split_from_word (w rest acc : string) :
  Str.forallb (fun c => negb (Str.isspace c)) w = true ->
  Str.split_from (String.append w rest) acc = Str.split_from rest (String.append acc w).
Proof.
  revert acc. induction w as [|c w IH]; intros acc H.
  - rewrite append_nil_r. reflexivity.
  - simpl in H. apply andb_true_iff in H as [Hc H]. apply negb_true_iff in Hc.
    rewrite append_cons. simpl. rewrite Hc, (IH _ H), append_assoc. reflexivity.
Qed.

Lemma split_from_flush (rest w : string) :
  at_word_end rest -> Str.is_empty w = false ->
  Str.split_from rest w = w :: Str.split_from rest EmptyString.
Proof.
  intros [->|[s' ->]] Hw; simpl; rewrite Hw; reflexivity.
Qed.

Lemma split_from_token (t rest : string) :
  token_shape t -> at_word_end rest ->
  Str.split_from (String.append (surround t) rest) EmptyString
  = (if String.eqb t "!=" then ["!"; "="] else [t]) ++ Str.split_from rest EmptyString.
Proof.
  intros (Hne & Hsp & [->|[(c & Hc & ->)|Hword]]) Hrest.
  - reflexivity.
  - pose proof (special_not_space c Hc) as Hns.
    simpl. rewrite Hc. rewrite !append_cons. simpl. rewrite Hns. simpl.
    destruct (Ascii.eqb c "!"); reflexivity.
  - rewrite (surround_word t Hword), (split_from_word t rest EmptyString Hsp).
    assert (Hcut : String.eqb t "!=" = false).
    { destruct (String.eqb_spec t "!=") as [->|]; [vm_compute in Hword; discriminate|].
      reflexivity. }
    rewrite Hcut. apply split_from_flush; [exact Hrest|].
    destruct t; [contradiction|reflexivity].
Qed.

Lemma split_join (l : list token) :
  Forall token_shape l ->
  Str.split (surround (Str.join " " l)) = split_not_equal l.
Proof.
  unfold Str.split. induction 1 as [|t l Ht Hl IH]; [reflexivity|].
  destruct l as [|u l].
  - simpl. rewrite <- (append_nil_r (surround t)).
    rewrite (split_from_token t EmptyString Ht); [reflexivity|left; reflexivity].
  - change (Str.join " " (t :: u :: l))
      with (String.append t (String " " (Str.join " " (u :: l)))).
    rewrite surround_append.
    change (surround (String " " (Str.join " " (u :: l))))
      with (String " " (surround (Str.join " " (u :: l)))).
    rewrite (split_from_token t _ Ht); [|right; eexists; reflexivity].
    change (Str.split_from (String " " ?s) EmptyString)
      with (Str.split_from s EmptyString).
    rewrite IH. reflexivity.
Qed.

Lemma merge_not_equal_other (t : token) (l : list token) :
  String.eqb t "!" = false -> merge_not_equal (t :: l) = t :: merge_not_equal l.
Proof. intros H. destruct l; simpl; [reflexivity|]. rewrite H. reflexivity. Qed.

Lemma merge_not_equal_bang (l : list token) :
  head l <> Some "=" -> merge_not_equal ("!" :: l) = "!" :: merge_not_equal l.
Proof.
  intros H. destruct l as [|u l]; [reflexivity|].
  simpl in *. destruct (String.eqb_spec u "=") as [->|]; [contradiction|reflexivity].
Qed.

Lemma joined_tail (t : token) (l : list token) : joined (t :: l) -> joined l.
Proof. intros H i Hi. exact (H (S i) Hi). Qed.

Lemma merge_split_not_equal (l : list token) :
  joined l -> merge_not_equal (split_not_equal l) = l.
Proof.
  induction l as [|t l IH]; intros Hj; [reflexivity|].
  specialize (IH (joined_tail _ _ Hj)).
  change (split_not_equal (t :: l))
    with ((if String.eqb t "!=" then ["!"; "="] else [t]) ++ split_not_equal l).
  destruct (String.eqb_spec t "!=") as [->|Hne].
  - change (merge_not_equal (["!"; "="] ++ split_not_equal l))
      with ("!=" :: merge_not_equal (split_not_equal l)).
    rewrite IH. reflexivity.
  - change ([t] ++ split_not_equal l) with (t :: split_not_equal l).
    destruct (String.eqb_spec t "!") as [->|Hbang].
    + rewrite merge_not_equal_bang, IH; [reflexivity|].
      destruct l as [|u l]; [discriminate|].
      pose proof (Hj 0 eq_refl) as Hu. simpl in Hu.
      change (split_not_equal (u :: l))
        with ((if String.eqb u "!=" then ["!"; "="] else [u]) ++ split_not_equal l).
      destruct (String.eqb u "!="); simpl; [discriminate|].
      intros Heq. apply Hu. exact Heq.
    + rewrite merge_not_equal_other, IH; [reflexivity|].
      apply String.eqb_neq. exact Hbang.
Qed.

Lemma tokenize_join (l : list token) :
  Forall token_shape l -> joined l -> tokenize (Str.join " " l) = Ok l.
Proof.
  intros Hshape Hj. rewrite tokenize_refines_spec. unfold tokenize_spec.
  rewrite (split_join l Hshape), (merge_split_not_equal l Hj). reflexivity.
Qed.

(** X14: the tokens written out with spaces are read again as they are.
    A list of tokens of the shape [tokenize] gives (each not empty and
    free of white space; "!=", one special character, or free of special
    characters; no "!" directly before an "=") is the result of [tokenize]
    on its tokens joined by spaces.  So [tokenize] reaches every such list,
    and tokenizing its own output written out changes nothing. *)
Theorem tokenize_inverts_join (l : list token) (code : string) :
  (Forall token_shape l -> joined l -> tokenize (Str.join " " l) = Ok l)
  /\ tokenize (Str.join " " (tokenize_spec code)) = tokenize code.
Proof.
  split; [apply tokenize_join|].
  rewrite (tokenize_refines_spec code). apply tokenize_join.
  - apply merge_not_equal_shape, split_surround_shape.
  - intros i. apply merge_not_equal_joined.
Qed.

Lemma tokenize_inverts_join_witness :
  tokenize (Str.join " " ["IF"; "a"; "!="; "b"; "{"; "!"; "!="]) 
  = Ok ["IF"; "a"; "!="; "b"; "{"; "!"; "!="].
Proof.
  apply (proj1 (tokenize_inverts_join ["IF"; "a"; "!="; "b"; "{"; "!"; "!="] EmptyString)).
  - repeat (apply List.Forall_cons;
              [split; [discriminate|split; [reflexivity|]];
               first [ left; reflexivity
                     | right; left; eexists; split; [|reflexivity]; reflexivity
                     | right; right; reflexivity ]|]).
    apply List.Forall_nil.
  - intros i. do 7 (destruct i as [|i]; [simpl; intros; discriminate|]).
    simpl. intros H. discriminate H.
Defined.


(** ** Programs that do not draw *)

Lemma dn_ret {A : Type} (V : A -> Prop) (a : A) : V a -> draws_nothing V (ret a).
Proof.
  intros Ha st r st' Hq H. inversion H; subst.
  split; [exact Hq|]. split; [reflexivity|]. intros b Hb. inversion Hb; subst. exact Ha.
Qed.

Lemma dn_lift {A : Type} (V : A -> Prop) (r : result A) :
  (forall a, r = Ok a -> V a) -> draws_nothing V (lift r).
Proof.
  intros Hr st r' st' Hq H. inversion H; subst.
  split; [exact Hq|]. split; [reflexivity|]. exact Hr.
Qed.

Lemma dn_lift_any {A : Type} (r : result A) : draws_nothing (fun _ => True) (lift r).
Proof. apply dn_lift. intros; exact I. Qed.

Lemma dn_bind {A B : Type} (V : A -> Prop) (W : B -> Prop) (m : M A) (k : A -> M B) :
  draws_nothing V m -> (forall a, V a -> draws_nothing W (k a)) ->
  draws_nothing W (bind m k).
Proof.
  intros Hm Hk st r st' Hq H. unfold bind in H.
  destruct (m st) as [[a|e|] st1] eqn:Hmst;
    destruct (Hm st _ st1 Hq Hmst) as (Hq1 & Hd1 & Hv).
  - destruct (Hk a (Hv a eq_refl) st1 r st' Hq1 H) as (Hq' & Hd' & Hw).
    split; [exact Hq'|]. split; [congruence|exact Hw].
  - inversion H; subst. split; [exact Hq1|]. split; [exact Hd1|]. intros; discriminate.
  - inversion H; subst. split; [exact Hq1|]. split; [exact Hd1|]. intros; discriminate.
Qed.

Lemma dn_get_symbols : draws_nothing quiet_symbols get_symbols.
Proof.
  intros st r st' Hq H. inversion H; subst.
  split; [exact Hq|]. split; [reflexivity|].
  intros a Ha. inversion Ha; subst. exact (proj1 Hq).
Qed.

Lemma dn_get_cursor : draws_nothing (fun _ => True) get_cursor.
Proof.
  intros st r st' Hq H. inversion H; subst.
  split; [exact Hq|]. split; [reflexivity|]. intros; exact I.
Qed.

Lemma dn_set_symbols (m : symtab) :
  quiet_symbols m -> draws_nothing (fun _ => True) (set_symbols m).
Proof.
  intros Hm st r st' [_ Hstack] H. inversion H; subst.
  split; [split; assumption|]. split; [reflexivity|]. intros; exact I.
Qed.

Lemma dn_set_cursor (c : cursor_t) : draws_nothing (fun _ => True) (set_cursor c).
Proof.
  intros st r st' Hq H. inversion H; subst.
  split; [exact Hq|]. split; [reflexivity|]. intros; exact I.
Qed.

Lemma dn_push_stack (m : symtab) :
  quiet_symbols m -> draws_nothing (fun _ => True) (push_stack m).
Proof.
  intros Hm st r st' [Hsyms Hstack] H. inversion H; subst.
  split; [split; [exact Hsyms|constructor; assumption]|].
  split; [reflexivity|]. intros; exact I.
Qed.

Lemma dn_pop_stack : draws_nothing quiet_symbols pop_stack.
Proof.
  intros st r st' [Hsyms Hstack] H. unfold pop_stack in H.
  destruct (call_stack st) as [|m rest] eqn:Hcs; inversion H; subst.
  - split; [split; [exact Hsyms|rewrite Hcs; exact Hstack]|].
    split; [reflexivity|]. intros; discriminate.
  - inversion Hstack; subst.
    split; [split; assumption|]. split; [reflexivity|].
    intros a Ha. inversion Ha; subst. assumption.
Qed.

Lemma dn_random_choice (randbelow : nat -> nat -> nat) :
  draws_nothing (fun _ => True) (random_choice randbelow).
Proof.
  intros st r st' Hq H. inversion H; subst.
  split; [exact Hq|]. split; [reflexivity|]. intros; exact I.
Qed.

Lemma dn_update_symbols (m : symtab) :
  quiet_symbols m -> draws_nothing (fun _ => True) (update_symbols m).
Proof.
  intros Hm. unfold update_symbols.
  eapply dn_bind; [apply dn_get_symbols|]. intros syms Hsyms.
  apply dn_set_symbols, map_Forall_union_2; assumption.
Qed.

Lemma dn_clear_symbols : draws_nothing (fun _ => True) clear_symbols.
Proof. apply dn_set_symbols, map_Forall_empty. Qed.

Lemma value_arith_quiet (op : number -> number -> result number) (a b v : value) :
  value_arith op a b = Ok v -> quiet_value v.
Proof.
  destruct a as [x|]; destruct b as [y|]; simpl; try discriminate.
  destruct (op x y); simpl; intros H; inversion H; subst. exact I.
Qed.

Lemma eval_expr_quiet (syms : symtab) (e : expr) (v : value) :
  quiet_symbols syms -> eval_expr syms e = Ok v -> quiet_value v.
Proof.
  intros Hsyms. revert v. induction e as [f|x|op l IHl r IHr]; intros v; simpl.
  - intros H. inversion H; subst. exact I.
  - destruct (syms !! x) as [w|] eqn:Hx; intros H; inversion H; subst; [|exact I].
    exact (map_Forall_lookup_1 _ _ _ _ Hsyms Hx).
  - destruct (eval_expr syms l) as [lv| |]; simpl; try discriminate.
    destruct (eval_expr syms r) as [rv| |]; simpl; try discriminate.
    destruct op; try apply value_arith_quiet.
    destruct (value_ne_zero rv); [apply value_arith_quiet|].
    intros H. inversion H; subst. exact I.
Qed.

Lemma dn_eval (e : expr) : draws_nothing quiet_value (eval e).
Proof.
  unfold eval. eapply dn_bind; [apply dn_get_symbols|]. intros syms Hsyms.
  apply dn_lift. intros v. apply eval_expr_quiet. exact Hsyms.
Qed.

Lemma bind_arguments_quiet (syms : symtab) (pairs : list (token * expr))
    (local_scope m : symtab) :
  quiet_symbols syms -> quiet_symbols local_scope ->
  bind_arguments syms pairs local_scope = Ok m -> quiet_symbols m.
Proof.
  intros Hsyms. revert local_scope.
  induction pairs as [|[p a] pairs IH]; intros local_scope Hlocal; simpl.
  - intros H. inversion H; subst. exact Hlocal.
  - destruct (eval_expr syms a) as [v| |] eqn:Hv; simpl; try discriminate.
    apply IH, map_Forall_insert_2; [|exact Hlocal].
    exact (eval_expr_quiet _ _ _ Hsyms Hv).
Qed.

Lemma no_drawing_slice (tokens : list token) (a b : nat) :
  no_drawing tokens -> no_drawing (slice tokens a b).
Proof. intros H. unfold slice. apply Forall_take, Forall_drop. exact H. Qed.

Ltac dn_pair :=
  match goal with
  | |- draws_nothing _ (let (_, _) := ?p in _) => destruct p
  end.

Ltac dn_any := eapply dn_bind; [apply dn_lift_any|intros ? _; try dn_pair].

Section NoDrawing.

Variable libm_cos : float -> float.
Variable libm_sin : float -> float.
Variable randbelow : nat -> nat -> nat.

Lemma dn_exec_set (tokens : list token) (i : nat) :
  draws_nothing (fun _ => True) (exec_set tokens i).
Proof.
  unfold exec_set. dn_any. dn_any.
  destruct (negb _); [apply dn_lift_any|]. dn_any.
  eapply dn_bind; [apply dn_eval|intros v Hv].
  eapply dn_bind; [apply dn_get_symbols|intros syms Hsyms].
  eapply dn_bind; [apply dn_set_symbols, map_Forall_insert_2; assumption|intros ? _].
  apply dn_ret. exact I.
Qed.

Lemma dn_exec_define (tokens : list token) (i : nat) :
  no_drawing tokens -> draws_nothing (fun _ => True) (exec_define tokens i).
Proof.
  intros Htokens. unfold exec_define. dn_any. dn_any.
  destruct (negb _); [apply dn_lift_any|]. cbv zeta. dn_any. dn_any.
  destruct (negb _); [apply dn_lift_any|]. dn_any.
  eapply dn_bind; [apply dn_get_symbols|intros syms Hsyms].
  eapply dn_bind; [|intros ? _; apply dn_ret; exact I].
  apply dn_set_symbols, map_Forall_insert_2; [|exact Hsyms].
  apply no_drawing_slice. exact Htokens.
Qed.

Lemma dn_exec_call (interpret_body : list token -> M unit) (tokens : list token)
    (i : nat) :
  (forall body, no_drawing body -> draws_nothing (fun _ => True) (interpret_body body)) ->
  draws_nothing (fun _ => True) (exec_call interpret_body tokens i).
Proof.
  intros Hbody. unfold exec_call. dn_any. dn_any.
  destruct (negb _); [apply dn_lift_any|]. cbv zeta. dn_any.
  eapply dn_bind; [apply dn_get_symbols|intros syms Hsyms].
  destruct (syms !! _) as [[num|params body]|] eqn:Hf; try apply dn_lift_any.
  pose proof (map_Forall_lookup_1 _ _ _ _ Hsyms Hf) as Hquiet. simpl in Hquiet.
  destruct (negb _); [apply dn_lift_any|].
  eapply dn_bind.
  { apply (dn_lift quiet_symbols). intros m. apply bind_arguments_quiet;
      [exact Hsyms|apply map_Forall_empty]. }
  intros local_scope Hlocal.
  eapply dn_bind; [apply dn_push_stack; exact Hsyms|intros ? _].
  eapply dn_bind; [apply dn_update_symbols; exact Hlocal|intros ? _].
  eapply dn_bind; [apply Hbody; exact Hquiet|intros ? _].
  eapply dn_bind; [apply dn_clear_symbols|intros ? _].
  eapply dn_bind; [apply dn_pop_stack|intros saved Hsaved].
  eapply dn_bind; [apply dn_update_symbols; exact Hsaved|intros ? _].
  apply dn_ret. exact I.
Qed.

Lemma dn_exec_if (interpret_body : list token -> M unit) (tokens : list token)
    (i : nat) :
  no_drawing tokens ->
  (forall body, no_drawing body -> draws_nothing (fun _ => True) (interpret_body body)) ->
  draws_nothing (fun _ => True) (exec_if interpret_body tokens i).
Proof.
  intros Htokens Hbody. unfold exec_if. dn_any. dn_any.
  destruct (negb _); [apply dn_lift_any|]. cbv zeta. dn_any.
  eapply dn_bind; [apply dn_get_symbols|intros syms Hsyms]. dn_any.
  eapply dn_bind; [|intros ? _; apply dn_ret; exact I].
  match goal with |- draws_nothing _ (if ?b then _ else _) => destruct b end.
  - apply Hbody, no_drawing_slice, Htokens.
  - apply (dn_ret (fun _ => True)). exact I.
Qed.

Lemma dn_while_loop (run_body : M unit) (fuel : nat) (cond : condition) :
  draws_nothing (fun _ => True) run_body ->
  draws_nothing (fun _ => True) (while_loop run_body fuel cond).
Proof.
  intros Hbody. induction fuel as [|fuel IH]; simpl; [apply dn_lift_any|].
  eapply dn_bind; [apply dn_get_symbols|intros syms Hsyms]. dn_any.
  match goal with |- draws_nothing _ (if ?b then _ else _) => destruct b end.
  - eapply dn_bind; [exact Hbody|intros ? _; exact IH].
  - apply dn_ret. exact I.
Qed.

Lemma dn_exec_while (interpret_body : list token -> M unit) (fuel : nat)
    (tokens : list token) (i : nat) :
  no_drawing tokens ->
  (forall body, no_drawing body -> draws_nothing (fun _ => True) (interpret_body body)) ->
  draws_nothing (fun _ => True) (exec_while interpret_body fuel tokens i).
Proof.
  intros Htokens Hbody. unfold exec_while. dn_any. dn_any.
  destruct (negb _); [apply dn_lift_any|]. cbv zeta. dn_any.
  eapply dn_bind; [|intros ? _; apply dn_ret; exact I].
  apply dn_while_loop, Hbody, no_drawing_slice, Htokens.
Qed.

Lemma dn_set_cursor_angle (a : number) :
  draws_nothing (fun _ => True) (set_cursor_angle a).
Proof.
  unfold set_cursor_angle. eapply dn_bind; [apply dn_get_cursor|intros c _].
  apply dn_set_cursor.
Qed.

Lemma dn_exec_turn (tokens : list token) (i : nat) :
  draws_nothing (fun _ => True) (exec_turn tokens i).
Proof.
  unfold exec_turn. dn_any.
  eapply dn_bind; [apply dn_eval|intros angle_val _]. dn_any.
  eapply dn_bind; [apply dn_get_cursor|intros c _].
  eapply dn_bind; [|intros ? _; apply dn_ret; exact I].
  destruct (String.eqb _ "Right"); [dn_any; apply dn_set_cursor_angle|].
  destruct (String.eqb _ "Left"); [dn_any; apply dn_set_cursor_angle|].
  apply (dn_ret (fun _ => True)). exact I.
Qed.

Lemma dn_exec_color (tokens : list token) (i : nat) :
  draws_nothing (fun _ => True) (exec_color randbelow tokens i).
Proof.
  assert (Hcolor : forall col, draws_nothing (fun _ => True) (set_cursor_color col)).
  { intros col. unfold set_cursor_color.
    eapply dn_bind; [apply dn_get_cursor|intros c _]. apply dn_set_cursor. }
  unfold exec_color. dn_any.
  eapply dn_bind; [|intros ? _; apply dn_ret; exact I].
  destruct (String.eqb _ "Random"); [|apply Hcolor].
  eapply dn_bind; [apply dn_random_choice|intros col _]. apply Hcolor.
Qed.

Lemma dn_exec_statement (interpret_body : list token -> M unit) (fuel : nat)
    (tokens : list token) (i : nat) :
  no_drawing tokens ->
  (forall body, no_drawing body -> draws_nothing (fun _ => True) (interpret_body body)) ->
  draws_nothing (fun _ => True)
    (exec_statement libm_cos libm_sin randbelow interpret_body fuel tokens i).
Proof.
  intros Htokens Hbody. unfold exec_statement.
  eapply dn_bind.
  { apply (dn_lift (fun t => draws t = false)). intros t Ht. unfold getitem in Ht.
    destruct (tokens !! i) as [u|] eqn:Hu; inversion Ht; subst.
    exact (Forall_lookup_1 _ _ _ _ Htokens Hu). }
  intros t Ht. apply orb_false_iff in Ht as [Hmove Hdraw]. rewrite Hmove, Hdraw.
  destruct (String.eqb t "SET"); [apply dn_exec_set|].
  destruct (String.eqb t "DEFINE"); [apply dn_exec_define; exact Htokens|].
  destruct (String.eqb t "CALL"); [apply dn_exec_call; exact Hbody|].
  destruct (String.eqb t "IF"); [apply dn_exec_if; assumption|].
  destruct (String.eqb t "WHILE"); [apply dn_exec_while; assumption|].
  destruct (String.eqb t "TURN"); [apply dn_exec_turn|].
  destruct (String.eqb t "COLOR"); [apply dn_exec_color|].
  apply dn_ret. exact I.
Qed.

Lemma dn_statement_loop (step : nat -> M nat) (fuel len i : nat) :
  (forall j, draws_nothing (fun _ => True) (step j)) ->
  draws_nothing (fun _ => True) (statement_loop step fuel len i).
Proof.
  intros Hstep. revert i. induction fuel as [|fuel IH]; intros i; simpl;
    destruct (i <? len); try (apply dn_ret; exact I); [apply dn_lift_any|].
  eapply dn_bind; [apply Hstep|intros j _; apply IH].
Qed.

Lemma dn_interpret (fuel : nat) (tokens : list token) :
  no_drawing tokens ->
  draws_nothing (fun _ => True) (interpret libm_cos libm_sin randbelow fuel tokens).
Proof.
  revert tokens. induction fuel as [|fuel IH]; intros tokens Htokens; simpl.
  - apply dn_lift_any.
  - apply dn_statement_loop. intros j. apply dn_exec_statement; assumption.
Qed.

(** X15: only MOVE and DRAW draw.  A program in which neither keyword
    occurs, run from a state whose stored functions have neither, sends
    nothing to the screen, however the run ends (return, exception, or
    beyond the fuel): SET, DEFINE, CALL, IF, WHILE, TURN and COLOR never
    draw. *)
Theorem only_move_and_draw_draw (fuel : nat) (tokens : list token) (st : state) :
  no_drawing tokens -> quiet_state st ->
  drawn (snd (interpret libm_cos libm_sin randbelow fuel tokens st)) = drawn st.
Proof.
  intros Htokens Hq.
  destruct (interpret libm_cos libm_sin randbelow fuel tokens st) as [r st'] eqn:H.
  exact (proj1 (proj2 (dn_interpret fuel tokens Htokens st r st' Hq H))).
Qed.

End NoDrawing.

Lemma only_move_and_draw_draw_witness :
  let tokens := ["DEFINE"; "f"; "("; "n"; ")"; "{"; "TURN"; "n"; "Right"; "}";
                 "SET"; "k"; "="; "3"; "WHILE"; "k"; ">"; "0"; "{";
                 "CALL"; "f"; "("; "k"; "*"; "30"; ")"; "COLOR"; "Random";
                 "SET"; "k"; "="; "k"; "-"; "1"; "}"] in
  drawn (snd (interpret (fun x => x) (fun x => x) (fun _ _ => 0) 8 tokens initial_state))
  = drawn initial_state.
Proof.
  cbv zeta.
  apply (only_move_and_draw_draw (fun x => x) (fun x => x) (fun _ _ => 0) 8).
  - repeat (apply List.Forall_cons; [reflexivity|]). apply List.Forall_nil.
  - split; [apply map_Forall_empty|apply List.Forall_nil].
Defined.


(** ** Programs without loops *)

Lemma halts_rbind {A B : Type} (m : result A) (k : A -> result B) :
  is_out_of_fuel m = false -> (forall a, is_out_of_fuel (k a) = false) ->
  is_out_of_fuel (rbind m k) = false.
Proof. intros Hm Hk. destruct m as [a|e|]; simpl; auto. Qed.

Lemma halts_getitem (tokens : list token) (i : nat) :
  is_out_of_fuel (getitem tokens i) = false.
Proof. unfold getitem. destruct (tokens !! i); reflexivity. Qed.

Lemma halts_parse_outcome {A : Type} (tokens : list token) (lo : nat)
    (r : result (A * nat)) :
  parse_outcome tokens lo r -> is_out_of_fuel r = false.
Proof. destruct r as [[a i]|[]|]; simpl; intros H; solve [reflexivity|contradiction]. Qed.

Lemma halts_parse_expression (tokens : list token) (i : nat) (stop : list string) :
  is_out_of_fuel (parse_expression tokens i stop) = false.
Proof. eapply halts_parse_outcome, parse_expression_outcome. Qed.

Lemma halts_parse_condition (tokens : list token) (i : nat) :
  is_out_of_fuel (parse_condition tokens i) = false.
Proof. eapply halts_parse_outcome, parse_condition_outcome. Qed.

Lemma halts_parse_full_expression (token_list : list token) :
  is_out_of_fuel (parse_full_expression token_list) = false.
Proof.
  unfold parse_full_expression. apply halts_rbind; [apply halts_parse_expression|].
  intros [e i]. destruct (negb (i =? length token_list)); reflexivity.
Qed.

Lemma halts_find_block_end (tokens : list token) (start : nat) :
  is_out_of_fuel (find_block_end tokens start) = false.
Proof. rewrite find_block_end_scan. reflexivity. Qed.

Lemma halts_to_float (n : number) : is_out_of_fuel (Num.to_float n) = false.
Proof.
  destruct n as [z|f]; simpl; [|reflexivity].
  unfold Num.float_of_int. destruct (Num.is_inf (Num.float_of_Z z)); reflexivity.
Qed.

Lemma halts_arith (opz : Z -> Z -> Z) (opf : float -> float -> float) (a b : number) :
  is_out_of_fuel (Num.arith opz opf a b) = false.
Proof.
  unfold Num.arith.
  destruct a as [x|f]; destruct b as [y|g]; try reflexivity;
    (apply halts_rbind; [apply halts_to_float|intros ?]);
    (apply halts_rbind; [apply halts_to_float|intros ?]); reflexivity.
Qed.

Lemma halts_div (a b : number) :
  Num.is_zero b = false -> is_out_of_fuel (Num.div a b) = false.
Proof.
  intros Hb. unfold Num.div. rewrite Hb.
  destruct a as [x|f]; destruct b as [y|g];
    try (apply halts_rbind; [apply halts_to_float|intros ?];
         apply halts_rbind; [apply halts_to_float|intros ?]; reflexivity).
  destruct (Num.is_inf _); reflexivity.
Qed.

Lemma halts_value_arith (opz : Z -> Z -> Z) (opf : float -> float -> float)
    (a b : value) :
  is_out_of_fuel (value_arith (Num.arith opz opf) a b) = false.
Proof.
  destruct a as [x|]; destruct b as [y|]; simpl; try reflexivity.
  apply halts_rbind; [apply halts_arith|reflexivity].
Qed.

Lemma halts_eval_expr (syms : symtab) (e : expr) :
  is_out_of_fuel (eval_expr syms e) = false.
Proof.
  induction e as [f|x|op l IHl r IHr]; simpl.
  - reflexivity.
  - destruct (syms !! x); reflexivity.
  - apply halts_rbind; [exact IHl|]. intros lv.
    apply halts_rbind; [exact IHr|]. intros rv.
    destruct op; try apply halts_value_arith.
    destruct (value_ne_zero rv) eqn:Hnz; [|reflexivity].
    destruct lv as [x|]; destruct rv as [y|]; simpl in *; try reflexivity.
    apply negb_true_iff in Hnz.
    apply halts_rbind; [apply halts_div; exact Hnz|reflexivity].
Qed.

Lemma halts_eval_condition (syms : symtab) (cond : condition) :
  is_out_of_fuel (eval_condition syms cond) = false.
Proof.
  unfold eval_condition. apply halts_rbind; [apply halts_eval_expr|]. intros lv.
  apply halts_rbind; [apply halts_eval_expr|]. intros rv.
  destruct (c_op cond); try reflexivity;
    destruct lv; destruct rv; reflexivity.
Qed.

Lemma halts_to_int (n : number) : is_out_of_fuel (Num.to_int n) = false.
Proof.
  destruct n as [z|f]; simpl; [reflexivity|]. destruct (Prim2SF f); reflexivity.
Qed.

Lemma halts_value_to_int (v : value) : is_out_of_fuel (value_to_int v) = false.
Proof. destruct v; simpl; [apply halts_to_int|reflexivity]. Qed.

Lemma halts_as_number (v : value) : is_out_of_fuel (as_number v) = false.
Proof. destruct v; reflexivity. Qed.

Lemma halts_math_radians (x : number) : is_out_of_fuel (math_radians x) = false.
Proof. unfold math_radians. apply halts_rbind; [apply halts_to_float|reflexivity]. Qed.

Lemma halts_math_cos (libm_cos : float -> float) (x : float) :
  is_out_of_fuel (math_cos libm_cos x) = false.
Proof. unfold math_cos. destruct (Num.is_inf x); reflexivity. Qed.

Lemma halts_math_sin (libm_sin : float -> float) (x : float) :
  is_out_of_fuel (math_sin libm_sin x) = false.
Proof. unfold math_sin. destruct (Num.is_inf x); reflexivity. Qed.

Lemma halts_define_params (tokens : list token) (j : nat) :
  is_out_of_fuel (define_params (scan_fuel tokens j) tokens j []) = false.
Proof.
  pose proof (define_params_total (scan_fuel tokens j) tokens j []) as H.
  destruct (define_params (scan_fuel tokens j) tokens j []); try reflexivity.
  exfalso. apply H; [unfold scan_fuel; lia|reflexivity].
Qed.

Ltac halts_pure :=
  repeat first
    [ reflexivity
    | assumption
    | apply halts_getitem
    | apply halts_parse_expression
    | apply halts_parse_condition
    | apply halts_find_block_end
    | apply halts_define_params
    | apply halts_eval_expr
    | apply halts_eval_condition
    | apply halts_arith
    | apply halts_to_int
    | apply halts_value_to_int
    | apply halts_as_number
    | apply halts_math_radians
    | apply halts_math_cos
    | apply halts_math_sin
    | apply halts_rbind; [|intros ?]
    | match goal with
      | |- is_out_of_fuel (if ?b then _ else _) = false => destruct b
      | |- is_out_of_fuel (let (_, _) := ?p in _) = false => destruct p
      | |- is_out_of_fuel (match ?x with _ => _ end) = false => destruct x
      end ].

Lemma halts_star_points (libm_cos libm_sin : float -> float) (pos : Z * Z) (size : value)
    (range : list Z) (points : list (number * number)) :
  is_out_of_fuel (star_points libm_cos libm_sin pos size range points) = false.
Proof.
  revert points. induction range as [|i range IH]; intros points; simpl; [reflexivity|].
  apply halts_rbind; [unfold star_outer; halts_pure|]. intros outer.
  apply halts_rbind; [unfold star_inner; halts_pure|]. intros inner. apply IH.
Qed.

Lemma halts_ret {A : Type} (a : A) : halts (ret a).
Proof. intros st. reflexivity. Qed.

Lemma halts_lift {A : Type} (r : result A) :
  is_out_of_fuel r = false -> halts (lift r).
Proof. intros H st. exact H. Qed.

Lemma halts_bind {A B : Type} (m : M A) (k : A -> M B) :
  halts m -> (forall a, halts (k a)) ->
  halts (bind m k).
Proof.
  intros Hm Hk st. unfold bind. specialize (Hm st).
  destruct (m st) as [[a|e|] st1]; simpl in *; [apply Hk|reflexivity|discriminate].
Qed.

Lemma halts_get_symbols : halts get_symbols.
Proof. intros st. reflexivity. Qed.

Lemma halts_get_cursor : halts get_cursor.
Proof. intros st. reflexivity. Qed.

Lemma halts_set_symbols (m : symtab) : halts (set_symbols m).
Proof. intros st. reflexivity. Qed.

Lemma halts_set_cursor (c : cursor_t) : halts (set_cursor c).
Proof. intros st. reflexivity. Qed.

Lemma halts_draw (p : primitive) : halts (draw p).
Proof. intros st. reflexivity. Qed.

Lemma halts_random_choice (randbelow : nat -> nat -> nat) :
  halts (random_choice randbelow).
Proof. intros st. reflexivity. Qed.

Ltac halts_step :=
  first
    [ assumption
    | apply halts_ret
    | apply halts_lift; solve [halts_pure | apply halts_star_points]
    | apply halts_get_symbols
    | apply halts_get_cursor
    | apply halts_set_symbols
    | apply halts_set_cursor
    | apply halts_draw
    | apply halts_random_choice
    | match goal with H : forall _, _ |- _ => apply H end
    | apply halts_bind; [|intros ?]
    | progress cbv zeta
    | match goal with
      | |- halts (if ?b then _ else _) => destruct b
      | |- halts (let (_, _) := ?p in _) => destruct p
      | |- halts (match ?x with _ => _ end) => destruct x
      end ].

Ltac halts_auto := repeat halts_step.

Lemma loop_free_slice (tokens : list token) (a b : nat) :
  loop_free tokens -> loop_free (slice tokens a b).
Proof. intros H. unfold slice. apply Forall_take, Forall_drop. exact H. Qed.

Lemma slice_shorter (tokens : list token) (a b : nat) :
  0 < length tokens -> length (slice tokens (a + 1) b) < length tokens.
Proof. intros H. unfold slice. rewrite length_take, length_drop. lia. Qed.

Section LoopFree.

Variable libm_cos : float -> float.
Variable libm_sin : float -> float.
Variable randbelow : nat -> nat -> nat.

Lemma halts_exec_set (tokens : list token) (i : nat) : halts (exec_set tokens i).
Proof. unfold exec_set, raise. halts_auto. Qed.

Lemma halts_exec_define (tokens : list token) (i : nat) : halts (exec_define tokens i).
Proof. unfold exec_define, raise. halts_auto. Qed.

Lemma halts_exec_if (interpret_body : list token -> M unit) (tokens : list token)
    (i : nat) :
  loop_free tokens -> 0 < length tokens ->
  (forall body, loop_free body -> length body < length tokens ->
                halts (interpret_body body)) ->
  halts (exec_if interpret_body tokens i).
Proof.
  intros Hfree Hlen Hbody. unfold exec_if, raise. halts_auto.
  - apply loop_free_slice. exact Hfree.
  - apply slice_shorter. exact Hlen.
Qed.

Lemma halts_exec_move (tokens : list token) (i : nat) :
  halts (exec_move libm_cos libm_sin tokens i).
Proof. unfold exec_move, move_cursor, advance. halts_auto. Qed.

Lemma halts_exec_turn (tokens : list token) (i : nat) : halts (exec_turn tokens i).
Proof. unfold exec_turn. halts_auto. Qed.

Lemma halts_exec_draw (tokens : list token) (i : nat) :
  halts (exec_draw libm_cos libm_sin tokens i).
Proof. unfold exec_draw, draw_shape. halts_auto. Qed.

Lemma halts_exec_color (tokens : list token) (i : nat) :
  halts (exec_color randbelow tokens i).
Proof. unfold exec_color. halts_auto. Qed.

Lemma halts_exec_statement (interpret_body : list token -> M unit) (fuel : nat)
    (tokens : list token) (i : nat) :
  loop_free tokens ->
  (forall body, loop_free body -> length body < length tokens ->
                halts (interpret_body body)) ->
  halts (exec_statement libm_cos libm_sin randbelow interpret_body fuel tokens i).
Proof.
  intros Hfree Hbody st. unfold exec_statement, bind, lift, getitem.
  destruct (tokens !! i) as [t|] eqn:Ht; [|reflexivity].
  pose proof (Forall_lookup_1 _ _ _ _ Hfree Ht) as Hr.
  apply orb_false_iff in Hr as [Hwhile Hcall].
  assert (Hlen : 0 < length tokens) by (apply lookup_lt_Some in Ht; lia).
  rewrite Hwhile, Hcall. cbv beta iota.
  destruct (String.eqb t "SET"); [apply halts_exec_set|].
  destruct (String.eqb t "DEFINE"); [apply halts_exec_define|].
  destruct (String.eqb t "IF"); [apply halts_exec_if; assumption|].
  destruct (String.eqb t "MOVE"); [apply halts_exec_move|].
  destruct (String.eqb t "TURN"); [apply halts_exec_turn|].
  destruct (String.eqb t "DRAW"); [apply halts_exec_draw|].
  destruct (String.eqb t "COLOR"); [apply halts_exec_color|].
  reflexivity.
Qed.

Lemma exec_statement_forward (interpret_body : list token -> M unit) (fuel : nat)
    (tokens : list token) (i i' : nat) (st st' : state) :
  exec_statement libm_cos libm_sin randbelow interpret_body fuel tokens i st
  = (Ok i', st') ->
  i < i'.
Proof.
  unfold exec_statement. intros H. bind_step H. apply getitem_ok in Hstep.
  repeat match type of H with
         | (if ?b then _ else _) _ = _ => destruct b
         end;
    [eapply exec_set_progress|eapply exec_define_progress|eapply exec_call_progress
    |eapply exec_if_progress|eapply exec_while_progress|eapply exec_move_progress
    |eapply exec_turn_progress|eapply exec_draw_progress|eapply exec_color_progress|];
    try exact H.
  ret_step H. lia.
Qed.

Lemma halts_statement_loop (step : nat -> M nat) (fuel len i : nat) :
  (forall j, halts (step j)) ->
  (forall j st j' st', step j st = (Ok j', st') -> j < j') ->
  len - i <= fuel ->
  halts (statement_loop step fuel len i).
Proof.
  intros Hhalts Hforward. revert i.
  induction fuel as [|fuel IH]; intros i Hfuel st; simpl;
    destruct (i <? len) eqn:Hi; try reflexivity; apply Nat.ltb_lt in Hi; [lia|].
  unfold bind. pose proof (Hhalts i st) as Hstep.
  destruct (step i st) as [[j|e|] st1] eqn:Hs; simpl in Hstep;
    [|reflexivity|discriminate].
  apply Hforward in Hs. apply IH. lia.
Qed.

Lemma halts_interpret (fuel : nat) (tokens : list token) :
  loop_free tokens -> length tokens < fuel ->
  halts (interpret libm_cos libm_sin randbelow fuel tokens).
Proof.
  revert tokens. induction fuel as [|fuel IH]; intros tokens Hfree Hfuel; [lia|].
  simpl. apply halts_statement_loop; [| |lia].
  - intros j. apply halts_exec_statement; [exact Hfree|].
    intros body Hbody Hlen. apply IH; [exact Hbody|lia].
  - intros j st j' st'. apply exec_statement_forward.
Qed.

(** X16: a program without loops ends.  When neither WHILE nor CALL
    occurs among the tokens, [interpret] returns or raises, from any state:
    at each level of nesting it handles at most one statement for each
    token, and the body of an IF is shorter than the tokens around it.
    Fuel above the number of tokens is never used up. *)
Theorem loop_free_programs_end (fuel : nat) (tokens : list token) (st : state) :
  loop_free tokens -> length tokens < fuel ->
  is_out_of_fuel (fst (interpret libm_cos libm_sin randbelow fuel tokens st)) = false.
Proof. intros Hfree Hfuel. apply halts_interpret; assumption. Qed.

End LoopFree.

Lemma loop_free_programs_end_witness :
  let tokens := ["SET"; "x"; "="; "2"; "IF"; "x"; ">"; "1"; "{";
                 "IF"; "x"; "<"; "3"; "{"; "MOVE"; "x"; "*"; "10"; "Forward"; "}";
                 "DRAW"; "Circle"; "x"; "}"; "TURN"; "f"; "Left"] in
  is_out_of_fuel
    (fst (interpret (fun x => x) (fun x => x) (fun _ _ => 0) (S (length tokens)) tokens
            initial_state)) = false.
Proof.
  cbv zeta.
  apply (loop_free_programs_end (fun x => x) (fun x => x) (fun _ _ => 0)).
  - repeat (apply List.Forall_cons; [reflexivity|]). apply List.Forall_nil.
  - simpl. lia.
Defined.


(** ** Conditions, and the expression up to a stop token *)

Lemma relop_is_no_operator (op : token) (rop : relop) :
  relop_of_token op = Some rop -> is_operator op = false.
Proof.
  unfold relop_of_token.
  destruct (String.eqb_spec op ">") as [->|]; [reflexivity|].
  destruct (String.eqb_spec op "<") as [->|]; [reflexivity|].
  destruct (String.eqb_spec op "=") as [->|]; [reflexivity|].
  destruct (String.eqb_spec op "!=") as [->|]; [reflexivity|discriminate].
Qed.

Lemma parse_condition_renders (l r : expr) (tl tr pre rest : list token)
    (op : token) (rop : relop) :
  renders Expression l tl -> renders Expression r tr ->
  relop_of_token op = Some rop ->
  Forall (fun t => mem t [">"; "<"; "="; "!="] = false) tl ->
  Forall (fun t => mem t ["{"] = false) tr ->
  parse_condition (pre ++ tl ++ op :: tr ++ "{" :: rest) (length pre)
  = Ok (Cond l rop r, length pre + length tl + 1 + length tr).
Proof.
  intros Hl Hr Hop Hcl Hcr. unfold parse_condition.
  rewrite (parse_expression_renders l tl pre (op :: tr ++ "{" :: rest) _ Hl Hcl)
    by (simpl; rewrite (relop_is_no_operator op rop Hop); reflexivity).
  cbn [rbind].
  assert (Hat : (pre ++ tl ++ op :: tr ++ "{" :: rest) !! (length pre + length tl)
                = Some op).
  { rewrite app_assoc, lookup_app_r by (rewrite length_app; lia).
    rewrite length_app. replace (_ - _) with 0 by lia. reflexivity. }
  pose proof (lookup_lt_Some _ _ _ Hat) as Hlt. apply Nat.leb_gt in Hlt.
  rewrite Hlt. unfold getitem. rewrite Hat. cbn [rbind]. rewrite Hop.
  replace (pre ++ tl ++ op :: tr ++ "{" :: rest)
    with ((pre ++ tl ++ [op]) ++ tr ++ "{" :: rest)
    by (rewrite <- !app_assoc; reflexivity).
  replace (length pre + length tl + 1) with (length (pre ++ tl ++ [op]))
    by (rewrite !length_app; simpl; lia).
  rewrite (parse_expression_renders r tr _ ("{" :: rest) _ Hr Hcr eq_refl).
  reflexivity.
Qed.

(** X17: the condition parser inverts the grammar of conditions.  Two
    expressions written by the grammar with a comparison operator between
    them and the "{" of the block after them are parsed to the condition
    of the two trees and the operator, and the index returned is that of
    the "{"; provided the left writing holds no comparison operator and
    the right one no "{". *)
Theorem parse_condition_inverts_grammar (l r : expr) (tl tr pre rest : list token)
    (op : token) (rop : relop) :
  renders Expression l tl -> renders Expression r tr ->
  relop_of_token op = Some rop ->
  Forall (fun t => mem t [">"; "<"; "="; "!="] = false) tl ->
  Forall (fun t => mem t ["{"] = false) tr ->
  parse_condition (pre ++ tl ++ op :: tr ++ "{" :: rest) (length pre)
  = Ok (Cond l rop r, length pre + length tl + 1 + length tr).
Proof. apply parse_condition_renders. Qed.

Lemma parse_condition_inverts_grammar_witness :
  parse_condition
    (["WHILE"] ++ ["n"; "-"; "1"] ++ "!=" :: ["k"; "*"; "2"] ++ "{" :: ["}"])
    (length ["WHILE"])
  = Ok (Cond (BinOp Sub (Name "n") (Lit 1)) Ne_ (BinOp Mul (Name "k") (Lit 2)),
        length ["WHILE"] + length ["n"; "-"; "1"] + 1 + length ["k"; "*"; "2"]).
Proof.
  apply (parse_condition_inverts_grammar
           (BinOp Sub (Name "n") (Lit 1)) (BinOp Mul (Name "k") (Lit 2))
           ["n"; "-"; "1"] ["k"; "*"; "2"] ["WHILE"] ["}"] "!=" Ne_).
  - apply (renders_sum Sub (Name "n") (Lit 1) ["n"] ["1"]); [reflexivity| |].
    + apply renders_term, renders_factor, renders_name. reflexivity.
    + apply renders_factor, renders_number; vm_compute; reflexivity.
  - apply renders_term.
    apply (renders_product Mul (Name "k") (Lit 2) ["k"] ["2"]); [reflexivity| |].
    + apply renders_factor, renders_name. reflexivity.
    + apply renders_number; vm_compute; reflexivity.
  - reflexivity.
  - repeat (apply List.Forall_cons; [reflexivity|]). apply List.Forall_nil.
  - repeat (apply List.Forall_cons; [reflexivity|]). apply List.Forall_nil.
Defined.

Lemma parse_expression_until_loop_scan (toks : list token) (tokens : list token)
    (stop : list string) (rest : list token) (fuel i : nat) :
  Forall (fun t => mem t stop = false) toks -> stops_at stop rest = true ->
  drop i tokens = toks ++ rest -> length tokens - i <= fuel ->
  parse_expression_until_loop fuel tokens stop i = Ok (i + length toks).
Proof.
  intros Htoks Hrest. revert fuel i.
  induction Htoks as [|t toks Ht _ IH]; intros fuel i Hdrop Hfuel.
  - simpl in Hdrop. rewrite Nat.add_0_r.
    destruct rest as [|t rest].
    + apply (f_equal length) in Hdrop. rewrite length_drop in Hdrop. simpl in Hdrop.
      destruct fuel; simpl; replace (i <? length tokens) with false
        by (symmetry; apply Nat.ltb_ge; lia); reflexivity.
    + apply drop_head in Hdrop as (Hi & Hlt & _). simpl in Hrest.
      apply Nat.ltb_lt in Hlt.
      destruct fuel; simpl; rewrite Hlt; unfold getitem; rewrite Hi; simpl;
        rewrite Hrest; reflexivity.
  - simpl in Hdrop. apply drop_head in Hdrop as (Hi & Hlt & Hdrop).
    destruct fuel as [|fuel]; [lia|].
    simpl. pose proof Hlt as Hlt'. apply Nat.ltb_lt in Hlt'. rewrite Hlt'.
    unfold getitem. rewrite Hi. simpl. rewrite Ht. simpl.
    rewrite (IH fuel (i + 1) Hdrop ltac:(lia)). f_equal. lia.
Qed.

(** X18: the helper the source leaves unused agrees with
    [parse_expression].  On an expression written by the grammar, with none
    of the stop tokens in it, that ends with the tokens or before a stop
    token which is not an operator, [parse_expression_until] returns the
    same tree and the same index as [parse_expression]. *)
Theorem parse_expression_until_agrees (e : expr) (toks pre rest : list token)
    (stop : list string) :
  renders Expression e toks ->
  Forall (fun t => mem t stop = false) toks ->
  stops_at stop rest = true -> ends_expression rest = true ->
  parse_expression_until (pre ++ toks ++ rest) (length pre) stop
  = Ok (e, length pre + length toks)
  /\ parse_expression (pre ++ toks ++ rest) (length pre) stop
     = Ok (e, length pre + length toks).
Proof.
  intros Hr Hclear Hstop Hend. split; [|apply parse_expression_renders; assumption].
  unfold parse_expression_until.
  rewrite (parse_expression_until_loop_scan toks (pre ++ toks ++ rest) stop rest
             (length (pre ++ toks ++ rest) - length pre) (length pre) Hclear Hstop
             (drop_app_length pre (toks ++ rest)) (Nat.le_refl _)).
  cbn [rbind]. unfold slice.
  replace (length pre + length toks - length pre) with (length toks) by lia.
  rewrite drop_app_length, take_app_length.
  pose proof (parse_expression_renders e toks [] [] [] Hr) as H.
  rewrite app_nil_r in H. simpl in H.
  unfold parse_full_expression. rewrite H.
  - simpl. rewrite Nat.eqb_refl. reflexivity.
  - apply Forall_forall. intros t _. reflexivity.
  - reflexivity.
Qed.

Lemma parse_expression_until_agrees_witness :
  let e := BinOp Mul (BinOp Add (Name "a") (Lit 1)) (Name "b") in
  let toks := ["("; "a"; "+"; "1"; ")"; "*"; "b"] in
  parse_expression_until (["DRAW"; "Circle"] ++ toks ++ ["AT"; "0"; ","; "0"])
    (length ["DRAW"; "Circle"]) DRAW_STOP_TOKENS
  = Ok (e, length ["DRAW"; "Circle"] + length toks)
  /\ parse_expression (["DRAW"; "Circle"] ++ toks ++ ["AT"; "0"; ","; "0"])
       (length ["DRAW"; "Circle"]) DRAW_STOP_TOKENS
     = Ok (e, length ["DRAW"; "Circle"] + length toks).
Proof.
  cbv zeta.
  apply (parse_expression_until_agrees
           (BinOp Mul (BinOp Add (Name "a") (Lit 1)) (Name "b"))
           ["("; "a"; "+"; "1"; ")"; "*"; "b"] ["DRAW"; "Circle"]
           ["AT"; "0"; ","; "0"] DRAW_STOP_TOKENS).
  - apply renders_term.
    apply (renders_product Mul _ (Name "b") ["("; "a"; "+"; "1"; ")"] ["b"]);
      [reflexivity| |].
    + apply renders_factor. apply (renders_paren _ ["a"; "+"; "1"]).
      apply (renders_sum Add (Name "a") (Lit 1) ["a"] ["1"]); [reflexivity| |].
      * apply renders_term, renders_factor, renders_name. reflexivity.
      * apply renders_factor, renders_number; vm_compute; reflexivity.
    + apply renders_name. reflexivity.
  - repeat (apply List.Forall_cons; [reflexivity|]). apply List.Forall_nil.
  - reflexivity.
  - reflexivity.
Defined.

(** ** What cannot be an operand *)

(** X19: an operand is a number, a name of letters, a keyword or a
    parenthesis.  Where an operand is expected (here: at the start of an
    expression), any other token that is not a stop token is refused with
    the exception that names it.  So a sign is not read ([-5] is refused at
    the "-"), and a name with a digit in it, which SET takes as a variable,
    cannot be read back in an expression. *)
Theorem operand_is_refused (tokens : list token) (i : nat) (stop : list string)
    (t : token) :
  tokens !! i = Some t ->
  mem t stop = false ->
  String.eqb t "(" = false ->
  Str.isdigit (Str.remove_first t ".") = false ->
  Str.isalpha t = false ->
  mem t COMMAND_KEYWORDS = false ->
  parse_expression tokens i stop
  = Raise (Exception (String.append "Unexpected token in expression: " t)).
Proof.
  intros Ht Hstop Hopen Hdigit Halpha Hkeyword.
  pose proof (lookup_lt_Some _ _ _ Ht) as Hlt. apply Nat.leb_gt in Hlt.
  unfold parse_expression, parse_fuel. rewrite parse_expression_fuel_S.
  unfold parse_term, parse_factor, getitem.
  rewrite Hlt, Ht. cbn [rbind].
  rewrite Hstop, Hopen, Hdigit, Halpha, Hkeyword. reflexivity.
Qed.

Lemma operand_is_refused_witness :
  parse_expression ["MOVE"; "x1"; "Forward"] 1 ["Forward"; "Backward"]
  = Raise (Exception (String.append "Unexpected token in expression: " "x1"))
  /\ parse_expression ["SET"; "y"; "="; "-"; "5"] 3 COMMAND_KEYWORDS
     = Raise (Exception (String.append "Unexpected token in expression: " "-")).
Proof.
  split.
  - apply (operand_is_refused ["MOVE"; "x1"; "Forward"] 1 ["Forward"; "Backward"] "x1");
      reflexivity.
  - vm_compute. reflexivity.
Defined.

(** ** Leaving the main loop *)

Section Quit.

Variable libm_cos : float -> float.
Variable libm_sin : float -> float.
Variable randbelow : nat -> nat -> nat.

Lemma handle_event_stopped (fuel : nat) (u : ui) (e : event) (u' : ui) :
  running_main u = false ->
  handle_event libm_cos libm_sin randbelow fuel u e = Ok u' ->
  running_main u' = false.
Proof.
  intros Hu H. destruct e as [|key unicode|]; simpl in H.
  - inversion H; subst. reflexivity.
  - destruct (current_state u).
    + destruct (key =? K_SPACE)%Z; inversion H; subst; exact Hu.
    + destruct (key =? K_RETURN)%Z.
      { unfold key_return in H.
        destruct (tokenize (code_to_run u)) as [tokens|x|]; simpl in H; try discriminate.
        destruct (interpret _ _ _ fuel tokens _) as [[[]|x|] st']; inversion H; subst.
        exact Hu. }
      destruct (key =? K_BACKSPACE)%Z; [inversion H; subst; exact Hu|].
      destruct (key =? K_TAB)%Z; [inversion H; subst; exact Hu|].
      destruct (isprintable unicode); inversion H; subst; exact Hu.
    + destruct (key =? K_r)%Z; inversion H; subst; exact Hu.
  - inversion H; subst. exact Hu.
Qed.

Lemma handle_events_stopped (fuel : nat) (events : list event) (u u' : ui) :
  running_main u = false ->
  handle_events libm_cos libm_sin randbelow fuel events u = Ok u' ->
  running_main u' = false.
Proof.
  revert u. induction events as [|e events IH]; intros u Hu H; simpl in H.
  - inversion H; subst. exact Hu.
  - destruct (handle_event libm_cos libm_sin randbelow fuel u e) as [u1|x|] eqn:He;
      simpl in H; try discriminate.
    apply (IH u1); [|exact H]. exact (handle_event_stopped fuel u e u1 Hu He).
Qed.

Lemma handle_events_quit (fuel : nat) (events : list event) (u u' : ui) :
  In QUIT events ->
  handle_events libm_cos libm_sin randbelow fuel events u = Ok u' ->
  running_main u' = false.
Proof.
  revert u. induction events as [|e events IH]; intros u Hin H; [destruct Hin|].
  simpl in H.
  destruct (handle_event libm_cos libm_sin randbelow fuel u e) as [u1|x|] eqn:He;
    simpl in H; try discriminate.
  destruct Hin as [->|Hin]; [|exact (IH u1 Hin H)].
  simpl in He. inversion He; subst.
  eapply handle_events_stopped; [|exact H]. reflexivity.
Qed.

(** X20: QUIT ends the loop after its frame.  The events that come with
    a QUIT in one frame are all handled, those before it and those after
    it (an Enter after it still runs the program); no later frame is
    looked at. *)
Theorem quit_ends_the_loop (fuel : nat) (events : list event)
    (later : list (list event)) (u : ui) :
  running_main u = true -> In QUIT events ->
  main_loop libm_cos libm_sin randbelow fuel (events :: later) u
  = handle_events libm_cos libm_sin randbelow fuel events u.
Proof.
  intros Hu Hin. simpl. rewrite Hu.
  destruct (handle_events libm_cos libm_sin randbelow fuel events u) as [u'|x|] eqn:H;
    [|reflexivity|reflexivity].
  pose proof (handle_events_quit fuel events u u' Hin H) as Hstop.
  cbn [rbind]. destruct later; simpl; rewrite Hstop; reflexivity.
Qed.

End Quit.

Lemma quit_ends_the_loop_witness :
  let events := [KEYDOWN K_SPACE " "; QUIT; KEYDOWN 120 "x"] in
  main_loop (fun x => x) (fun x => x) (fun _ _ => 0) 5
    (events :: [[KEYDOWN K_RETURN EmptyString]]) initial_ui
  = handle_events (fun x => x) (fun x => x) (fun _ _ => 0) 5 events initial_ui.
Proof.
  cbv zeta.
  apply (quit_ends_the_loop (fun x => x) (fun x => x) (fun _ _ => 0) 5
           [KEYDOWN K_SPACE " "; QUIT; KEYDOWN 120 "x"]
           [[KEYDOWN K_RETURN EmptyString]] initial_ui).
  - reflexivity.
  - right. left. reflexivity.
Defined.

(** ** What SET, IF and DEFINE do on a statement written in full *)

Ltac reassociate :=
  repeat first [rewrite <- app_assoc | rewrite <- app_comm_cons]; reflexivity.

Lemma lookup_after (pre l : list token) (k : nat) :
  (pre ++ l) !! (length pre + k) = l !! k.
Proof. rewrite lookup_app_r by lia. f_equal. lia. Qed.

Lemma lookup_at (pre l : list token) : (pre ++ l) !! (length pre) = l !! 0.
Proof. rewrite <- (lookup_after pre l 0), Nat.add_0_r. reflexivity. Qed.

Lemma define_params_scan (ptoks : list token) (tokens : list token) (more : list token)
    (fuel j : nat) (acc : list token) :
  Forall (fun t => t <> ")") ptoks ->
  drop j tokens = ptoks ++ ")" :: more -> length tokens - j < fuel ->
  define_params fuel tokens j acc
  = Ok (acc ++ List.filter (fun t => negb (String.eqb t ",")) ptoks, j + length ptoks).
Proof.
  intros Hp. revert fuel j acc.
  induction Hp as [|t ptoks Ht _ IH]; intros fuel j acc Hdrop Hfuel;
    (destruct fuel as [|fuel]; [lia|]); simpl in Hdrop;
    apply drop_head in Hdrop as (Hj & Hlt & Hdrop); simpl; unfold getitem; rewrite Hj;
    cbn [rbind].
  - rewrite app_nil_r, Nat.add_0_r. reflexivity.
  - apply String.eqb_neq in Ht. rewrite Ht. cbn [negb].
    rewrite (IH fuel (j + 1) _ Hdrop ltac:(lia)).
    replace (j + 1 + length ptoks) with (j + S (length ptoks)) by lia.
    destruct (negb (String.eqb t ",")); [rewrite <- app_assoc|]; reflexivity.
Qed.

Section Statements.

Variable libm_cos : float -> float.
Variable libm_sin : float -> float.
Variable randbelow : nat -> nat -> nat.
Variable interpret_body : list token -> M unit.
Variable fuel : nat.

(** X21: SET assigns the value of the expression the grammar writes.  On
    [SET x = <expression>], the expression written by the grammar without a
    command keyword in it and followed by no operator, the statement binds
    [x] (any token) to the value of the tree, changes nothing else, and
    goes on at the token after the expression. *)
Theorem set_assigns_the_value (pre toks rest : list token) (x : token) (e : expr)
    (v : value) (st : state) :
  renders Expression e toks ->
  Forall (fun t => mem t COMMAND_KEYWORDS = false) toks ->
  ends_expression rest = true ->
  eval_expr (symbols st) e = Ok v ->
  exec_statement libm_cos libm_sin randbelow interpret_body fuel
    (pre ++ "SET" :: x :: "=" :: toks ++ rest) (length pre) st
  = (Ok (length pre + 3 + length toks), with_symbols st (<[x := v]> (symbols st))).
Proof.
  intros Hr Hclear Hend Hv.
  assert (Hparse : parse_expression (pre ++ "SET" :: x :: "=" :: toks ++ rest)
                     (length pre + 3) COMMAND_KEYWORDS
                   = Ok (e, length pre + 3 + length toks)).
  { replace (pre ++ "SET" :: x :: "=" :: toks ++ rest)
      with ((pre ++ ["SET"; x; "="]) ++ toks ++ rest)
      by (rewrite <- app_assoc; reflexivity).
    replace (length pre + 3) with (length (pre ++ ["SET"; x; "="]))
      by (rewrite length_app; reflexivity).
    apply parse_expression_renders; assumption. }
  unfold exec_statement, bind, lift, getitem. rewrite lookup_at. cbn [lookup list_lookup].
  cbv beta iota. rewrite String.eqb_refl.
  unfold exec_set, bind, lift, getitem, raise, eval, get_symbols, set_symbols, ret.
  rewrite !lookup_after. cbn [lookup list_lookup]. cbv beta iota.
  rewrite String.eqb_refl. cbn [negb]. rewrite Hparse. cbv beta iota.
  unfold bind, lift. cbv beta iota. rewrite Hv. reflexivity.
Qed.

(** X22: IF runs its block once when the condition holds and not at all
    when it does not.  On [IF <condition> { <body> }], the condition written
    by the grammar and the braces of the body matched among themselves,
    the statement runs [interpret] on exactly the body when the condition
    evaluates to true, does nothing when it evaluates to false, and in both
    cases goes on at the token after the closing brace. *)
Theorem if_runs_its_block_or_skips_it (pre tl tr body rest : list token)
    (op : token) (rop : relop) (l r : expr) (b : bool) (st : state) :
  renders Expression l tl -> renders Expression r tr ->
  relop_of_token op = Some rop ->
  Forall (fun t => mem t [">"; "<"; "="; "!="] = false) tl ->
  Forall (fun t => mem t ["{"] = false) tr ->
  well_nested body ->
  eval_condition (symbols st) (Cond l rop r) = Ok b ->
  let next := length pre + 1 + length tl + 1 + length tr + 1 + length body + 1 in
  exec_statement libm_cos libm_sin randbelow interpret_body fuel
    (pre ++ "IF" :: tl ++ op :: tr ++ "{" :: body ++ "}" :: rest) (length pre) st
  = if b then (let! _ := interpret_body body in ret next) st else (Ok next, st).
Proof.
  intros Hl Hr Hop Hcl Hcr Hbody Hb next.
  set (tokens := pre ++ "IF" :: tl ++ op :: tr ++ "{" :: body ++ "}" :: rest).
  set (open := length pre + 1 + length tl + 1 + length tr).
  assert (Hcond : parse_condition tokens (length pre + 1) = Ok (Cond l rop r, open)).
  { unfold tokens, open.
    replace (pre ++ "IF" :: tl ++ op :: tr ++ "{" :: body ++ "}" :: rest)
      with ((pre ++ ["IF"]) ++ tl ++ op :: tr ++ "{" :: body ++ "}" :: rest)
      by (rewrite <- app_assoc; reflexivity).
    replace (length pre + 1) with (length (pre ++ ["IF"]))
      by (rewrite length_app; reflexivity).
    apply parse_condition_renders; assumption. }
  assert (Hsplit : tokens = (pre ++ "IF" :: tl ++ op :: tr ++ ["{"]) ++ body ++ "}" :: rest).
  { unfold tokens. reassociate. }
  assert (Hlen : length (pre ++ "IF" :: tl ++ op :: tr ++ ["{"]) = open + 1).
  { unfold open. repeat (rewrite length_app; simpl). lia. }
  assert (Hopen : tokens !! open = Some "{").
  { rewrite Hsplit. rewrite lookup_app_l by lia.
    replace open with (length (pre ++ "IF" :: tl ++ op :: tr) + 0)
      by (unfold open; repeat (rewrite length_app; simpl); lia).
    replace (pre ++ "IF" :: tl ++ op :: tr ++ ["{"])
      with ((pre ++ "IF" :: tl ++ op :: tr) ++ ["{"])
      by reassociate.
    rewrite lookup_after. reflexivity. }
  assert (Hend : find_block_end tokens (open + 1) = Ok (open + 1 + length body + 1)).
  { rewrite Hsplit, <- Hlen.
    apply find_block_end_matched, well_nested_closes, Hbody. }
  assert (Hslice : slice tokens (open + 1) (open + 1 + length body + 1 - 1) = body).
  { rewrite Hsplit, <- Hlen. unfold slice. rewrite drop_app_length.
    match goal with |- take ?n _ = _ => replace n with (length body) by lia end.
    apply take_app_length. }
  unfold exec_statement, bind, lift, getitem. unfold tokens at 1.
  rewrite lookup_at. cbn [lookup list_lookup]. cbv beta iota.
  change (String.eqb "IF" "SET") with false. change (String.eqb "IF" "DEFINE") with false.
  change (String.eqb "IF" "CALL") with false. rewrite String.eqb_refl.
  fold tokens.
  unfold exec_if, bind, lift, getitem, raise, get_symbols, ret.
  rewrite Hcond. cbv beta iota. rewrite Hopen. cbv beta iota.
  rewrite String.eqb_refl. cbn [negb]. cbv beta iota zeta.
  rewrite Hend. cbv beta iota. rewrite Hb. cbv beta iota. rewrite Hslice.
  replace (open + 1 + length body + 1) with next by (unfold next, open; lia).
  destruct b; [|reflexivity].
  destruct (interpret_body body st) as [[[]|x|] st']; reflexivity.
Qed.

(** X23: DEFINE stores the function and does not run it.  On
    [DEFINE f ( <parameters> ) { <body> }], the parameters any tokens but
    ")" and the braces of the body matched among themselves, the statement
    binds [f] to the parameters (the commas left out) and the body, changes
    nothing else, and goes on at the token after the closing brace. *)
Theorem define_stores_the_function (pre ptoks body rest : list token) (f : token)
    (st : state) :
  Forall (fun t => t <> ")") ptoks ->
  well_nested body ->
  let params := List.filter (fun t => negb (String.eqb t ",")) ptoks in
  let next := length pre + 3 + length ptoks + 2 + length body + 1 in
  exec_statement libm_cos libm_sin randbelow interpret_body fuel
    (pre ++ "DEFINE" :: f :: "(" :: ptoks ++ ")" :: "{" :: body ++ "}" :: rest)
    (length pre) st
  = (Ok next, with_symbols st (<[f := VFunc params body]> (symbols st))).
Proof.
  intros Hp Hbody params next.
  set (tokens := pre ++ "DEFINE" :: f :: "(" :: ptoks ++ ")" :: "{" :: body ++ "}" :: rest).
  set (close := length pre + 3 + length ptoks).
  assert (Hparams : define_params (scan_fuel tokens (length pre + 3)) tokens
                      (length pre + 3) []
                    = Ok (params, close)).
  { apply (define_params_scan ptoks tokens ("{" :: body ++ "}" :: rest)); [exact Hp| |].
    - unfold tokens.
      replace (pre ++ "DEFINE" :: f :: "(" :: ptoks ++ ")" :: "{" :: body ++ "}" :: rest)
        with ((pre ++ ["DEFINE"; f; "("]) ++ ptoks ++ ")" :: "{" :: body ++ "}" :: rest)
        by (rewrite <- app_assoc; reflexivity).
      replace (length pre + 3) with (length (pre ++ ["DEFINE"; f; "("]))
        by (rewrite length_app; reflexivity).
      apply drop_app_length.
    - unfold scan_fuel. lia. }
  assert (Hsplit : tokens = (pre ++ "DEFINE" :: f :: "(" :: ptoks ++ [")"; "{"])
                            ++ body ++ "}" :: rest).
  { unfold tokens. reassociate. }
  assert (Hlen : length (pre ++ "DEFINE" :: f :: "(" :: ptoks ++ [")"; "{"]) = close + 2).
  { unfold close. repeat (rewrite length_app; simpl). lia. }
  assert (Hbrace : tokens !! (close + 1) = Some "{").
  { rewrite Hsplit. rewrite lookup_app_l by lia.
    replace (close + 1) with (length (pre ++ "DEFINE" :: f :: "(" :: ptoks ++ [")"]) + 0)
      by (unfold close; repeat (rewrite length_app; simpl); lia).
    replace (pre ++ "DEFINE" :: f :: "(" :: ptoks ++ [")"; "{"])
      with ((pre ++ "DEFINE" :: f :: "(" :: ptoks ++ [")"]) ++ ["{"])
      by reassociate.
    rewrite lookup_after. reflexivity. }
  assert (Hend : find_block_end tokens (close + 2) = Ok (close + 2 + length body + 1)).
  { rewrite Hsplit, <- Hlen.
    apply find_block_end_matched, well_nested_closes, Hbody. }
  assert (Hslice : slice tokens (close + 2) (close + 2 + length body + 1 - 1) = body).
  { rewrite Hsplit, <- Hlen. unfold slice. rewrite drop_app_length.
    match goal with |- take ?n _ = _ => replace n with (length body) by lia end.
    apply take_app_length. }
  unfold exec_statement, bind, lift, getitem. unfold tokens at 1.
  rewrite lookup_at. cbn [lookup list_lookup]. cbv beta iota.
  change (String.eqb "DEFINE" "SET") with false. rewrite String.eqb_refl.
  fold tokens.
  unfold exec_define, bind, lift, getitem, raise, get_symbols, set_symbols, ret.
  unfold tokens at 1 2. rewrite !lookup_after. cbn [lookup list_lookup]. fold tokens.
  cbv beta iota. rewrite String.eqb_refl. cbn [negb]. cbv beta iota zeta.
  rewrite Hparams. cbv beta iota. rewrite Hbrace. cbv beta iota.
  rewrite String.eqb_refl. cbn [negb]. cbv beta iota zeta.
  rewrite Hend. cbv beta iota. rewrite Hslice.
  replace (close + 2 + length body + 1) with next by (unfold next, close; lia).
  reflexivity.
Qed.

End Statements.

Lemma set_assigns_the_value_witness :
  exec_statement (fun x => x) (fun x => x) (fun _ _ => 0) (fun _ => ret tt) 0
    (["TURN"; "90"; "Left"] ++ "SET" :: "x1" :: "=" :: ["2"; "*"; "3"]
     ++ ["MOVE"; "10"; "Forward"])
    (length ["TURN"; "90"; "Left"]) initial_state
  = (Ok (length ["TURN"; "90"; "Left"] + 3 + length ["2"; "*"; "3"]),
     with_symbols initial_state (<["x1" := VNum (PyFloat 6)]> (symbols initial_state))).
Proof.
  apply (set_assigns_the_value (fun x => x) (fun x => x) (fun _ _ => 0) (fun _ => ret tt) 0
           ["TURN"; "90"; "Left"] ["2"; "*"; "3"] ["MOVE"; "10"; "Forward"] "x1"
           (BinOp Mul (Lit 2) (Lit 3))).
  - apply renders_term.
    apply (renders_product Mul (Lit 2) (Lit 3) ["2"] ["3"]); [reflexivity| |].
    + apply renders_factor, renders_number; vm_compute; reflexivity.
    + apply renders_number; vm_compute; reflexivity.
  - repeat (apply List.Forall_cons; [reflexivity|]). apply List.Forall_nil.
  - reflexivity.
  - vm_compute. reflexivity.
Defined.

Lemma if_runs_its_block_or_skips_it_witness :
  let run_body := interpret (fun x => x) (fun x => x) (fun _ _ => 0) 3 in
  let st := with_symbols initial_state {["n" := VNum (PyFloat 1)]} in
  exec_statement (fun x => x) (fun x => x) (fun _ _ => 0) run_body 0
    ([] ++ "IF" :: ["n"] ++ ">" :: ["0"] ++ "{" :: ["SET"; "n"; "="; "0"] ++ "}" :: [])
    (length (@nil string)) st
  = (let! _ := run_body ["SET"; "n"; "="; "0"] in ret 10) st.
Proof.
  cbv zeta.
  apply (if_runs_its_block_or_skips_it (fun x => x) (fun x => x) (fun _ _ => 0)
           (interpret (fun x => x) (fun x => x) (fun _ _ => 0) 3) 0
           [] ["n"] ["0"] ["SET"; "n"; "="; "0"] [] ">" Gt_ (Name "n") (Lit 0) true
           (with_symbols initial_state {["n" := VNum (PyFloat 1)]})).
  - apply renders_term, renders_factor, renders_name. reflexivity.
  - apply renders_term, renders_factor, renders_number; vm_compute; reflexivity.
  - reflexivity.
  - repeat (apply List.Forall_cons; [reflexivity|]). apply List.Forall_nil.
  - repeat (apply List.Forall_cons; [reflexivity|]). apply List.Forall_nil.
  - split; [|vm_compute; reflexivity].
    intros j. do 5 (destruct j as [|j]; [vm_compute; discriminate|]).
    vm_compute. discriminate.
  - vm_compute. reflexivity.
Defined.

Lemma define_stores_the_function_witness :
  exec_statement (fun x => x) (fun x => x) (fun _ _ => 0) (fun _ => ret tt) 0
    ([] ++ "DEFINE" :: "g" :: "(" :: ["a"; ","; "b"] ++ ")" :: "{"
     :: ["MOVE"; "a"; "Forward"] ++ "}" :: ["CALL"; "g"; "("; "1"; ","; "2"; ")"])
    (length (@nil string)) initial_state
  = (Ok 12,
     with_symbols initial_state
       (<["g" := VFunc ["a"; "b"] ["MOVE"; "a"; "Forward"]]> (symbols initial_state))).
Proof.
  apply (define_stores_the_function (fun x => x) (fun x => x) (fun _ _ => 0)
           (fun _ => ret tt) 0 [] ["a"; ","; "b"] ["MOVE"; "a"; "Forward"]
           ["CALL"; "g"; "("; "1"; ","; "2"; ")"] "g" initial_state).
  - repeat (apply List.Forall_cons; [discriminate|]). apply List.Forall_nil.
  - split; [|vm_compute; reflexivity].
    intros j. do 4 (destruct j as [|j]; [vm_compute; discriminate|]).
    vm_compute. discriminate.
Defined.

(** ** A direction that is none *)

Section Directions.

Variable libm_cos : float -> float.
Variable libm_sin : float -> float.
Variable randbelow : nat -> nat -> nat.
Variable interpret_body : list token -> M unit.
Variable fuel : nat.

Lemma exec_statement_move (tokens : list token) (i : nat) (st : state) :
  tokens !! i = Some "MOVE" ->
  exec_statement libm_cos libm_sin randbelow interpret_body fuel tokens i st
  = exec_move libm_cos libm_sin tokens i st.
Proof.
  intros Ht. unfold exec_statement, bind, lift, getitem. rewrite Ht. reflexivity.
Qed.

Lemma exec_statement_turn (tokens : list token) (i : nat) (st : state) :
  tokens !! i = Some "TURN" ->
  exec_statement libm_cos libm_sin randbelow interpret_body fuel tokens i st
  = exec_turn tokens i st.
Proof.
  intros Ht. unfold exec_statement, bind, lift, getitem. rewrite Ht. reflexivity.
Qed.

(** X24: the token after the expression of a MOVE or a TURN is taken as
    the direction whatever it is.  When it is none of the four directions
    (a keyword of the next statement, say, the direction being left out),
    TURN changes nothing and MOVE draws a line from the cursor to the
    cursor; both go on at the token after it, which is thereby passed
    over. *)
Theorem unknown_direction_is_swallowed (pre toks rest : list token) (d : token)
    (e : expr) (v : value) (a : float) (st : state) :
  renders Expression e toks ->
  Forall (fun t => mem t ["Forward"; "Backward"; "Right"; "Left"] = false) toks ->
  mem d ["Forward"; "Backward"; "Right"; "Left"] = false ->
  is_operator d = false ->
  eval_expr (symbols st) e = Ok v ->
  math_radians (cur_angle (cursor st)) = Ok a ->
  let next := length pre + 1 + length toks + 1 in
  let here := (cur_x (cursor st), cur_y (cursor st)) in
  exec_statement libm_cos libm_sin randbelow interpret_body fuel
    (pre ++ "TURN" :: toks ++ d :: rest) (length pre) st
  = (Ok next, st)
  /\ exec_statement libm_cos libm_sin randbelow interpret_body fuel
       (pre ++ "MOVE" :: toks ++ d :: rest) (length pre) st
     = (Ok next,
        {| symbols := symbols st; call_stack := call_stack st; cursor := cursor st;
           drawn := drawn st ++ [Line (cur_color (cursor st)) here here 2];
           choices := choices st |}).
Proof.
  intros Hr Hclear Hd Hop Hv Ha next here.
  assert (Hparse : forall kw stop,
             Forall (fun t => mem t stop = false) toks ->
             parse_expression (pre ++ kw :: toks ++ d :: rest) (length pre + 1) stop
             = Ok (e, length pre + 1 + length toks)).
  { intros kw stop Hstop.
    replace (pre ++ kw :: toks ++ d :: rest) with ((pre ++ [kw]) ++ toks ++ d :: rest)
      by (rewrite <- app_assoc; reflexivity).
    replace (length pre + 1) with (length (pre ++ [kw]))
      by (rewrite length_app; reflexivity).
    apply parse_expression_renders; [exact Hr|exact Hstop|].
    simpl. rewrite Hop. reflexivity. }
  assert (Hdir : forall kw,
             (pre ++ kw :: toks ++ d :: rest) !! (length pre + 1 + length toks) = Some d).
  { intros kw.
    replace (length pre + 1 + length toks) with (length pre + (1 + length toks)) by lia.
    rewrite lookup_after. simpl. rewrite <- (Nat.add_0_r (length toks)).
    rewrite lookup_after. reflexivity. }
  unfold mem in Hd. simpl in Hd.
  repeat (apply orb_false_iff in Hd as [? Hd]).
  split.
  - rewrite exec_statement_turn by (rewrite lookup_at; reflexivity).
    unfold exec_turn, bind, lift, getitem, eval, get_symbols, get_cursor, ret.
    rewrite Hparse.
    + cbv beta iota. unfold bind, lift. cbv beta iota. rewrite Hv. cbv beta iota.
      rewrite Hdir. cbv beta iota.
      repeat match goal with H : String.eqb d _ = false |- _ => rewrite H; clear H end.
      reflexivity.
    + eapply Forall_impl; [exact Hclear|]. intros t Ht. simpl in *.
      repeat (apply orb_false_iff in Ht as [? Ht]).
      repeat match goal with H : String.eqb t _ = false |- _ => rewrite H; clear H end.
      reflexivity.
  - rewrite exec_statement_move by (rewrite lookup_at; reflexivity).
    unfold exec_move, bind, lift, getitem, eval, get_symbols, ret.
    rewrite Hparse.
    + cbv beta iota. unfold bind, lift. cbv beta iota. rewrite Hv. cbv beta iota.
      rewrite Hdir. cbv beta iota.
      unfold move_cursor, bind, lift, get_cursor, draw, ret. cbv beta iota zeta.
      rewrite Ha. cbv beta iota.
      repeat match goal with H : String.eqb d _ = false |- _ => rewrite H; clear H end.
      reflexivity.
    + eapply Forall_impl; [exact Hclear|]. intros t Ht. simpl in *.
      repeat (apply orb_false_iff in Ht as [? Ht]).
      repeat match goal with H : String.eqb t _ = false |- _ => rewrite H; clear H end.
      reflexivity.
Qed.

End Directions.

Lemma unknown_direction_is_swallowed_witness :
  let st := initial_state in
  let here := (cur_x (cursor st), cur_y (cursor st)) in
  exec_statement (fun x => x) (fun x => x) (fun _ _ => 0) (fun _ => ret tt) 0
    ([] ++ "TURN" :: ["90"] ++ "SET" :: ["x"; "="; "1"]) (length (@nil string)) st
  = (Ok (length (@nil string) + 1 + length ["90"] + 1), st)
  /\ exec_statement (fun x => x) (fun x => x) (fun _ _ => 0) (fun _ => ret tt) 0
       ([] ++ "MOVE" :: ["90"] ++ "SET" :: ["x"; "="; "1"]) (length (@nil string)) st
     = (Ok (length (@nil string) + 1 + length ["90"] + 1),
        {| symbols := symbols st; call_stack := call_stack st; cursor := cursor st;
           drawn := drawn st ++ [Line (cur_color (cursor st)) here here 2];
           choices := choices st |}).
Proof.
  cbv zeta.
  apply (unknown_direction_is_swallowed (fun x => x) (fun x => x) (fun _ _ => 0)
           (fun _ => ret tt) 0 [] ["90"] ["x"; "="; "1"] "SET" (Lit 90)
           (VNum (PyFloat 90)) 0%float initial_state).
  - apply renders_term, renders_factor, renders_number; vm_compute; reflexivity.
  - repeat (apply List.Forall_cons; [reflexivity|]). apply List.Forall_nil.
  - reflexivity.
  - reflexivity.
  - vm_compute. reflexivity.
  - vm_compute. reflexivity.
Defined.

(** ** DRAW with a position *)

Lemma number_is_no_operator (t : token) :
  Str.isdigit (Str.remove_first t ".") = true -> is_operator t = false /\ t <> ",".
Proof.
  intros H. split.
  - unfold is_operator, mem. simpl.
    repeat match goal with
           | |- context [String.eqb t ?s] =>
               destruct (String.eqb_spec t s) as [->|]; [vm_compute in H; discriminate|]
           end.
    reflexivity.
  - intros ->. vm_compute in H. discriminate.
Qed.

Lemma name_is_no_operator (x : token) :
  Str.isalpha x = true -> is_operator x = false /\ x <> ",".
Proof.
  intros H. split.
  - unfold is_operator, mem. simpl.
    repeat match goal with
           | |- context [String.eqb x ?s] =>
               destruct (String.eqb_spec x s) as [->|]; [vm_compute in H; discriminate|]
           end.
    reflexivity.
  - intros ->. vm_compute in H. discriminate.
Qed.

Lemma renders_head (lvl : level) (e : expr) (toks : list token) :
  renders lvl e toks ->
  exists t more, toks = t :: more /\ is_operator t = false /\ t <> ",".
Proof.
  induction 1 as [t f Hdigit _|x Halpha|e toks _ _|e toks _ IH
                 |op l r tl tr _ _ IHl _ _|e toks _ IH
                 |op l r tl tr _ _ IHl _ _].
  - exists t, []. split; [reflexivity|]. apply number_is_no_operator, Hdigit.
  - exists x, []. split; [reflexivity|]. apply name_is_no_operator, Halpha.
  - eexists _, _. split; [reflexivity|]. split; [reflexivity|discriminate].
  - exact IH.
  - destruct IHl as (t & more & -> & Ht). eexists _, _. split; [reflexivity|exact Ht].
  - exact IH.
  - destruct IHl as (t & more & -> & Ht). eexists _, _. split; [reflexivity|exact Ht].
Qed.

Section DrawAt.

Variable libm_cos : float -> float.
Variable libm_sin : float -> float.
Variable randbelow : nat -> nat -> nat.
Variable interpret_body : list token -> M unit.
Variable fuel : nat.

Lemma exec_statement_draw (tokens : list token) (i : nat) (st : state) :
  tokens !! i = Some "DRAW" ->
  exec_statement libm_cos libm_sin randbelow interpret_body fuel tokens i st
  = exec_draw libm_cos libm_sin tokens i st.
Proof.
  intros Ht. unfold exec_statement, bind, lift, getitem. rewrite Ht. reflexivity.
Qed.

(** X25: DRAW with a position, and the comma that may be left out.  On
    [DRAW <shape> <size> AT <x> , <y>], the three expressions written by the
    grammar (the size free of the stop tokens of DRAW, the x free of
    commas, the y free of command keywords, no operator after the y), the
    statement calls [draw_shape] with the shape token and the three values
    and goes on at the token after the y; and it does the same when the
    comma between the x and the y is not there. *)
Theorem draw_at_takes_an_optional_comma (pre ts tx ty comma rest : list token)
    (shape : token) (es ex ey : expr) (vs vx vy : value) (st : state) :
  renders Expression es ts -> renders Expression ex tx -> renders Expression ey ty ->
  Forall (fun t => mem t DRAW_STOP_TOKENS = false) ts ->
  Forall (fun t => mem t [","] = false) tx ->
  Forall (fun t => mem t COMMAND_KEYWORDS = false) ty ->
  comma = [","] \/ comma = [] ->
  ends_expression rest = true ->
  eval_expr (symbols st) es = Ok vs ->
  eval_expr (symbols st) ex = Ok vx ->
  eval_expr (symbols st) ey = Ok vy ->
  let next := length pre + 2 + length ts + 1 + length tx + length comma + length ty in
  exec_statement libm_cos libm_sin randbelow interpret_body fuel
    (pre ++ "DRAW" :: shape :: ts ++ "AT" :: tx ++ comma ++ ty ++ rest) (length pre) st
  = (let! _ := draw_shape libm_cos libm_sin shape vs (Some vx) (Some vy) in ret next) st.
Proof.
  intros Hs Hx Hy Hcs Hcx Hcy Hcomma Hend Hvs Hvx Hvy next.
  set (tokens := pre ++ "DRAW" :: shape :: ts ++ "AT" :: tx ++ comma ++ ty ++ rest).
  set (i1 := length pre + 2).
  set (i2 := i1 + length ts + 1).
  set (i3 := i2 + length tx + length comma).
  destruct (renders_head _ _ _ Hy) as (t & more & Hty & Hop & Hne).
  assert (Heq1 : tokens = (pre ++ ["DRAW"; shape]) ++ ts ++ "AT" :: tx ++ comma ++ ty ++ rest)
    by (unfold tokens; reassociate).
  assert (Hlen1 : length (pre ++ ["DRAW"; shape]) = i1)
    by (unfold i1; rewrite length_app; reflexivity).
  assert (Heq2 : tokens = (pre ++ "DRAW" :: shape :: ts ++ ["AT"])
                          ++ tx ++ comma ++ ty ++ rest)
    by (unfold tokens; reassociate).
  assert (Hlen2 : length (pre ++ "DRAW" :: shape :: ts ++ ["AT"]) = i2)
    by (unfold i2, i1; repeat (rewrite length_app; simpl); lia).
  assert (Heq3 : tokens = (pre ++ "DRAW" :: shape :: ts ++ "AT" :: tx ++ comma)
                          ++ ty ++ rest)
    by (unfold tokens; reassociate).
  assert (Hlen3 : length (pre ++ "DRAW" :: shape :: ts ++ "AT" :: tx ++ comma) = i3)
    by (unfold i3, i2, i1; repeat (rewrite length_app; simpl); lia).
  assert (Hsize : parse_expression tokens i1 DRAW_STOP_TOKENS = Ok (es, i1 + length ts)).
  { rewrite Heq1, <- Hlen1. apply parse_expression_renders; [exact Hs|exact Hcs|reflexivity]. }
  assert (Hat : tokens !! (i1 + length ts) = Some "AT").
  { rewrite Heq1, <- Hlen1, lookup_after, lookup_at. reflexivity. }
  assert (Hxp : parse_expression tokens i2 [","] = Ok (ex, i2 + length tx)).
  { rewrite Heq2, <- Hlen2. apply parse_expression_renders; [exact Hx|exact Hcx|].
    destruct Hcomma as [->| ->]; [reflexivity|]. rewrite Hty. simpl. rewrite Hop.
    reflexivity. }
  assert (Hyp : parse_expression tokens i3 COMMAND_KEYWORDS = Ok (ey, i3 + length ty)).
  { rewrite Heq3, <- Hlen3. apply parse_expression_renders; assumption. }
  assert (Hsep : exists c, tokens !! (i2 + length tx) = Some c
                           /\ (if String.eqb c "," then i2 + length tx + 1
                               else i2 + length tx) = i3).
  { rewrite Heq2, <- Hlen2, lookup_after, lookup_at. unfold i3. rewrite Hlen2.
    destruct Hcomma as [->| ->].
    - exists ",". split; [reflexivity|]. reflexivity.
    - exists t. rewrite Hty. split; [reflexivity|].
      apply String.eqb_neq in Hne. rewrite Hne. simpl. lia. }
  destruct Hsep as (c & Hc & Hi3).
  rewrite exec_statement_draw by (unfold tokens; rewrite lookup_at; reflexivity).
  unfold exec_draw, bind, lift, getitem, eval, get_symbols, ret.
  unfold tokens at 1. rewrite lookup_after. cbn [lookup list_lookup]. fold tokens.
  cbv beta iota. fold i1. rewrite Hsize. cbv beta iota zeta.
  unfold bind, lift. cbv beta iota. rewrite Hvs. cbv beta iota.
  pose proof (lookup_lt_Some _ _ _ Hat) as Hlt. apply Nat.ltb_lt in Hlt.
  unfold tok_is. rewrite Hlt, Hat, String.eqb_refl. cbn [andb]. cbv beta iota.
  fold i2. rewrite Hxp. cbv beta iota. rewrite Hvx. cbv beta iota.
  rewrite Hc. cbv beta iota. rewrite Hi3, Hyp. cbv beta iota. rewrite Hvy.
  cbv beta iota.
  replace (i3 + length ty) with next by (unfold next, i3, i2, i1; lia).
  reflexivity.
Qed.

End DrawAt.

Lemma draw_at_takes_an_optional_comma_witness :
  exec_statement (fun x => x) (fun x => x) (fun _ _ => 0) (fun _ => ret tt) 0
    ([] ++ "DRAW" :: "Circle" :: ["5"] ++ "AT" :: ["10"] ++ [] ++ ["20"] ++ ["TURN"])
    (length (@nil string)) initial_state
  = (let! _ := draw_shape (fun x => x) (fun x => x) "Circle" (VNum (PyFloat 5))
                 (Some (VNum (PyFloat 10))) (Some (VNum (PyFloat 20))) in
     ret 6) initial_state.
Proof.
  apply (draw_at_takes_an_optional_comma (fun x => x) (fun x => x) (fun _ _ => 0)
           (fun _ => ret tt) 0 [] ["5"] ["10"] ["20"] [] ["TURN"] "Circle"
           (Lit 5) (Lit 10) (Lit 20)).
  - apply renders_term, renders_factor, renders_number; vm_compute; reflexivity.
  - apply renders_term, renders_factor, renders_number; vm_compute; reflexivity.
  - apply renders_term, renders_factor, renders_number; vm_compute; reflexivity.
  - repeat (apply List.Forall_cons; [reflexivity|]). apply List.Forall_nil.
  - repeat (apply List.Forall_cons; [reflexivity|]). apply List.Forall_nil.
  - repeat (apply List.Forall_cons; [reflexivity|]). apply List.Forall_nil.
  - right. reflexivity.
  - reflexivity.
  - vm_compute. reflexivity.
  - vm_compute. reflexivity.
  - vm_compute. reflexivity.
Defined.

(** ** Division *)

(** C3, as amended: a division node whose right operand evaluates to a
    zero (the integer 0, or a float equal to 0) evaluates to the integer 0
    whatever the left operand is, a function included, and raises nothing.
    A division never raises [ZeroDivisionError], and when both operands
    are floats or the integer 0 it returns such a value.  It is not free
    of errors on all values: when the right operand is not a zero and one
    of the two operands is a function, it raises [TypeError]. *)
Theorem eval_expr_division_by_zero :
  (forall (syms : symtab) (l r : expr) (lv : value) (n : number),
      eval_expr syms l = Ok lv ->
      eval_expr syms r = Ok (VNum n) ->
      Num.is_zero n = true ->
      eval_expr syms (BinOp Div l r) = Ok (VNum (PyInt 0)))
  /\ (forall (syms : symtab) (l r : expr),
      is_zero_division (eval_expr syms (BinOp Div l r)) = false)
  /\ (forall (syms : symtab) (l r : expr) (lv rv : value),
      eval_expr syms l = Ok lv ->
      eval_expr syms r = Ok rv ->
      plain lv -> plain rv ->
      exists v, eval_expr syms (BinOp Div l r) = Ok v /\ plain v)
  /\ (forall (syms : symtab) (l r : expr) (lv rv : value),
      eval_expr syms l = Ok lv ->
      eval_expr syms r = Ok rv ->
      value_ne_zero rv = true ->
      is_function lv || is_function rv = true ->
      eval_expr syms (BinOp Div l r) = Raise TypeError).
Proof.
  split; [|split; [|split]].
  - intros syms l r lv n Hl Hr Hz. simpl. rewrite Hl, Hr. simpl.
    rewrite Hz. reflexivity.
  - intros syms l r. apply nzd_eval_expr.
  - intros syms l r lv rv Hl Hr Hlv Hrv. simpl. rewrite Hl, Hr. simpl.
    destruct (value_ne_zero rv) eqn:Hnz; [apply plain_div; assumption|].
    eexists. split; [reflexivity|reflexivity].
  - intros syms l r lv rv Hl Hr Hnz Hf. simpl. rewrite Hl, Hr. simpl. rewrite Hnz.
    destruct lv as [x|]; destruct rv as [y|]; simpl in Hf;
      [discriminate|reflexivity|reflexivity|reflexivity].
Qed.

Lemma eval_expr_division_by_zero_witness :
  eval_expr ∅ (BinOp Div (Lit 5) (Lit 0)) = Ok (VNum (PyInt 0))
  /\ eval_source "5 / 0" = Ok (VNum (PyInt 0))
  /\ (exists v, eval_expr ∅ (BinOp Div (Name "x") (Lit 2)) = Ok v /\ plain v).
Proof.
  split; [|split].
  - apply (proj1 eval_expr_division_by_zero ∅ (Lit 5) (Lit 0)
             (VNum (PyFloat 5)) (PyFloat 0)); reflexivity.
  - vm_compute. reflexivity.
  - apply (proj1 (proj2 (proj2 eval_expr_division_by_zero)) ∅ (Name "x") (Lit 2)
             (VNum (PyInt 0)) (VNum (PyFloat 2))); reflexivity.
Defined.

(** C3 as stated fails in its second half: division is not free of errors.
    After [DEFINE f ( ) { }] the name [f] is bound to a function, and
    [f / 2] and [1 / f] raise [TypeError]; so does the program that
    assigns [f / 2]. *)
Lemma division_by_function_raises :
  let syms : symtab := {[ "f" := VFunc [] [] ]} in
  eval_expr syms (BinOp Div (Name "f") (Lit 2)) = Raise TypeError
  /\ eval_expr syms (BinOp Div (Lit 1) (Name "f")) = Raise TypeError
  /\ eval_expr syms (BinOp Div (Name "f") (Lit 0)) = Ok (VNum (PyInt 0))
  /\ (forall cos_ sin_ rb,
        fst (run cos_ sin_ rb 3 "DEFINE f ( ) { } SET x = f / 2") = Raise TypeError).
Proof.
  cbv zeta. split; [reflexivity|]. split; [reflexivity|]. split; [reflexivity|].
  intros. vm_compute. reflexivity.
Qed.

(** ** Precedence and associativity *)

Lemma parse_full_expression_renders (e : expr) (toks : list token) :
  renders Expression e toks -> parse_full_expression toks = Ok e.
Proof.
  intros Hr. unfold parse_full_expression.
  pose proof (parse_expression_renders e toks [] [] [] Hr) as H.
  rewrite app_nil_r in H. simpl in H. rewrite H.
  - simpl. rewrite Nat.eqb_refl. reflexivity.
  - apply Forall_forall. intros t _. reflexivity.
  - reflexivity.
Qed.

Lemma close_sum_renders (sum : option (expr * binop)) (term : expr)
    (ts tt : list token) :
  sum_written sum ts -> renders Term term tt ->
  renders Expression (close_sum sum term) (ts ++ tt).
Proof.
  intros Hsum Hterm. destruct sum as [[s op]|]; simpl in *.
  - destruct Hsum as (Hop & ts' & Hs & ->). rewrite <- app_assoc.
    apply renders_sum; assumption.
  - subst. apply renders_term. exact Hterm.
Qed.

Lemma precedence_cases (op : binop) : precedence op = 1 \/ precedence op = 2.
Proof. destruct op; auto. Qed.

Lemma chain_renders (rest : list link) (sum : option (expr * binop)) (term : expr)
    (ts tt : list token) :
  sum_written sum ts -> renders Term term tt ->
  Forall (fun x => renders Factor (snd (fst x)) (snd x)) rest ->
  renders Expression (chain_tree sum term rest) (ts ++ chain_tokens tt rest).
Proof.
  intros Hsum Hterm Hrest. revert sum term ts tt Hsum Hterm.
  induction Hrest as [|[[op e] t] rest He _ IH]; intros sum term ts tt Hsum Hterm.
  - unfold chain_tokens. simpl. rewrite app_nil_r.
    apply close_sum_renders; assumption.
  - simpl in He. unfold chain_tokens in *. simpl.
    destruct (precedence_cases op) as [Hop|Hop]; rewrite Hop; simpl.
    + replace (ts ++ tt ++ token_of_binop op :: t ++ flat_map link_tokens rest)
        with (((ts ++ tt) ++ [token_of_binop op]) ++ t ++ flat_map link_tokens rest)
        by (rewrite <- !app_assoc; reflexivity).
      apply IH; [|apply renders_factor; exact He].
      split; [exact Hop|].
      eexists. split; [apply close_sum_renders; eassumption|reflexivity].
    + replace (ts ++ tt ++ token_of_binop op :: t ++ flat_map link_tokens rest)
        with (ts ++ (tt ++ token_of_binop op :: t) ++ flat_map link_tokens rest)
        by (rewrite <- !app_assoc; reflexivity).
      apply IH; [exact Hsum|]. apply renders_product; assumption.
Qed.

(** C4: "*" and "/" bind tighter than "+" and "-", and the operators of
    one level associate to the left, in a chain of any length.  The tokens
    of a chain of operands (numbers, names, parenthesised expressions) with
    an operator between each two are parsed to the tree that reading the
    chain from the left gives: "*" and "/" take the term read so far as
    their left operand, "+" and "-" close it into the sum read so far and
    start a new term.  In particular [a o1 b o2 c] parses as
    [a o1 (b o2 c)] exactly when [o2] has the higher precedence, and as
    [(a o1 b) o2 c] otherwise; so 2 + 3 * 4 is 14, ( 2 + 3 ) * 4 is 20 and
    10 - 3 - 2 is 5. *)
Theorem parse_precedence_and_associativity :
  (forall (e0 : expr) (t0 : list token) (rest : list link),
      renders Factor e0 t0 ->
      Forall (fun x => renders Factor (snd (fst x)) (snd x)) rest ->
      parse_full_expression (chain_tokens t0 rest) = Ok (chain_tree None e0 rest))
  /\ (forall o1 o2 : binop,
      parse_full_expression ["a"; token_of_binop o1; "b"; token_of_binop o2; "c"]
      = Ok (if precedence o1 <? precedence o2
            then BinOp o1 (Name "a") (BinOp o2 (Name "b") (Name "c"))
            else BinOp o2 (BinOp o1 (Name "a") (Name "b")) (Name "c")))
  /\ eval_source "2 + 3 * 4" = Ok (VNum (PyFloat 14))
  /\ eval_source "( 2 + 3 ) * 4" = Ok (VNum (PyFloat 20))
  /\ eval_source "10 - 3 - 2" = Ok (VNum (PyFloat 5))
  /\ eval_source "10 - 3 - 2" <> Ok (VNum (PyFloat 9)).
Proof.
  split; [|split; [|repeat split; try (vm_compute; reflexivity); vm_compute; discriminate]].
  - intros e0 t0 rest H0 Hrest. apply parse_full_expression_renders.
    apply (chain_renders rest None e0 [] t0); [reflexivity| |exact Hrest].
    apply renders_factor. exact H0.
  - intros [] []; vm_compute; reflexivity.
Qed.

Lemma parse_precedence_and_associativity_witness :
  parse_full_expression ["10"; "-"; "3"; "-"; "2"; "-"; "1"]
  = Ok (BinOp Sub (BinOp Sub (BinOp Sub (Lit 10) (Lit 3)) (Lit 2)) (Lit 1))
  /\ parse_full_expression ["a"; "+"; "b"; "*"; "c"; "/"; "d"; "-"; "e"; "*"; "f"]
     = Ok (BinOp Sub
             (BinOp Add (Name "a") (BinOp Div (BinOp Mul (Name "b") (Name "c")) (Name "d")))
             (BinOp Mul (Name "e") (Name "f"))).
Proof.
  split.
  - apply (proj1 parse_precedence_and_associativity (Lit 10) ["10"]
             [(Sub, Lit 3, ["3"]); (Sub, Lit 2, ["2"]); (Sub, Lit 1, ["1"])]).
    + apply renders_number; vm_compute; reflexivity.
    + repeat (apply List.Forall_cons; [apply renders_number; vm_compute; reflexivity|]).
      apply List.Forall_nil.
  - apply (proj1 parse_precedence_and_associativity (Name "a") ["a"]
             [(Add, Name "b", ["b"]); (Mul, Name "c", ["c"]); (Div, Name "d", ["d"]);
              (Sub, Name "e", ["e"]); (Mul, Name "f", ["f"])]).
    + apply renders_name. reflexivity.
    + repeat (apply List.Forall_cons; [apply renders_name; reflexivity|]).
      apply List.Forall_nil.
Defined.
